(** * RMT: regularized minimal-energy tensor-product interpolant

    A shallow embedding of [smt/rmt.py] (class [RMT]) and theorems about
    its fit driver ([_solve]), its approximation-term builder
    ([_compute_approx_terms]) and its evaluator ([evaluate]).  The last
    two parts of the definitions embed [smt/rbf.py] (class [RBF]) and
    [smt/problems/welded_beam.py] (class [WeldedBeam]).

    Modelling conventions.
    - numpy [float64] arrays are lists of real numbers: arithmetic is
      exact, rounding, [inf] and [nan] are not represented.
    - a one-dimensional array is a [list R]; a dense two-dimensional
      array that the code only reads or writes by column ([sol], [rhs],
      [d_sol], [yt], [dx]) is the list of its columns; the point arrays
      [xt] and [x] are lists of rows (one row per point).
    - a [scipy.sparse] matrix is its shape with its entry function.
    - a Python [dict] is an association list in insertion order.
    - Python exceptions are values of [exn]; a function that can raise
      returns a [result].  numpy and scipy raise on arrays whose shapes do
      not match; the array operations here are total, and the theorems
      state the shapes they need.
    - [approx_norm] is an integer, as its default [4] is: [**] is the
      power with an integer exponent.
    - the Jacobian assembler [_compute_jac], the routine
      [RMTSlib.compute_ext_dist], the linear solver and the line search
      are not part of [rmt.py]: they are parameters.  The multigrid
      matrices [mg_matrices] only pass through [_solve] to the solver and
      belong to that parameter.  So are the functions of
      [smt.utils.caching] that [fit] calls. *)

From Stdlib Require Import String.
From Stdlib Require Import Reals Lra Lia ZArith List Bool PeanoNat.
Import ListNotations.
Local Open Scope R_scope.

Set Implicit Arguments.

(** ** Exceptions and results *)

Inductive assert_msg : Type :=
| Training_pts_below_min_for (kx : Z)
| Training_pts_above_max_for (kx : Z).

Inductive exn : Type :=
| AssertionError (msg : assert_msg)
| ValueError
| KeyError (key : Z)
| IndexError
| TypeError
| AttributeError (attr : string).

Inductive result (A : Type) : Type :=
| Ok (a : A)
| Err (e : exn).

Arguments Ok {A} a.
Arguments Err {A} e.

Definition bind {A B : Type} (r : result A) (k : A -> result B) : result B :=
  match r with
  | Ok a => k a
  | Err e => Err e
  end.

Declare Scope result_scope.
Delimit Scope result_scope with result.
Notation "x <- r ;; k" := (bind r (fun x => k))
  (at level 61, r at next level, right associativity) : result_scope.
Notation "' p <- r ;; k" := (bind r (fun x => let p := x in k))
  (at level 61, p pattern, r at next level, right associativity) : result_scope.
Local Open Scope result_scope.

(** [for kx in keys: acc = body(kx, acc)], stopping at the first exception. *)
Fixpoint for_in {K A : Type} (ks : list K) (body : K -> A -> result A) (acc : A)
  : result A :=
  match ks with
  | [] => Ok acc
  | k :: ks' => a <- body k acc ;; for_in ks' body a
  end.

(** ** Dictionaries keyed by the derivative order [kx] *)

Definition dict (A : Type) : Type := list (Z * A).

Definition dict_keys {A : Type} (d : dict A) : list Z := map fst d.

Fixpoint dict_get {A : Type} (d : dict A) (k : Z) : result A :=
  match d with
  | [] => Err (KeyError k)
  | (k', a) :: d' => if Z.eqb k' k then Ok a else dict_get d' k
  end.

(** [d[k] = a]: replaces the value of an existing key in place, appends a
    new key. *)
Fixpoint dict_set {A : Type} (d : dict A) (k : Z) (a : A) : dict A :=
  match d with
  | [] => [(k, a)]
  | (k', a') :: d' =>
      if Z.eqb k' k then (k', a) :: d' else (k', a') :: dict_set d' k a
  end.

(** ** One-dimensional arrays *)

Definition vec : Type := list R.

Definition vnth (v : vec) (i : nat) : R := nth i v 0.

Definition tabulate (n : nat) (f : nat -> R) : vec := map f (seq 0 n).

Definition zeros (n : nat) : vec := repeat 0 n.

Fixpoint vmap2 (f : R -> R -> R) (u v : vec) : vec :=
  match u, v with
  | x :: u', y :: v' => f x y :: vmap2 f u' v'
  | _, _ => []
  end.

Definition vadd : vec -> vec -> vec := vmap2 Rplus.
Definition vsub : vec -> vec -> vec := vmap2 Rminus.
Definition vmul : vec -> vec -> vec := vmap2 Rmult.
Definition vscale (c : R) (v : vec) : vec := map (Rmult c) v.
Definition vneg (v : vec) : vec := map Ropp v.

(** [v ** n] with an integer exponent, elementwise. *)
Definition vpow (v : vec) (n : Z) : vec := map (fun x => powerRZ x n) v.

(** [np.sum]. *)
Definition np_sum (v : vec) : R := fold_right Rplus 0 v.

(** [np.dot] of two one-dimensional arrays. *)
Definition np_dot (u v : vec) : R := np_sum (vmul u v).

(** [np.linalg.norm] of a one-dimensional array. *)
Definition np_linalg_norm (v : vec) : R := sqrt (np_sum (map (fun x => x * x) v)).

(** The sum of [f 0 .. f (n-1)]. *)
Fixpoint rsum (n : nat) (f : nat -> R) : R :=
  match n with
  | O => 0
  | S k => rsum k f + f k
  end.

(** ** Sparse matrices *)

Record spmatrix : Type := mk_spmatrix {
  shape : nat * nat;
  entry : nat -> nat -> R
}.

Definition nrows (M : spmatrix) : nat := fst (shape M).
Definition ncols (M : spmatrix) : nat := snd (shape M).

(** [M * v] for a one-dimensional [v]. *)
Definition sp_matvec (M : spmatrix) (v : vec) : vec :=
  tabulate (nrows M) (fun i => rsum (ncols M) (fun j => entry M i j * vnth v j)).

(** [M.T]. *)
Definition sp_T (M : spmatrix) : spmatrix :=
  mk_spmatrix (ncols M, nrows M) (fun i j => entry M j i).

(** [c * M] and [M * c] for a scalar [c]. *)
Definition sp_scale (c : R) (M : spmatrix) : spmatrix :=
  mk_spmatrix (shape M) (fun i j => c * entry M i j).

(** [A + B]. *)
Definition sp_add (A B : spmatrix) : spmatrix :=
  mk_spmatrix (shape A) (fun i j => entry A i j + entry B i j).

(** [A * B] for two sparse matrices. *)
Definition sp_mul (A B : spmatrix) : spmatrix :=
  mk_spmatrix (nrows A, ncols B)
    (fun i j => rsum (ncols A) (fun k => entry A i k * entry B k j)).

(** [scipy.sparse.diags(d)]. *)
Definition sp_diags (d : vec) : spmatrix :=
  mk_spmatrix (length d, length d)
    (fun i j => if Nat.eqb i j then vnth d i else 0).

(** Two matrices of one shape with the same entries inside it. *)
Definition sp_eq (A B : spmatrix) : Prop :=
  shape A = shape B /\
  forall i j, (i < nrows A)%nat -> (j < ncols A)%nat -> entry A i j = entry B i j.

(** ** The model object *)

(** The entries of [sm_options] that [rmt.py] reads. *)
Record options : Type := {
  xlimits : list (R * R);
  reg_dv : R;
  extrapolate : bool;
  approx_norm : Z;
  use_mtx_free : bool;
  max_nln_iter : Z
}.

(** The sizing record [self.num]. *)
Record sizes : Type := {
  num_x : nat;
  num_y : nat;
  num_dof : nat;
  num_coeff : nat;
  num_support : nat
}.

(** An instance of [RMT]. [training_pts] is [self.training_pts['exact']]:
    it maps a derivative order [kx] to [(xt, yt)], [xt] one row per
    training point and [yt] one column per output.  The attributes [num]
    and [sol] are assigned by a fit ([self.num = ...], [self.sol = ...]);
    [None] is an attribute that has not been assigned. *)
Record RMT : Type := {
  sm_options : options;
  training_pts : dict (list vec * list vec);
  num : option sizes;
  sol : option (list vec)
}.

Definition get_num (self : RMT) : result sizes :=
  match num self with
  | Some n => Ok n
  | None => Err (AttributeError "num")
  end.

Definition get_sol (self : RMT) : result (list vec) :=
  match sol self with
  | Some s => Ok s
  | None => Err (AttributeError "sol")
  end.

(** [a[:, j]] for a non-negative [j] on an array kept as its columns. *)
Definition column (a : list vec) (j : nat) : result vec :=
  match nth_error a j with
  | Some c => Ok c
  | None => Err IndexError
  end.

(** [a[:, j] = v]. *)
Fixpoint set_column (a : list vec) (j : nat) (v : vec) : list vec :=
  match a, j with
  | [], _ => []
  | _ :: a', O => v :: a'
  | c :: a', S j' => c :: set_column a' j' v
  end.

(** ** Objective, gradient and Hessian of the fit *)

Definition _initialize_hessian (self : RMT) : result spmatrix :=
  n <- get_num self ;;
  let diag := vscale (reg_dv (sm_options self)) (repeat 1 (num_dof n)) in
  (* csc_matrix((diag, (arange, arange))) infers its shape from the
     indices, which it cannot do when there are none *)
  if Nat.eqb (num_dof n) 0 then Err ValueError else Ok (sp_diags diag).

Definition jac_dict : Type := dict (spmatrix * spmatrix).

Definition _opt_func (self : RMT) (sol : vec) (p : Z) (full_hess : spmatrix)
    (full_jac_dict : jac_dict) (yt_dict : dict vec) : result R :=
  let func := 0.5 * np_dot sol (sp_matvec full_hess sol) in
  for_in (dict_keys (training_pts self)) (fun kx func =>
    '(full_jac, full_jac_T) <- dict_get full_jac_dict kx ;;
    yt <- dict_get yt_dict kx ;;
    Ok (func + 0.5 * np_sum (vpow (vsub (sp_matvec full_jac sol) yt) p))) func.

Definition _opt_grad (self : RMT) (sol : vec) (p : Z) (full_hess : spmatrix)
    (full_jac_dict : jac_dict) (yt_dict : dict vec) : result vec :=
  let grad := sp_matvec full_hess sol in
  for_in (dict_keys (training_pts self)) (fun kx grad =>
    '(full_jac, full_jac_T) <- dict_get full_jac_dict kx ;;
    yt <- dict_get yt_dict kx ;;
    Ok (vadd grad
          (sp_matvec (sp_scale (IZR p) (sp_scale 0.5 full_jac_T))
             (vpow (vsub (sp_matvec full_jac sol) yt) (p - 1))))) grad.

Definition _opt_hess_mtx (self : RMT) (sol : vec) (p : Z) (full_hess : spmatrix)
    (full_jac_dict : jac_dict) (yt_dict : dict vec) : result spmatrix :=
  let hess := full_hess in
  for_in (dict_keys (training_pts self)) (fun kx hess =>
    '(full_jac, full_jac_T) <- dict_get full_jac_dict kx ;;
    yt <- dict_get yt_dict kx ;;
    let diag_vec :=
      vscale (IZR (p * (p - 1))) (vpow (vsub (sp_matvec full_jac sol) yt) (p - 2)) in
    let diag_mtx := sp_diags diag_vec in
    Ok (sp_add hess (sp_mul (sp_mul (sp_scale 0.5 full_jac_T) diag_mtx) full_jac)))
    hess.

(** The system handed to the linear solver: a sparse matrix, or a
    [scipy.sparse.linalg.LinearOperator] that only has a [matvec]. *)
Inductive linop : Type :=
| Mtx (m : spmatrix)
| LinearOperator (shp : nat * nat) (matvec : vec -> result vec).

Definition linop_matvec (A : linop) (v : vec) : result vec :=
  match A with
  | Mtx m => Ok (sp_matvec m v)
  | LinearOperator _ matvec => matvec v
  end.

(** [SpMatrix.__init__] of [_opt_hess_op]: the dictionary [self.diag_vec]. *)
Definition SpMatrix_init (sol : vec) (p : Z) (full_jac_dict : jac_dict)
    (yt_dict : dict vec) : result (dict vec) :=
  for_in (dict_keys full_jac_dict) (fun kx diag_vec =>
    '(full_jac, full_jac_T) <- dict_get full_jac_dict kx ;;
    yt <- dict_get yt_dict kx ;;
    Ok (dict_set diag_vec kx
          (vscale (IZR (p * (p - 1)))
             (vpow (vsub (sp_matvec full_jac sol) yt) (p - 2))))) [].

(** [SpMatrix.dot] of [_opt_hess_op]. *)
Definition SpMatrix_dot (full_hess : spmatrix) (full_jac_dict : jac_dict)
    (diag_vec : dict vec) (other : vec) : result vec :=
  let vec := sp_matvec full_hess other in
  for_in (dict_keys full_jac_dict) (fun kx vec =>
    '(full_jac, full_jac_T) <- dict_get full_jac_dict kx ;;
    d <- dict_get diag_vec kx ;;
    Ok (vadd vec
          (sp_matvec (sp_scale 0.5 full_jac_T)
             (vmul d (sp_matvec full_jac other))))) vec.

Definition _opt_hess_op (self : RMT) (sol : vec) (p : Z) (full_hess : spmatrix)
    (full_jac_dict : jac_dict) (yt_dict : dict vec) : result linop :=
  diag_vec <- SpMatrix_init sol p full_jac_dict yt_dict ;;
  Ok (LinearOperator (shape full_hess)
        (SpMatrix_dot full_hess full_jac_dict diag_vec)).

Definition _opt_hess (self : RMT) (sol : vec) (p : Z) (full_hess : spmatrix)
    (full_jac_dict : jac_dict) (yt_dict : dict vec) : result linop :=
  if use_mtx_free (sm_options self)
  then _opt_hess_op self sol p full_hess full_jac_dict yt_dict
  else m <- _opt_hess_mtx self sol p full_hess full_jac_dict yt_dict ;; Ok (Mtx m).

Definition _opt_hess_mtx_2 (self : RMT) (full_hess : spmatrix)
    (full_jac_dict : jac_dict) : result spmatrix :=
  let p := 2%Z in
  let hess := full_hess in
  for_in (dict_keys (training_pts self)) (fun kx hess =>
    '(full_jac, full_jac_T) <- dict_get full_jac_dict kx ;;
    Ok (sp_add hess
          (sp_mul (sp_scale (0.5 * IZR p * IZR (p - 1)) full_jac_T) full_jac)))
    hess.

(** [SpMatrix.dot] of [_opt_hess_op_2]. *)
Definition SpMatrix_dot_2 (full_hess : spmatrix) (full_jac_dict : jac_dict)
    (other : vec) : result vec :=
  let p := 2%Z in
  let vec := sp_matvec full_hess other in
  for_in (dict_keys full_jac_dict) (fun kx vec =>
    '(full_jac, full_jac_T) <- dict_get full_jac_dict kx ;;
    Ok (vadd vec
          (sp_matvec (sp_scale (0.5 * IZR p * IZR (p - 1)) full_jac_T)
             (sp_matvec full_jac other)))) vec.

Definition _opt_hess_op_2 (self : RMT) (full_hess : spmatrix)
    (full_jac_dict : jac_dict) : result linop :=
  Ok (LinearOperator (shape full_hess) (SpMatrix_dot_2 full_hess full_jac_dict)).

Definition _opt_hess_2 (self : RMT) (full_hess : spmatrix)
    (full_jac_dict : jac_dict) : result linop :=
  if use_mtx_free (sm_options self)
  then _opt_hess_op_2 self full_hess full_jac_dict
  else m <- _opt_hess_mtx_2 self full_hess full_jac_dict ;; Ok (Mtx m).

Definition _opt_norm (self : RMT) (sol : vec) (p : Z) (full_hess : spmatrix)
    (full_jac_dict : jac_dict) (yt_dict : dict vec) : result R :=
  grad <- _opt_grad self sol p full_hess full_jac_dict yt_dict ;;
  Ok (np_linalg_norm grad).

Definition _get_yt_dict (self : RMT) (ind_y : nat) : result (dict vec) :=
  for_in (dict_keys (training_pts self)) (fun kx yt_dict =>
    '(xt, yt) <- dict_get (training_pts self) kx ;;
    c <- column yt ind_y ;;
    Ok (dict_set yt_dict kx c)) [].

(** ** The collaborators of the fit driver and of the evaluator *)

(** What [rmt.py] calls and does not define.
    - [_compute_jac kx ix2 x] (a method of the subclasses) returns the
      triplets [(data, rows, cols)] of a sparse Jacobian; its first
      argument is an integer or [None].
    - [compute_ext_dist nx n ndx xlimits x] is [RMTSlib.compute_ext_dist]:
      the array [dx], here as its columns.
    - [solver_solve mtx rhs x ind_y] is [solver._solve(rhs, x, ind_y)] on
      the solver last initialised with [mtx]; [x] is the array it
      overwrites, the result is its new content.
    - [line_search x d func grad alpha] is
      [ls_class(x, d, func, grad)(alpha)]. *)
Class Collaborators : Type := {
  _compute_jac : option Z -> nat -> list vec -> vec * list nat * list nat;
  compute_ext_dist : nat -> nat -> nat -> list (R * R) -> list vec -> list vec;
  solver_solve : linop -> vec -> vec -> nat -> result vec;
  line_search :
    vec -> vec -> (vec -> result R) -> (vec -> result vec) -> R -> result vec
}.

(** ** The printer and the calls to the collaborators, as a trace *)

(** The timed context an event happens in: ['Solving initial linear
    problem'], or ['Solving nonlinear problem (col. ind_y)'] in the
    iteration [nln_iter] of its loop. *)
Inductive phase : Type :=
| Initial
| Nonlinear (ind_y nln_iter : nat).

Inductive event : Type :=
| Initialize (ph : phase) (mtx : linop)
| Solve (ph : phase) (rhs x : vec) (ind_y : nat)
| LineSearch (ind_y nln_iter : nat) (x d : vec)
| Report (itn ind_y : nat) (norm fval : R).

(** A computation that appends to the trace and may raise. *)
Definition M (A : Type) : Type := list event -> result A * list event.

Definition ret {A : Type} (a : A) : M A := fun tr => (Ok a, tr).

Definition mbind {A B : Type} (m : M A) (k : A -> M B) : M B :=
  fun tr =>
    match m tr with
    | (Ok a, tr') => k a tr'
    | (Err e, tr') => (Err e, tr')
    end.

Definition lift {A : Type} (r : result A) : M A := fun tr => (r, tr).

Definition emit (e : event) : M unit := fun tr => (Ok tt, tr ++ [e]).

Declare Scope M_scope.
Delimit Scope M_scope with M.
Notation "x <- m ;; k" := (mbind m (fun x => k))
  (at level 61, m at next level, right associativity) : M_scope.
Notation "m ;; k" := (mbind m (fun _ => k))
  (at level 61, right associativity) : M_scope.

(** [for i in range(n)] over a state [A], in [M]. *)
Fixpoint for_range {A : Type} (n : nat) (i : nat) (body : nat -> A -> M A)
    (acc : A) : M A :=
  match n with
  | O => ret acc
  | S n' => (a <- body i acc ;; for_range n' (S i) body a)%M
  end.

(** The arrays [rhs], [sol] and [d_sol] of [_solve], one column per output. *)
Record arrays : Type := {
  a_rhs : list vec;
  a_sol : list vec;
  a_d_sol : list vec
}.

Section Driver.
Context {C : Collaborators}.
Variable self : RMT.
Variable full_hess : spmatrix.
Variable full_jac_dict : jac_dict.

(** The body of [for nln_iter in range(max_nln_iter)] up to the line
    search, for the column [ind_y]. *)
Definition newton_step (p : Z) (yt_dict : dict vec) (ind_y nln_iter : nat)
    (a : arrays) : M arrays :=
  (sol_y <- lift (column (a_sol a) ind_y) ;;
   mtx <- lift (_opt_hess self sol_y p full_hess full_jac_dict yt_dict) ;;
   g <- lift (_opt_grad self sol_y p full_hess full_jac_dict yt_dict) ;;
   let rhs := set_column (a_rhs a) ind_y (vneg g) in
   emit (Initialize (Nonlinear ind_y nln_iter) mtx) ;;
   rhs_y <- lift (column rhs ind_y) ;;
   d_y <- lift (column (a_d_sol a) ind_y) ;;
   emit (Solve (Nonlinear ind_y nln_iter) rhs_y d_y ind_y) ;;
   d_y' <- lift (solver_solve mtx rhs_y d_y ind_y) ;;
   let d_sol := set_column (a_d_sol a) ind_y d_y' in
   let func := fun x => _opt_func self x p full_hess full_jac_dict yt_dict in
   let grad := fun x => _opt_grad self x p full_hess full_jac_dict yt_dict in
   emit (LineSearch ind_y nln_iter sol_y d_y') ;;
   s <- lift (line_search sol_y d_y' func grad 1.0) ;;
   ret {| a_rhs := rhs; a_sol := set_column (a_sol a) ind_y s;
          a_d_sol := d_sol |})%M.

(** [norm = ...; fval = ...; self.printer('Nonlinear ...' % (itn, ind_y,
    norm, fval))]; returns [norm]. *)
Definition report (p : Z) (yt_dict : dict vec) (itn ind_y : nat)
    (a : arrays) : M R :=
  (sol_y <- lift (column (a_sol a) ind_y) ;;
   norm <- lift (_opt_norm self sol_y p full_hess full_jac_dict yt_dict) ;;
   fval <- lift (_opt_func self sol_y p full_hess full_jac_dict yt_dict) ;;
   emit (Report itn ind_y norm fval) ;;
   ret norm)%M.

(** [for nln_iter in range(...)] with [n] iterations left, the next one
    being [nln_iter]; [if norm < 1e-16: break]. *)
Fixpoint newton_loop (p : Z) (yt_dict : dict vec) (ind_y : nat)
    (n : nat) (nln_iter : nat) (a : arrays) : M arrays :=
  match n with
  | O => ret a
  | S n' =>
      (a' <- newton_step p yt_dict ind_y nln_iter a ;;
       norm <- report p yt_dict (nln_iter + 1) ind_y a' ;;
       if Rlt_dec norm 1e-16 then ret a'
       else newton_loop p yt_dict ind_y n' (S nln_iter) a')%M
  end.

(** The body of the second [for ind_y in range(rhs.shape[1])]. *)
Definition nonlinear_problem (ind_y : nat) (a : arrays) : M arrays :=
  let p := approx_norm (sm_options self) in
  let max_iter := max_nln_iter (sm_options self) in
  (yt_dict <- lift (_get_yt_dict self ind_y) ;;
   (if Z.ltb 0 max_iter
    then (_ <- report p yt_dict 0 ind_y a ;; ret tt)
    else ret tt) ;;
   newton_loop p yt_dict ind_y (Z.to_nat max_iter) 0 a)%M.

(** ['Assembling linear system'] of the initial problem: one column of
    [rhs]. *)
Definition assemble_rhs (ind_y : nat) (a : arrays) : M arrays :=
  (yt_dict <- lift (_get_yt_dict self ind_y) ;;
   sol_y <- lift (column (a_sol a) ind_y) ;;
   g <- lift (_opt_grad self sol_y 2 full_hess full_jac_dict yt_dict) ;;
   ret {| a_rhs := set_column (a_rhs a) ind_y (vneg g); a_sol := a_sol a;
          a_d_sol := a_d_sol a |})%M.

(** ['Solving linear system (col. ind_y)'] of the initial problem. *)
Definition initial_solve (mtx : linop) (ind_y : nat) (a : arrays) : M arrays :=
  (rhs_y <- lift (column (a_rhs a) ind_y) ;;
   sol_y <- lift (column (a_sol a) ind_y) ;;
   emit (Solve Initial rhs_y sol_y ind_y) ;;
   s <- lift (solver_solve mtx rhs_y sol_y ind_y) ;;
   ret {| a_rhs := a_rhs a; a_sol := set_column (a_sol a) ind_y s;
          a_d_sol := a_d_sol a |})%M.

(** ['Solving initial linear problem']. *)
Definition initial_linear_problem (ny : nat) (a : arrays) : M arrays :=
  (mtx <- lift (_opt_hess_2 self full_hess full_jac_dict) ;;
   a1 <- for_range ny 0 assemble_rhs a ;;
   emit (Initialize Initial mtx) ;;
   for_range (List.length (a_rhs a1)) 0 (initial_solve mtx) a1)%M.

Definition _solve : M (list vec) :=
  (n <- lift (get_num self) ;;
   let total_size := num_dof n in
   let a0 := {| a_rhs := repeat (zeros total_size) (num_y n);
                a_sol := repeat (zeros total_size) (num_y n);
                a_d_sol := repeat (zeros total_size) (num_y n) |} in
   a1 <- initial_linear_problem (num_y n) a0 ;;
   a2 <- for_range (List.length (a_rhs a1)) 0 nonlinear_problem a1 ;;
   ret (a_sol a2))%M.

End Driver.

(** ** Construction of a sparse matrix from triplets *)

(** The entry [(i, j)] of the matrix of the triplets: duplicates add up. *)
Fixpoint coo_entry (data : vec) (rows cols : list nat) (i j : nat) : R :=
  match data, rows, cols with
  | d :: data', r :: rows', c :: cols' =>
      (if Nat.eqb r i && Nat.eqb c j then d else 0)
      + coo_entry data' rows' cols' i j
  | _, _, _ => 0
  end.

(** [scipy.sparse.csc_matrix((data, (rows, cols)), shape=shp)]; scipy
    rejects triplet arrays of different lengths and indices outside the
    shape. *)
Definition csc_matrix (data : vec) (rows cols : list nat) (shp : nat * nat)
  : result spmatrix :=
  if Nat.eqb (List.length rows) (List.length data)
     && Nat.eqb (List.length cols) (List.length data)
     && forallb (fun r => Nat.ltb r (fst shp)) rows
     && forallb (fun c => Nat.ltb c (snd shp)) cols
  then Ok (mk_spmatrix shp (coo_entry data rows cols))
  else Err ValueError.

(** ** The approximation-term builder *)

(** [np.min(xt, axis=0)] and [np.max(xt, axis=0)]: numpy raises on an
    array without rows. *)
Definition np_min_axis0 (xt : list vec) : result vec :=
  match xt with
  | [] => Err ValueError
  | r :: rs => Ok (fold_left (vmap2 Rmin) rs r)
  end.

Definition np_max_axis0 (xt : list vec) : result vec :=
  match xt with
  | [] => Err ValueError
  | r :: rs => Ok (fold_left (vmap2 Rmax) rs r)
  end.

Definition Rleb (a b : R) : bool := if Rle_dec a b then true else false.

(** [np.all(u <= v)]. *)
Fixpoint np_all_le (u v : vec) : bool :=
  match u, v with
  | a :: u', b :: v' => Rleb a b && np_all_le u' v'
  | _, _ => true
  end.

Section Builder.
Context {C : Collaborators}.
Variable self : RMT.

(** The body of [for kx in self.training_pts['exact']]. *)
Definition approx_term (n : sizes) (kx : Z) (full_jac_dict : jac_dict)
  : result jac_dict :=
  let xlimits := xlimits (sm_options self) in
  '(xt, yt) <- dict_get (training_pts self) kx ;;
  xmin <- np_min_axis0 xt ;;
  xmax <- np_max_axis0 xt ;;
  if negb (np_all_le (map fst xlimits) xmin)
  then Err (AssertionError (Training_pts_below_min_for kx))
  else if negb (np_all_le xmax (map snd xlimits))
  then Err (AssertionError (Training_pts_above_max_for kx))
  else
    let '(data, rows, cols) := _compute_jac (Some kx) 0 xt in
    let nt := List.length xt in
    full_jac <- csc_matrix data rows cols (nt, num_coeff n) ;;
    Ok (dict_set full_jac_dict kx (full_jac, sp_T full_jac)).

Definition _compute_approx_terms : result jac_dict :=
  n <- get_num self ;;
  for_in (dict_keys (training_pts self)) (approx_term n) [].

End Builder.

(** ** The evaluator *)

(** [a[:, j]] for a Python integer [j]: a negative index counts from the
    last column. *)
Definition py_column (a : list vec) (j : Z) : result vec :=
  let w := Z.of_nat (List.length a) in
  if (Z.leb 0 j && Z.ltb j w)%bool then column a (Z.to_nat j)
  else if (Z.leb (- w) j && Z.ltb j 0)%bool then column a (Z.to_nat (j + w))
  else Err IndexError.

(** [np.array(np.array(dx, bool), float)]. *)
Definition as_bool_float (dx : list vec) : list vec :=
  map (map (fun d => if Req_dec_T d 0 then 0 else 1)) dx.

(** [kx != 0] for an integer or [None]. *)
Definition py_ne_0 (kx : option Z) : bool :=
  match kx with
  | None => true
  | Some k => negb (Z.eqb k 0)
  end.

(** [kx - 1]: [None - 1] is a [TypeError]. *)
Definition py_minus_1 (kx : option Z) : result Z :=
  match kx with
  | None => Err TypeError
  | Some k => Ok (k - 1)%Z
  end.

Section Evaluator.
Context {C : Collaborators}.
Variable self : RMT.

(** What one iteration of [for ix in range(num['x'])] adds to [data]:
    the value of [data_tmp] at [data += data_tmp], with the [rows] and
    [cols] of that call of [_compute_jac]. *)
Definition first_order_term (x : list vec) (kx : option Z)
    (dx isexternal : list vec) (ix : nat)
  : result (vec * list nat * list nat) :=
  let '(data_tmp, rows, cols) := _compute_jac kx (ix + 1) x in
  dx_ix <- column dx ix ;;
  let data_tmp := vmul data_tmp dx_ix in
  data_tmp <-
    (if py_ne_0 kx
     then j <- py_minus_1 kx ;;
          e <- py_column isexternal j ;;
          Ok (vmul data_tmp (map (fun b => 1 - b) e))
     else Ok data_tmp) ;;
  Ok (data_tmp, rows, cols).

(** The block [if sm_options['extrapolate']]. *)
Definition extrapolation (n : nat) (sz : sizes) (x : list vec) (kx : option Z)
    (jac : vec * list nat * list nat) : result (vec * list nat * list nat) :=
  let ndx := (n * num_support sz)%nat in
  let dx :=
    compute_ext_dist (num_x sz) n ndx (xlimits (sm_options self)) x in
  let isexternal := as_bool_float dx in
  for_in (seq 0 (num_x sz)) (fun ix '(data, rows, cols) =>
    '(data_tmp, rows, cols) <- first_order_term x kx dx isexternal ix ;;
    Ok (vadd data data_tmp, rows, cols)) jac.

Definition evaluate (x : list vec) (kx : option Z) : result (list vec) :=
  let n := List.length x in
  sz <- get_num self ;;
  let jac := _compute_jac kx 0 x in
  '(data, rows, cols) <-
    (if extrapolate (sm_options self)
     then extrapolation n sz x kx jac
     else Ok jac) ;;
  mtx <- csc_matrix data rows cols (n, num_coeff sz) ;;
  s <- get_sol self ;;
  Ok (map (sp_matvec mtx) s).

End Evaluator.

(** Modelled from the spec: [_fit], which [fit] calls and the subclasses
    define.  The approximation-term builder runs first; its Jacobians and
    the regularization Hessian go to the fit driver, whose result becomes
    the coefficient matrix [self.sol]. *)
Definition _fit {C : Collaborators} (self : RMT) : M RMT :=
  (full_jac_dict <- lift (_compute_approx_terms self) ;;
   full_hess <- lift (_initialize_hessian self) ;;
   s <- _solve self full_hess full_jac_dict ;;
   ret {| sm_options := sm_options self; training_pts := training_pts self;
          num := num self; sol := Some s |})%M.

(** ** The formulas of the fit, as the specification writes them *)

(** The sum of a list of arrays of length [n]. *)
Definition vsum (n : nat) (vs : list vec) : vec := fold_right vadd (zeros n) vs.

(** The Euclidean norm. *)
Definition euclidean_norm (g : vec) : R :=
  sqrt (rsum (List.length g) (fun i => vnth g i ^ 2)).

(** [H sol + 0.5 p Σ_k Jac_k^T (Jac_k sol − target_k)^(p−1)], for the list
    [Jt] of the pairs [(Jac_k, target_k)]. *)
Definition grad_F (H : spmatrix) (Jt : list (spmatrix * vec)) (p : Z) (sol : vec)
  : vec :=
  vadd (sp_matvec H sol)
    (vscale (0.5 * IZR p)
       (vsum (List.length sol)
          (map (fun '(J, target) =>
                  sp_matvec (sp_T J) (vpow (vsub (sp_matvec J sol) target) (p - 1)))
             Jt))).

(** [H + 0.5 p (p−1) Σ_k Jac_k^T diag((Jac_k sol − target_k)^(p−2)) Jac_k]
    applied to [v]. *)
Definition hess_F_action (H : spmatrix) (Jt : list (spmatrix * vec)) (p : Z)
    (sol v : vec) : vec :=
  vadd (sp_matvec H v)
    (vscale (0.5 * IZR p * IZR (p - 1))
       (vsum (List.length sol)
          (map (fun '(J, target) =>
                  sp_matvec (sp_T J)
                    (vmul (vpow (vsub (sp_matvec J sol) target) (p - 2))
                       (sp_matvec J v)))
             Jt))).

(** For the order [kx], the Jacobian set holds [J], which has [n] columns,
    with its transpose. *)
Definition holds_jac (n : nat) (full_jac_dict : jac_dict) (kx : Z) (J : spmatrix)
  : Prop :=
  exists JT,
    dict_get full_jac_dict kx = Ok (J, JT) /\ sp_eq JT (sp_T J) /\ ncols J = n.

(** For the order [kx], the Jacobian set holds [J] and the target set
    holds [target]; [J] has a row per target. *)
Definition holds_order (n : nat) (full_jac_dict : jac_dict) (yt_dict : dict vec)
    (kx : Z) (Jt : spmatrix * vec) : Prop :=
  holds_jac n full_jac_dict kx (fst Jt) /\
  dict_get yt_dict kx = Ok (snd Jt) /\
  nrows (fst Jt) = List.length (snd Jt).

(** The Jacobian set and the target set hold the pairs [Jt], in the order
    of the training set's derivative orders. *)
Definition fit_data (self : RMT) (n : nat) (full_jac_dict : jac_dict)
    (yt_dict : dict vec) (Jt : list (spmatrix * vec)) : Prop :=
  Forall2 (holds_order n full_jac_dict yt_dict) (dict_keys (training_pts self)) Jt.

(** ** Assumptions on the collaborators and on the inputs of the driver *)

(** The linear solver returns on every system. *)
Definition solver_ok {C : Collaborators} : Prop :=
  forall mtx rhs x ind_y, exists s, solver_solve mtx rhs x ind_y = Ok s.

(** The line search returns when its two callables do. *)
Definition line_search_ok {C : Collaborators} : Prop :=
  forall x d func grad alpha,
    (forall z, exists r, func z = Ok r) ->
    (forall z, exists g, grad z = Ok g) ->
    exists s, line_search x d func grad alpha = Ok s.

(** The Jacobian set has the derivative orders of the training set, and
    every target array has a column for each of the [ny] outputs. *)
Definition fit_ready (self : RMT) (full_jac_dict : jac_dict) (ny : nat) : Prop :=
  dict_keys full_jac_dict = dict_keys (training_pts self) /\
  forall ind_y, (ind_y < ny)%nat -> exists yt_dict, _get_yt_dict self ind_y = Ok yt_dict.

(** ** Reading a trace *)

(** The events of the initial linear problem. *)
Definition is_initial (e : event) : bool :=
  match e with
  | Initialize Initial _ => true
  | Solve Initial _ _ _ => true
  | _ => false
  end.

(** The gradient norms reported at the end of the Newton iterations, in
    the order of the iterations. *)
Fixpoint reported_norms (tr : list event) : list R :=
  match tr with
  | [] => []
  | Report (S _) _ norm _ :: tr' => norm :: reported_norms tr'
  | _ :: tr' => reported_norms tr'
  end.

(** The arguments of the line searches, in the order of the iterations. *)
Fixpoint line_searches (tr : list event) : list (vec * vec) :=
  match tr with
  | [] => []
  | LineSearch _ _ x d :: tr' => (x, d) :: line_searches tr'
  | _ :: tr' => line_searches tr'
  end.

(** The computation only appends events that satisfy [P]. *)
Definition appends {A : Type} (P : event -> Prop) (m : M A) : Prop :=
  forall tr, exists evs, snd (m tr) = tr ++ evs /\ Forall P evs.

(** The arrays of [_solve] have a column [ind_y]. *)
Definition has_column (ind_y : nat) (a : arrays) : Prop :=
  (ind_y < List.length (a_rhs a))%nat /\
  (ind_y < List.length (a_sol a))%nat /\
  (ind_y < List.length (a_d_sol a))%nat.

(** The events of the initial linear problem for the system [mtx] and the
    right-hand sides [rhs_of 0 .. rhs_of (ny-1)]: one initialisation of
    the solver, then one solve per output, each starting from zero. *)
Definition initial_trace (mtx : linop) (rhs_of : nat -> vec) (n ny : nat)
  : list event :=
  Initialize Initial mtx
  :: map (fun ind_y => Solve Initial (rhs_of ind_y) (zeros n) ind_y) (seq 0 ny).

(** [H + Σ_k Jac_k^T Jac_k], the Gauss–Newton system at [p = 2]. *)
Definition gauss_newton (H : spmatrix) (Js : list spmatrix) : spmatrix :=
  fold_left (fun A J => sp_add A (sp_mul (sp_T J) J)) Js H.

(** An event outside the initial linear problem. *)
Definition not_initial (e : event) : Prop := is_initial e = false.

(** The number of Newton iterations a trace records. *)
Definition newton_iterations (tr : list event) : nat :=
  List.length (reported_norms tr).

(** ** A small instance

    One input in [[0, 1]], one output, one coefficient, and one training
    point [x = 0.5] with the value [1].  The basis function is the
    constant [1]: the assembler returns one entry [1] per point, in the
    row of the point and in column [0].  The linear solver of the instance
    returns the right-hand side and the line search takes the full step. *)

Definition ex_options (p max_iter : Z) (ext : bool) : options :=
  {| xlimits := [(0, 1)]; reg_dv := 1; extrapolate := ext; approx_norm := p;
     use_mtx_free := false; max_nln_iter := max_iter |}.

Definition ex_sizes : sizes :=
  {| num_x := 1; num_y := 1; num_dof := 1; num_coeff := 1; num_support := 1 |}.

Definition ex_training : dict (list vec * list vec) :=
  [(0%Z, ([[0.5]], [[1]]))].

Definition ex_model (p max_iter : Z) (ext : bool) (s : option (list vec)) : RMT :=
  {| sm_options := ex_options p max_iter ext; training_pts := ex_training;
     num := Some ex_sizes; sol := s |}.

Definition ex_compute_jac (kx : option Z) (ix2 : nat) (x : list vec)
  : vec * list nat * list nat :=
  (map (fun _ => 1) x, seq 0 (List.length x), map (fun _ => 0%nat) x).

(** No point of the instance is outside the domain. *)
Definition ex_compute_ext_dist (nx n ndx : nat) (xlimits : list (R * R))
    (x : list vec) : list vec :=
  repeat (zeros ndx) nx.

Definition ex_collaborators : Collaborators :=
  {| _compute_jac := ex_compute_jac;
     compute_ext_dist := ex_compute_ext_dist;
     solver_solve := fun mtx rhs x ind_y => Ok rhs;
     line_search := fun x d func grad alpha => Ok (vadd x (vscale alpha d)) |}.

Definition ex_J : spmatrix :=
  mk_spmatrix (1%nat, 1%nat) (coo_entry [1] [0%nat] [0%nat]).

Definition ex_jac_dict : jac_dict := [(0%Z, (ex_J, sp_T ex_J))].

Definition ex_hess : spmatrix := sp_diags [1 * 1].

Definition ex_yt_dict : dict vec := [(0%Z, [1])].

Definition ex_arrays : arrays :=
  {| a_rhs := [[0]]; a_sol := [[0]]; a_d_sol := [[0]] |}.

(** ** The states of an instance and the inputs of the evaluator *)

(** Modelled from the spec: the state of an instance on which no
    successful fit has completed.  The constructor is not in [rmt.py]; the
    results of a fit are the attributes [self.num] and [self.sol], and a
    fit that returns has assigned both.  Until then one of the two is
    unassigned: both on an instance that no fit has touched, [self.sol]
    alone after a fit that failed once the sizes were there (the builder
    reads [self.num] before its assertions, the solver runs after it), and
    [self.num] alone when the loading branch of [fit] stops between its
    two assignments. *)
Definition UNFITTED (self : RMT) : Prop := num self = None \/ sol self = None.

(** What the specification calls [NotFittedError].  [rmt.py] defines no
    such class and [evaluate] makes no check of the state: the exceptions
    that tell of a missing fit are the ones Python raises when [evaluate]
    reads a result of the fit that was never assigned, [self.num] at its
    start or [self.sol] in its last line. *)
Definition NotFittedError (e : exn) : Prop :=
  e = AttributeError "num" \/ e = AttributeError "sol".

(** The instance with [self.sol] assigned to [s]. *)
Definition with_sol (s : list vec) (self : RMT) : RMT :=
  {| sm_options := sm_options self;
     training_pts := training_pts self;
     num := num self;
     sol := Some s |}.

(** The instance with the option [extrapolate] set to [b]. *)
Definition with_extrapolate (b : bool) (self : RMT) : RMT :=
  {| sm_options :=
       {| xlimits := xlimits (sm_options self);
          reg_dv := reg_dv (sm_options self);
          extrapolate := b;
          approx_norm := approx_norm (sm_options self);
          use_mtx_free := use_mtx_free (sm_options self);
          max_nln_iter := max_nln_iter (sm_options self) |};
     training_pts := training_pts self;
     num := num self;
     sol := sol self |}.

(** At the points [x] and for the output [kx], every call
    [_compute_jac kx ix2 x] with [ix2 <= nx] returns the triplets of one
    sparsity pattern [(rows, cols)], which fits the shape [shp]. *)
Definition jac_pattern {C : Collaborators} (x : list vec) (kx : option Z)
    (nx : nat) (rows cols : list nat) (shp : nat * nat) : Prop :=
  List.length cols = List.length rows /\
  Forall (fun r => (r < fst shp)%nat) rows /\
  Forall (fun c => (c < snd shp)%nat) cols /\
  forall ix2, (ix2 <= nx)%nat ->
    snd (fst (_compute_jac kx ix2 x)) = rows /\
    snd (_compute_jac kx ix2 x) = cols /\
    List.length (fst (fst (_compute_jac kx ix2 x))) = List.length rows.

(** The array [dx] has [nx] columns with an offset per Jacobian entry. *)
Definition dx_shape (dx : list vec) (nx nnz : nat) : Prop :=
  List.length dx = nx /\ Forall (fun c => List.length c = nnz) dx.

(** The Jacobian entry [t] has no offset to the domain in any dimension. *)
Definition zero_offset (dx : list vec) (t : nat) : Prop :=
  forall c, In c dx -> vnth c t = 0.

(** The row [i] of a prediction array: the prediction of every output at
    the query point [i]. *)
Definition prediction_at (y : list vec) (i : nat) : vec :=
  map (fun c => vnth c i) y.

(** ** The domain of the training points *)

(** The point has a coordinate strictly below the lower bound, or
    strictly above the upper bound, of its dimension. *)
Definition below_min (xlimits : list (R * R)) (pt : vec) : Prop :=
  exists j, (j < List.length xlimits)%nat /\ vnth pt j < fst (nth j xlimits (0, 0)).

Definition above_max (xlimits : list (R * R)) (pt : vec) : Prop :=
  exists j, (j < List.length xlimits)%nat /\ snd (nth j xlimits (0, 0)) < vnth pt j.

Definition out_of_domain (xlimits : list (R * R)) (xt : list vec) : Prop :=
  exists pt, In pt xt /\ (below_min xlimits pt \/ above_max xlimits pt).

(** What the specification calls [OutOfDomainError] naming the order
    [kx]: one of the two assertions of [_compute_approx_terms] failing
    with its message for [kx]. *)
Definition OutOfDomainError (kx : Z) (e : exn) : Prop :=
  e = AssertionError (Training_pts_below_min_for kx) \/
  e = AssertionError (Training_pts_above_max_for kx).

(** Every training point has a coordinate per dimension of the domain. *)
Definition training_shape (self : RMT) : Prop :=
  Forall (fun e =>
            Forall (fun pt => List.length pt = List.length (xlimits (sm_options self)))
              (fst (snd e)))
    (training_pts self).

(** ** Two more instances *)

(** The offsets of one query point that is outside a domain of two
    dimensions in both, by [3] and by [5]; and collaborators whose
    nearest-point routine returns them. *)
Definition ex2_dx : list vec := [[3]; [5]].

Definition ex2_collaborators : Collaborators :=
  {| _compute_jac := ex_compute_jac;
     compute_ext_dist := fun nx n ndx xlimits x => ex2_dx;
     solver_solve := fun mtx rhs x ind_y => Ok rhs;
     line_search := fun x d func grad alpha => Ok (vadd x (vscale alpha d)) |}.

(** A training set on [[0, 1]] whose orders [0] and [1] both have the
    point [x = 2], above the upper bound. *)
Definition ex3_model : RMT :=
  {| sm_options := ex_options 4 10 false;
     training_pts := [(0%Z, ([[2]], [[1]])); (1%Z, ([[2]], [[1]]))];
     num := Some ex_sizes;
     sol := None |}.

(** ** The objective of the fit and the shape of its systems *)

(** [0.5 sol^T H sol + 0.5 Σ_k Σ_i (Jac_k sol − target_k)_i^p], for the
    list [Jt] of the pairs [(Jac_k, target_k)]. *)
Definition objective (H : spmatrix) (Jt : list (spmatrix * vec)) (p : Z) (sol : vec)
  : R :=
  0.5 * np_dot sol (sp_matvec H sol)
  + 0.5 * fold_right Rplus 0
            (map (fun '(J, target) =>
                    np_sum (vpow (vsub (sp_matvec J sol) target) p))
               Jt).

(** A square matrix that equals its transpose. *)
Definition symmetric (M : spmatrix) : Prop :=
  nrows M = ncols M /\
  forall i j, (i < nrows M)%nat -> (j < nrows M)%nat -> entry M i j = entry M j i.

(** ** What the builder can assemble *)

(** Every coordinate of the point is within the bounds of its dimension,
    the bounds included. *)
Definition in_domain (xlimits : list (R * R)) (pt : vec) : Prop :=
  forall j, (j < List.length xlimits)%nat ->
    fst (nth j xlimits (0, 0)) <= vnth pt j <= snd (nth j xlimits (0, 0)).

(** The triplets are arrays of one length whose indices are inside the
    shape [shp]. *)
Definition triplets_fit (t : vec * list nat * list nat) (shp : nat * nat) : Prop :=
  List.length (snd (fst t)) = List.length (fst (fst t)) /\
  List.length (snd t) = List.length (fst (fst t)) /\
  Forall (fun r => (r < fst shp)%nat) (snd (fst t)) /\
  Forall (fun c => (c < snd shp)%nat) (snd t).

(** An order of the training set with at least one point, every point
    within the bounds, for which the assembler returns triplets that fit
    the Jacobian of the order. *)
Definition order_ok {C : Collaborators} (self : RMT) (sz : sizes)
    (e : Z * (list vec * list vec)) : Prop :=
  fst (snd e) <> [] /\
  Forall (in_domain (xlimits (sm_options self))) (fst (snd e)) /\
  triplets_fit (_compute_jac (Some (fst e)) 0 (fst (snd e)))
    (List.length (fst (snd e)), num_coeff sz).

(** ** Collaborators that raise *)

(** The collaborators of the small instance with a linear solver that
    raises on every system. *)
Definition ex_failing_collaborators : Collaborators :=
  {| _compute_jac := ex_compute_jac;
     compute_ext_dist := ex_compute_ext_dist;
     solver_solve := fun mtx rhs x ind_y => Err ValueError;
     line_search := fun x d func grad alpha => Ok (vadd x (vscale alpha d)) |}.

(** ** A training set with an empty order *)

(** The training set of the small instance with a derivative order [1]
    that has no point. *)
Definition ex4_model : RMT :=
  {| sm_options := ex_options 4 10 false;
     training_pts := [(0%Z, ([[0.5]], [[1]])); (1%Z, ([], [[]]))];
     num := Some ex_sizes;
     sol := None |}.

(** ** The cache of [fit] *)

(** The entries of [sm_options] that only [fit] reads. *)
Record fit_options : Type := {
  name : string;
  save_solution : bool
}.

(** What [fit] saves and loads: [{'sol': self.sol, 'num': self.num}]. *)
Record cache_data : Type := {
  data_sol : list vec;
  data_num : sizes
}.

(** The functions of [smt.utils.caching] that [fit] calls, on the state
    [files] of the cache: [_caching_load filename checksum] returns a pair
    [(loaded, data)], here [Some data] when [loaded] is true and [None]
    when it is false, in which case [fit] does not read [data];
    [_caching_save filename checksum data] changes the files. *)
Class Caching : Type := {
  checksum : Type;
  files : Type;
  _caching_checksum_sm : RMT -> checksum;
  _caching_load : string -> checksum -> files -> option cache_data;
  _caching_save : string -> checksum -> cache_data -> files -> files
}.

(** [self.sol = data['sol']; self.num = data['num']]. *)
Definition load_data (self : RMT) (data : cache_data) : RMT :=
  {| sm_options := sm_options self; training_pts := training_pts self;
     num := Some (data_num data); sol := Some (data_sol data) |}.

Section Fit.
Context {K : Caching}.

(** [self._fit()], which the subclasses define. *)
Variable subclass_fit : RMT -> M RMT.

(** [fit]: the instance after the fit, or the exception, with the files
    of the cache and the trace. *)
Definition fit (o : fit_options) (self : RMT) (fs : files) (tr : list event)
  : result RMT * files * list event :=
  let checksum := _caching_checksum_sm self in
  let filename := (name o ++ ".sm")%string in
  let loaded :=
    if save_solution o then _caching_load filename checksum fs else None in
  let '(r, tr') :=
    match loaded with
    | None => subclass_fit self tr
    | Some data => (Ok (load_data self data), tr)
    end in
  match r with
  | Err e => (Err e, fs, tr')
  | Ok self' =>
      if save_solution o
      then
        match get_sol self' with
        | Err e => (Err e, fs, tr')
        | Ok s =>
            match get_num self' with
            | Err e => (Err e, fs, tr')
            | Ok n =>
                (Ok self',
                 _caching_save filename checksum
                   {| data_sol := s; data_num := n |} fs,
                 tr')
            end
        end
      else (Ok self', fs, tr')
  end.

End Fit.

(** A load after a save, under the same name and checksum, returns what
    was saved. *)
Definition cache_ok {K : Caching} : Prop :=
  forall filename c data fs,
    _caching_load filename c (_caching_save filename c data fs) = Some data.

(** A cache that keeps the last file saved, and a fit method that
    assigns the sizes and one coefficient of the small instance. *)
Definition ex_caching : Caching :=
  {| checksum := nat;
     files := option (string * cache_data);
     _caching_checksum_sm := fun _ => 0%nat;
     _caching_load := fun filename c fs =>
       match fs with
       | Some (f, data) => if String.eqb f filename then Some data else None
       | None => None
       end;
     _caching_save := fun filename c data fs => Some (filename, data) |}.

Definition ex_subclass_fit (self : RMT) : M RMT :=
  ret (load_data self {| data_sol := [[1]]; data_num := ex_sizes |}).

(** ** An exact solver *)

(** The collaborators of the small instance with a linear solver that
    halves the right-hand side: the system of the initial problem of the
    instance is [2]. *)
Definition ex_exact_collaborators : Collaborators :=
  {| _compute_jac := ex_compute_jac;
     compute_ext_dist := ex_compute_ext_dist;
     solver_solve := fun mtx rhs x ind_y => Ok (vscale 0.5 rhs);
     line_search := fun x d func grad alpha => Ok (vadd x (vscale alpha d)) |}.

(** * RBF: radial basis function interpolant with a polynomial trend

    A shallow embedding of [smt/rbf.py] (class [RBF]): its fit and its
    evaluator.  A dense two-dimensional array whose shape the code reads
    is, like a sparse matrix, its shape with its entry function; [sol] is
    the list of its columns, as for [RMT].  The routine
    [RBFlib.compute_jac] and the dense linear solver are parameters. *)

Module RBF.

Definition ndarray : Type := spmatrix.

(** [np.zeros((m, n))]. *)
Definition np_zeros (m n : nat) : ndarray := mk_spmatrix (m, n) (fun _ _ => 0).

(** [A[:k, :] = B]. *)
Definition set_rows_upto (A : ndarray) (k : nat) (B : ndarray) : ndarray :=
  mk_spmatrix (shape A) (fun i j => if Nat.ltb i k then entry B i j else entry A i j).

(** [A[:, :k] = B]. *)
Definition set_cols_upto (A : ndarray) (k : nat) (B : ndarray) : ndarray :=
  mk_spmatrix (shape A) (fun i j => if Nat.ltb j k then entry B i j else entry A i j).

(** [A[np.arange(k), np.arange(k)] += c]. *)
Definition add_diag_upto (A : ndarray) (k : nat) (c : R) : ndarray :=
  mk_spmatrix (shape A)
    (fun i j => if Nat.eqb i j && Nat.ltb i k then entry A i j + c else entry A i j).

(** [A[:, j]]. *)
Definition col (A : ndarray) (j : nat) : vec :=
  tabulate (nrows A) (fun i => entry A i j).

(** The option [poly_degree], declared with the values [-1], [0] and
    [1]. *)
Inductive poly_degree_value : Type :=
| No_polynomial
| Constant_trend
| Linear_trend.

(** The option [d0]: a number or an array. *)
Inductive d0_value : Type :=
| Scalar (r : R)
| Array (v : vec).

(** The entries of [self.options] that [_fit] and [evaluate] read. *)
Record options : Type := {
  d0 : d0_value;
  poly_degree : poly_degree_value;
  reg : R
}.

(** The sizing dictionary [self.num]. *)
Record sizes : Type := {
  num_x : nat;
  num_y : nat;
  num_radial : nat;
  num_poly : nat;
  num_dof : nat
}.

(** An instance of [RBF]; [training_pts] is [self.training_pts['exact']],
    and [None] is an attribute that has not been assigned. *)
Record RBF : Type := {
  rbf_options : options;
  training_pts : dict (ndarray * ndarray);
  num : option sizes;
  sol : option (list vec)
}.

Definition get_num (self : RBF) : result sizes :=
  match num self with
  | Some n => Ok n
  | None => Err (AttributeError "num")
  end.

Definition get_sol (self : RBF) : result (list vec) :=
  match sol self with
  | Some s => Ok s
  | None => Err (AttributeError "sol")
  end.

(** What [rbf.py] calls and does not define.
    - [compute_jac kx poly_degree nx n nr dof d0 x xt] is
      [RBFlib.compute_jac]: an array with a row per point of [x] and a
      column per degree of freedom.
    - [solver_solve mtx rhs x ind_y] is [solver._solve(rhs, x, ind_y)] on
      the dense solver initialised with [mtx]; [x] is the array it
      overwrites, the result is its new content. *)
Class Externals : Type := {
  compute_jac :
    option Z -> poly_degree_value -> nat -> nat -> nat -> nat -> d0_value ->
    ndarray -> ndarray -> ndarray;
  solver_solve : ndarray -> vec -> vec -> nat -> result vec
}.

(** [options['d0']] after the first lines of [_fit]: a number becomes
    the list [[d0] * nx], and the result is an array. *)
Definition normalize_d0 (v : d0_value) (nx : nat) : d0_value :=
  match v with
  | Scalar r => Array (repeat r nx)
  | Array a => Array a
  end.

(** [num['poly']]: the number of polynomial terms. *)
Definition poly_terms (degree : poly_degree_value) (nx : nat) : nat :=
  match degree with
  | No_polynomial => 0%nat
  | Constant_trend => 1%nat
  | Linear_trend => (1 + nx)%nat
  end.

(** The linear system of [_fit]. *)
Definition system (jac : ndarray) (nr dof : nat) (c : R) : ndarray :=
  let mtx := np_zeros dof dof in
  let mtx := set_rows_upto mtx nr jac in
  let mtx := set_cols_upto mtx nr (sp_T jac) in
  add_diag_upto mtx nr c.

(** The right-hand sides of [_fit]. *)
Definition right_hand_sides (yt : ndarray) (nr dof ny : nat) : ndarray :=
  set_rows_upto (np_zeros dof ny) nr yt.

Section Fit.
Context {E : Externals}.

(** The body of [for ind_y in range(rhs.shape[1])]. *)
Definition solve_column (mtx rhs : ndarray) (ind_y : nat) (sol : list vec)
  : result (list vec) :=
  x <- column sol ind_y ;;
  s <- solver_solve mtx (col rhs ind_y) x ind_y ;;
  Ok (set_column sol ind_y s).

Definition _fit (self : RBF) : result RBF :=
  let options := rbf_options self in
  '(xt, yt) <- dict_get (training_pts self) 0 ;;
  let nx := ncols xt in
  let d0' := normalize_d0 (d0 options) nx in
  let x := ncols xt in
  let y := ncols yt in
  let radial := nrows xt in
  let poly := poly_terms (poly_degree options) x in
  let dof := (radial + poly)%nat in
  let n := {| num_x := x; num_y := y; num_radial := radial; num_poly := poly;
              num_dof := dof |} in
  let jac :=
    compute_jac (Some 0%Z) (poly_degree options) x radial radial dof d0' xt xt in
  let mtx := system jac radial dof (reg options) in
  let rhs := right_hand_sides yt radial dof y in
  let sol0 := repeat (zeros dof) y in
  s <- for_in (seq 0 (ncols rhs)) (solve_column mtx rhs) sol0 ;;
  Ok {| rbf_options :=
          {| d0 := d0'; poly_degree := poly_degree options; reg := reg options |};
        training_pts := training_pts self;
        num := Some n;
        sol := Some s |}.

Definition evaluate (self : RBF) (x : ndarray) (kx : option Z)
  : result (list vec) :=
  let n := nrows x in
  sz <- get_num self ;;
  let options := rbf_options self in
  '(xt, yt) <- dict_get (training_pts self) 0 ;;
  let jac :=
    compute_jac kx (poly_degree options) (num_x sz) n (num_radial sz)
      (num_dof sz) (d0 options) x xt in
  s <- get_sol self ;;
  Ok (map (sp_matvec jac) s).

End Fit.

End RBF.

(** The linear solver of [RBF] returns a solution of its system, of the
    length of the array it overwrites, whenever it returns. *)
Definition rbf_solver_exact {E : RBF.Externals} : Prop :=
  forall mtx rhs x ind_y s,
    RBF.solver_solve mtx rhs x ind_y = Ok s ->
    sp_matvec mtx s = rhs /\ List.length s = List.length x.

(** The radial block of the array: its rows and columns below [nr], equals
    its transpose. *)
Definition radial_symmetric (jac : spmatrix) (nr : nat) : Prop :=
  forall i k, (i < nr)%nat -> (k < nr)%nat -> entry jac i k = entry jac k i.

(** ** An instance of [RBF]

    One training point [x = 0.5] with the value [1], a constant trend and
    no regularization.  The basis function and the trend of the instance
    are the constant [1], so that the system of the fit is
    [[1, 1], [1, 0]]; its solver returns the right-hand side reversed,
    when that solves the system, and raises otherwise. *)

Definition ex_rbf_xt : RBF.ndarray := mk_spmatrix (1%nat, 1%nat) (fun _ _ => 0.5).

Definition ex_rbf_yt : RBF.ndarray := mk_spmatrix (1%nat, 1%nat) (fun _ _ => 1).

Definition ex_rbf : RBF.RBF :=
  {| RBF.rbf_options :=
       {| RBF.d0 := RBF.Scalar 1; RBF.poly_degree := RBF.Constant_trend;
          RBF.reg := 0 |};
     RBF.training_pts := [(0%Z, (ex_rbf_xt, ex_rbf_yt))];
     RBF.num := None;
     RBF.sol := None |}.

Definition ex_rbf_externals : RBF.Externals :=
  {| RBF.compute_jac := fun kx degree nx n nr dof d0 x xt =>
       mk_spmatrix (n, dof) (fun _ _ => 1);
     RBF.solver_solve := fun mtx rhs x ind_y =>
       if list_eq_dec Req_dec_T (sp_matvec mtx (rev rhs)) rhs
       then if Nat.eq_dec (List.length (rev rhs)) (List.length x)
            then Ok (rev rhs) else Err ValueError
       else Err ValueError |}.

(** The instance after its fit. *)
Definition ex_rbf_fitted : RBF.RBF :=
  {| RBF.rbf_options :=
       {| RBF.d0 := RBF.Array [1]; RBF.poly_degree := RBF.Constant_trend;
          RBF.reg := 0 |};
     RBF.training_pts := [(0%Z, (ex_rbf_xt, ex_rbf_yt))];
     RBF.num :=
       Some {| RBF.num_x := 1; RBF.num_y := 1; RBF.num_radial := 1;
               RBF.num_poly := 1; RBF.num_dof := 2 |};
     RBF.sol := Some [[0; 1]] |}.

(** * WeldedBeam: the welded beam problem ([smt/problems/welded_beam.py])

    The shear stress of a welded beam as a function of [t], [h] and [l],
    in exact real arithmetic.  [scipy.misc.derivative] is the central
    difference of its defaults ([n = 1], [order = 3]): the sum of the
    function at [x0 - dx], [x0] and [x0 + dx] with the weights [-1/2], [0]
    and [1/2], divided by [dx]. *)

Module WeldedBeam.

(** The bounds [_initialize] assigns, one pair per input: [t], [h], [l]. *)
Definition xlimits : list (R * R) := [(5, 10); (0.125, 1); (5, 10)].

(** The inner function [func]. *)
Definition func (x0 x2 x3 : R) : R :=
  let tau1 := 6000 / (sqrt 2 * x2 * x3) in
  let tau2 :=
    6000 * (14 + 0.5 * x3) * sqrt (0.25 * (x3 ^ 2 + (x2 + x0) ^ 2))
    / (2 * (0.707 * x2 * x3 * (x3 / 12 + 0.25 * (x2 + x0) ^ 2))) in
  sqrt (tau1 ^ 2 + tau2 ^ 2
        + x3 * tau1 * tau2 / sqrt (0.25 * (x3 ^ 2 + (x2 + x0) ^ 2))).

(** [scipy.misc.derivative(f, x0, dx=dx)]. *)
Definition derivative (f : R -> R) (x0 dx : R) : R :=
  (0 + (-1 / 2) * f (x0 + (-1) * dx) + 0 / 2 * f (x0 + 0 * dx)
   + 1 / 2 * f (x0 + 1 * dx)) / dx.

(** The position of the Python index [k] in a list of length [n]: a
    negative index counts from the end. *)
Definition py_index (n : nat) (k : Z) : result nat :=
  let w := Z.of_nat n in
  if (Z.leb 0 k && Z.ltb k w)%bool then Ok (Z.to_nat k)
  else if (Z.leb (- w) k && Z.ltb k 0)%bool then Ok (Z.to_nat (k + w))
  else Err IndexError.

(** [args[var] = x] on a position inside the list. *)
Fixpoint list_set (args : vec) (var : nat) (x : R) : vec :=
  match args, var with
  | [], _ => []
  | _ :: args', O => x :: args'
  | a :: args', S var' => a :: list_set args' var' x
  end.

(** The call of [func] on the three entries of the list [args]. *)
Definition apply_func (args : vec) : R :=
  func (vnth args 0) (vnth args 1) (vnth args 2).

(** The inner function [partial_derivative] applied to [func]. *)
Definition partial_derivative (var : Z) (point : vec) : result R :=
  i <- py_index (List.length point) var ;;
  let wraps := fun x => apply_func (list_set point i x) in
  Ok (derivative wraps (vnth point i) 1e-6).

(** [x[i, j]] for a row of [x]. *)
Definition item (row : vec) (j : nat) : result R :=
  match nth_error row j with
  | Some v => Ok v
  | None => Err IndexError
  end.

(** The body of [for i in range(ne)]: the entry [y[i, 0]]. *)
Definition evaluate_row (kx : option Z) (row : vec) : result R :=
  x0 <- item row 0 ;;
  x1 <- item row 1 ;;
  x2 <- item row 2 ;;
  match kx with
  | None => Ok (func x0 x1 x2)
  | Some k => partial_derivative k [x0; x1; x2]
  end.

(** [_evaluate]: the column of [y], an entry per row of [x]. *)
Fixpoint _evaluate (x : list vec) (kx : option Z) : result vec :=
  match x with
  | [] => Ok []
  | row :: x' =>
      v <- evaluate_row kx row ;;
      y <- _evaluate x' kx ;;
      Ok (v :: y)
  end.

End WeldedBeam.

(** * Properties *)

(** ** Results and loops *)

Lemma for_in_app {K A : Type} (ks1 ks2 : list K) (body : K -> A -> result A)
    (acc : A) :
  for_in (ks1 ++ ks2) body acc = bind (for_in ks1 body acc) (for_in ks2 body).
Proof.
  revert acc. induction ks1 as [|k ks1 IH]; intros acc; simpl.
  - reflexivity.
  - destruct (body k acc) as [a|e]; simpl; [apply IH | reflexivity].
Qed.

Lemma Forall2_right {A B : Type} (P : A -> B -> Prop) (Q : B -> Prop)
    (l : list A) (l' : list B) :
  (forall a b, P a b -> Q b) -> Forall2 P l l' -> Forall Q l'.
Proof. intros H. induction 1; constructor; eauto. Qed.

(** ** Arrays *)

Lemma length_vmap2 (f : R -> R -> R) (u v : vec) :
  List.length (vmap2 f u v) = Nat.min (List.length u) (List.length v).
Proof.
  revert v. induction u as [|x u IH]; intros [|y v]; simpl; auto.
Qed.

Lemma length_vmap2_same (f : R -> R -> R) (u v : vec) (n : nat) :
  List.length u = n -> List.length v = n -> List.length (vmap2 f u v) = n.
Proof. intros Hu Hv. rewrite length_vmap2, Hu, Hv. apply Nat.min_id. Qed.

Lemma length_tabulate (n : nat) (f : nat -> R) : List.length (tabulate n f) = n.
Proof. unfold tabulate. now rewrite length_map, length_seq. Qed.

Lemma length_zeros (n : nat) : List.length (zeros n) = n.
Proof. apply repeat_length. Qed.

Lemma length_sp_matvec (M : spmatrix) (v : vec) :
  List.length (sp_matvec M v) = nrows M.
Proof. apply length_tabulate. Qed.

Lemma tabulate_ext (n : nat) (f g : nat -> R) :
  (forall i, (i < n)%nat -> f i = g i) -> tabulate n f = tabulate n g.
Proof.
  intros H. unfold tabulate. apply map_ext_in.
  intros i Hi. apply in_seq in Hi. apply H. lia.
Qed.

Lemma vnth_tabulate (n : nat) (f : nat -> R) (i : nat) :
  (i < n)%nat -> vnth (tabulate n f) i = f i.
Proof.
  intros Hi. unfold vnth, tabulate.
  rewrite (nth_indep _ 0 (f 0%nat)) by now rewrite length_map, length_seq.
  rewrite map_nth, seq_nth by assumption. reflexivity.
Qed.

Lemma vnth_vmap2 (f : R -> R -> R) (u v : vec) (i : nat) :
  (i < List.length u)%nat -> (i < List.length v)%nat ->
  vnth (vmap2 f u v) i = f (vnth u i) (vnth v i).
Proof.
  unfold vnth. revert v i.
  induction u as [|x u IH]; intros [|y v] [|i]; simpl; intros Hu Hv;
    try lia; auto.
  apply IH; lia.
Qed.

Lemma vnth_map (f : R -> R) (v : vec) (i : nat) :
  (i < List.length v)%nat -> vnth (map f v) i = f (vnth v i).
Proof.
  intros Hi. unfold vnth.
  rewrite (nth_indep _ 0 (f 0)) by now rewrite length_map.
  apply map_nth.
Qed.

Lemma vec_ext (u v : vec) :
  List.length u = List.length v ->
  (forall i, (i < List.length u)%nat -> vnth u i = vnth v i) -> u = v.
Proof.
  intros Hl H. apply (nth_ext u v 0 0 Hl). exact H.
Qed.

Lemma vadd_assoc (a b c : vec) : vadd (vadd a b) c = vadd a (vadd b c).
Proof.
  unfold vadd. revert b c.
  induction a as [|x a IH]; intros [|y b] [|z c]; simpl; auto.
  f_equal; [ring | apply IH].
Qed.

Lemma vscale_vadd (c : R) (a b : vec) :
  vscale c (vadd a b) = vadd (vscale c a) (vscale c b).
Proof.
  unfold vadd, vscale. revert b.
  induction a as [|x a IH]; intros [|y b]; simpl; auto.
  f_equal; [ring | apply IH].
Qed.

Lemma vscale_vscale (c d : R) (a : vec) :
  vscale c (vscale d a) = vscale (c * d) a.
Proof.
  unfold vscale. rewrite map_map. apply map_ext. intros x. ring.
Qed.

Lemma vscale_1 (a : vec) : vscale 1 a = a.
Proof.
  unfold vscale. induction a as [|x a IH]; simpl; [reflexivity|].
  rewrite IH. f_equal. ring.
Qed.

Lemma vscale_zeros (c : R) (n : nat) : vscale c (zeros n) = zeros n.
Proof.
  unfold vscale, zeros. induction n as [|n IH]; simpl; [reflexivity|].
  rewrite IH. f_equal. ring.
Qed.

Lemma vadd_zeros_r (a : vec) : vadd a (zeros (List.length a)) = a.
Proof.
  unfold vadd, zeros. induction a as [|x a IH]; simpl; [reflexivity|].
  rewrite IH. f_equal. ring.
Qed.

(** Adding the scaled terms one after the other, as the loops of the
    code do, gives the scaled sum of the terms. *)
Lemma fold_vadd_vscale (c : R) (n : nat) (ts : list vec) (g0 : vec) :
  List.length g0 = n ->
  Forall (fun t => List.length t = n) ts ->
  fold_left (fun g t => vadd g (vscale c t)) ts g0
  = vadd g0 (vscale c (vsum n ts)).
Proof.
  intros Hg Hts. revert g0 Hg.
  induction Hts as [|t ts Ht _ IH]; intros g0 Hg; simpl.
  - rewrite vscale_zeros, <- Hg. symmetry. apply vadd_zeros_r.
  - rewrite vscale_vadd, <- vadd_assoc. apply IH.
    unfold vadd, vscale. apply length_vmap2_same; [assumption|].
    now rewrite length_map.
Qed.

(** ** Finite sums *)

Lemma rsum_ext (n : nat) (f g : nat -> R) :
  (forall i, (i < n)%nat -> f i = g i) -> rsum n f = rsum n g.
Proof.
  induction n as [|n IH]; intros H; simpl; [reflexivity|].
  rewrite IH, H by (intros; try apply H; lia). reflexivity.
Qed.

Lemma rsum_plus (n : nat) (f g : nat -> R) :
  rsum n (fun i => f i + g i) = rsum n f + rsum n g.
Proof. induction n as [|n IH]; simpl; [ring | rewrite IH; ring]. Qed.

Lemma rsum_scale (n : nat) (c : R) (f : nat -> R) :
  rsum n (fun i => c * f i) = c * rsum n f.
Proof. induction n as [|n IH]; simpl; [ring | rewrite IH; ring]. Qed.

Lemma rsum_zero (n : nat) (f : nat -> R) :
  (forall i, (i < n)%nat -> f i = 0) -> rsum n f = 0.
Proof.
  induction n as [|n IH]; intros H; simpl; [reflexivity|].
  rewrite IH, H by (intros; try apply H; lia). ring.
Qed.

Lemma rsum_exchange (m n : nat) (f : nat -> nat -> R) :
  rsum m (fun i => rsum n (fun j => f i j))
  = rsum n (fun j => rsum m (fun i => f i j)).
Proof.
  induction m as [|m IH]; simpl.
  - symmetry. apply rsum_zero. reflexivity.
  - rewrite IH, <- rsum_plus. reflexivity.
Qed.

(** The sum picks the one index the Kronecker delta selects. *)
Lemma rsum_delta (n k : nat) (f : nat -> R) :
  (k < n)%nat ->
  rsum n (fun j => if Nat.eqb k j then f j else 0) = f k.
Proof.
  induction n as [|n IH]; intros Hk; [lia|]. simpl.
  destruct (Nat.eqb_spec k n) as [->|Hne].
  - rewrite rsum_zero; [ring|].
    intros i Hi. destruct (Nat.eqb_spec n i); [lia | reflexivity].
  - rewrite IH by lia. ring.
Qed.

(** ** Sparse matrices *)

Lemma vnth_sp_matvec (M : spmatrix) (v : vec) (i : nat) :
  (i < nrows M)%nat ->
  vnth (sp_matvec M v) i = rsum (ncols M) (fun j => entry M i j * vnth v j).
Proof. intros Hi. unfold sp_matvec. now rewrite vnth_tabulate. Qed.

Lemma sp_matvec_ext (A B : spmatrix) (v : vec) :
  sp_eq A B -> sp_matvec A v = sp_matvec B v.
Proof.
  intros [Hs He]. unfold sp_matvec, nrows, ncols in *. rewrite <- Hs.
  apply tabulate_ext. intros i Hi. apply rsum_ext. intros j Hj.
  now rewrite He.
Qed.

Lemma sp_matvec_scale (c : R) (A : spmatrix) (v : vec) :
  sp_matvec (sp_scale c A) v = vscale c (sp_matvec A v).
Proof.
  unfold sp_matvec, sp_scale, vscale, tabulate, nrows, ncols. simpl.
  rewrite map_map. apply map_ext. intros i.
  rewrite <- rsum_scale. apply rsum_ext. intros j _. ring.
Qed.

Lemma sp_matvec_add (A B : spmatrix) (v : vec) :
  shape B = shape A ->
  sp_matvec (sp_add A B) v = vadd (sp_matvec A v) (sp_matvec B v).
Proof.
  intros Hs. apply vec_ext.
  - unfold vadd. rewrite length_vmap2, !length_sp_matvec.
    unfold nrows. simpl. rewrite Hs. now rewrite Nat.min_id.
  - rewrite length_sp_matvec. intros i Hi.
    unfold vadd. rewrite vnth_vmap2, !vnth_sp_matvec;
      rewrite ?length_sp_matvec; unfold nrows, ncols in *; simpl in *;
      rewrite ?Hs; try assumption.
    rewrite <- rsum_plus. apply rsum_ext. intros j _. ring.
Qed.

Lemma sp_matvec_mul (A B : spmatrix) (v : vec) :
  nrows B = ncols A ->
  sp_matvec (sp_mul A B) v = sp_matvec A (sp_matvec B v).
Proof.
  intros Hs. unfold sp_matvec at 1 2. unfold nrows at 1, ncols at 1. simpl.
  apply tabulate_ext. intros i Hi.
  transitivity
    (rsum (ncols A) (fun k => rsum (ncols B)
       (fun j => entry A i k * (entry B k j * vnth v j)))).
  - rewrite rsum_exchange. apply rsum_ext. intros j _.
    rewrite Rmult_comm, <- rsum_scale. apply rsum_ext. intros k _. ring.
  - apply rsum_ext. intros k Hk. rewrite rsum_scale.
    rewrite vnth_sp_matvec by lia. reflexivity.
Qed.

Lemma sp_matvec_diags (d u : vec) :
  List.length u = List.length d -> sp_matvec (sp_diags d) u = vmul d u.
Proof.
  intros Hl. apply vec_ext.
  - unfold vmul. rewrite length_sp_matvec, length_vmap2, Hl, Nat.min_id.
    reflexivity.
  - rewrite length_sp_matvec. unfold nrows. simpl. intros i Hi.
    rewrite vnth_sp_matvec by exact Hi. unfold ncols. simpl.
    transitivity
      (rsum (List.length d)
         (fun j => if Nat.eqb i j then vnth d i * vnth u j else 0)).
    + apply rsum_ext. intros j _. simpl. destruct (Nat.eqb i j); ring.
    + rewrite (rsum_delta (fun j => vnth d i * vnth u j)) by exact Hi.
      unfold vmul. rewrite vnth_vmap2 by lia. reflexivity.
Qed.

Lemma rsum_shift (n : nat) (f : nat -> R) :
  rsum (S n) f = f 0%nat + rsum n (fun i => f (S i)).
Proof.
  induction n as [|n IH].
  - simpl. ring.
  - change (rsum (S (S n)) f) with (rsum (S n) f + f (S n)).
    rewrite IH. simpl. ring.
Qed.

Lemma np_sum_rsum (v : vec) : np_sum v = rsum (List.length v) (vnth v).
Proof.
  induction v as [|x v IH].
  - reflexivity.
  - change (List.length (x :: v)) with (S (List.length v)).
    rewrite rsum_shift. simpl. rewrite IH. reflexivity.
Qed.

(** [np.linalg.norm] is the Euclidean norm. *)
Lemma np_linalg_norm_euclidean (g : vec) : np_linalg_norm g = euclidean_norm g.
Proof.
  unfold np_linalg_norm, euclidean_norm. f_equal.
  rewrite np_sum_rsum, length_map. apply rsum_ext.
  intros i Hi. rewrite vnth_map by exact Hi. ring.
Qed.

(** ** The gradient of the fit (claim C4) *)

Section Gradient.
Variable self : RMT.
Variables (sol : vec) (p : Z) (full_hess : spmatrix).
Variables (full_jac_dict : jac_dict) (yt_dict : dict vec).

Let n := List.length sol.

(** What [_opt_grad] adds for the pair [(J, target)], up to the factor
    [0.5 p]. *)
Let term (Jt : spmatrix * vec) : vec :=
  let '(J, target) := Jt in
  sp_matvec (sp_T J) (vpow (vsub (sp_matvec J sol) target) (p - 1)).

Lemma length_grad_term (kx : Z) (Jt : spmatrix * vec) :
  holds_order n full_jac_dict yt_dict kx Jt -> List.length (term Jt) = n.
Proof.
  destruct Jt as [J target]. intros ((JT & _ & _ & Hc) & _ & _). simpl in *.
  rewrite length_sp_matvec. unfold nrows, sp_T. simpl. exact Hc.
Qed.

Lemma opt_grad_loop (ks : list Z) (Jt : list (spmatrix * vec)) (g0 : vec) :
  Forall2 (holds_order n full_jac_dict yt_dict) ks Jt ->
  for_in ks (fun kx grad =>
    '(full_jac, full_jac_T) <- dict_get full_jac_dict kx ;;
    yt <- dict_get yt_dict kx ;;
    Ok (vadd grad
          (sp_matvec (sp_scale (IZR p) (sp_scale 0.5 full_jac_T))
             (vpow (vsub (sp_matvec full_jac sol) yt) (p - 1))))) g0
  = Ok (fold_left (fun g t => vadd g (vscale (0.5 * IZR p) t)) (map term Jt) g0).
Proof.
  intros H. revert g0.
  induction H as [|kx [J target] ks Jt Hk _ IH]; intros g0; simpl.
  - reflexivity.
  - destruct Hk as ((JT & HJ & HT & Hc) & Hy & Hr). simpl in *.
    rewrite HJ. simpl. rewrite Hy. simpl.
    rewrite !sp_matvec_scale, vscale_vscale, (sp_matvec_ext _ HT).
    replace (IZR p * 0.5) with (0.5 * IZR p) by ring.
    apply IH.
Qed.

Lemma opt_grad_grad_F (Jt : list (spmatrix * vec)) :
  nrows full_hess = n ->
  fit_data self n full_jac_dict yt_dict Jt ->
  _opt_grad self sol p full_hess full_jac_dict yt_dict
  = Ok (grad_F full_hess Jt p sol).
Proof.
  intros HH Hd. unfold _opt_grad, fit_data in *.
  rewrite (opt_grad_loop _ Hd). f_equal.
  unfold grad_F. fold n.
  rewrite (fold_vadd_vscale _ (n := n)).
  - reflexivity.
  - now rewrite length_sp_matvec.
  - apply Forall_map. revert Hd. apply Forall2_right.
    intros kx jt. apply length_grad_term.
Qed.

End Gradient.

(** C4: the gradient computed by the fit driver is
    [H sol + 0.5 p Σ_k Jac_k^T (Jac_k sol − target_k)^(p−1)], powers taken
    elementwise, and the norm it reports is the Euclidean norm of that
    gradient: for every coefficient vector, exponent, regularization
    Hessian, Jacobian set and target set of matching shapes. *)
Theorem opt_grad_is_grad_F (self : RMT) (sol : vec) (p : Z) (H : spmatrix)
    (full_jac_dict : jac_dict) (yt_dict : dict vec)
    (Jt : list (spmatrix * vec)) :
  shape H = (List.length sol, List.length sol) ->
  fit_data self (List.length sol) full_jac_dict yt_dict Jt ->
  _opt_grad self sol p H full_jac_dict yt_dict = Ok (grad_F H Jt p sol) /\
  _opt_norm self sol p H full_jac_dict yt_dict
  = Ok (euclidean_norm (grad_F H Jt p sol)).
Proof.
  intros HH Hd.
  assert (Hg : _opt_grad self sol p H full_jac_dict yt_dict
               = Ok (grad_F H Jt p sol)).
  { apply opt_grad_grad_F; [|exact Hd]. unfold nrows. now rewrite HH. }
  split; [exact Hg|].
  unfold _opt_norm. rewrite Hg. simpl. f_equal.
  apply np_linalg_norm_euclidean.
Qed.

(** ** Dictionaries *)

Lemma dict_get_set_same {A : Type} (d : dict A) (k : Z) (a : A) :
  dict_get (dict_set d k a) k = Ok a.
Proof.
  induction d as [|[k' a'] d IH]; simpl.
  - now rewrite Z.eqb_refl.
  - destruct (Z.eqb_spec k' k) as [->|Hne]; simpl.
    + now rewrite Z.eqb_refl.
    + destruct (Z.eqb_spec k' k); [contradiction | exact IH].
Qed.

Lemma dict_get_set_other {A : Type} (d : dict A) (k k' : Z) (a : A) :
  k <> k' -> dict_get (dict_set d k a) k' = dict_get d k'.
Proof.
  intros Hne. induction d as [|[k0 a0] d IH]; simpl.
  - destruct (Z.eqb_spec k k'); [contradiction | reflexivity].
  - destruct (Z.eqb_spec k0 k) as [->|Hk]; simpl.
    + destruct (Z.eqb_spec k k'); [contradiction | reflexivity].
    + destruct (Z.eqb_spec k0 k'); [reflexivity | exact IH].
Qed.

(** A dictionary filled by [d[kx] = f(kx)] over the keys [ks] holds
    [f(kx)] at every one of them. *)
Lemma for_in_dict_set {A : Type} (f : Z -> result A) (ks : list Z) (d0 d : dict A) :
  for_in ks (fun kx d => a <- f kx ;; Ok (dict_set d kx a)) d0 = Ok d ->
  forall k, (In k ks -> exists a, f k = Ok a /\ dict_get d k = Ok a) /\
            (~ In k ks -> dict_get d k = dict_get d0 k).
Proof.
  revert d0. induction ks as [|k0 ks IH]; intros d0 H k; simpl in *.
  - inversion H; subst. split; [contradiction | reflexivity].
  - destruct (f k0) as [a0|e] eqn:Hf; simpl in H; [|discriminate].
    destruct (IH _ H k) as [IHin IHout]. split.
    + intros [->|Hin].
      * destruct (in_dec Z.eq_dec k ks) as [Hk|Hk].
        -- apply IHin, Hk.
        -- exists a0. split; [exact Hf|].
           rewrite (IHout Hk). apply dict_get_set_same.
      * apply IHin, Hin.
    + intros Hn. rewrite IHout by tauto.
      apply dict_get_set_other. tauto.
Qed.

Lemma for_in_dict_set_ok {A : Type} (f : Z -> result A) (ks : list Z) (d0 : dict A) :
  (forall k, In k ks -> exists a, f k = Ok a) ->
  exists d, for_in ks (fun kx d => a <- f kx ;; Ok (dict_set d kx a)) d0 = Ok d.
Proof.
  revert d0. induction ks as [|k0 ks IH]; intros d0 H; simpl.
  - eauto.
  - destruct (H k0) as [a Ha]; [now left|]. rewrite Ha. simpl.
    apply IH. intros k Hk. apply H. now right.
Qed.

Lemma Forall2_strengthen {A B : Type} (P Q : A -> B -> Prop)
    (l : list A) (l' : list B) :
  (forall a b, In a l -> P a b -> Q a b) -> Forall2 P l l' -> Forall2 Q l l'.
Proof.
  intros H F. induction F as [|a b l l' Hab _ IH]; constructor.
  - apply H; [now left | exact Hab].
  - apply IH. intros a' b' Hin. apply H. now right.
Qed.

Lemma vnth_vscale (c : R) (x : vec) (j : nat) :
  vnth (vscale c x) j = c * vnth x j.
Proof.
  unfold vnth, vscale. revert j.
  induction x as [|a x IH]; intros [|j]; simpl; try ring. apply IH.
Qed.

Lemma sp_matvec_vscale (M : spmatrix) (c : R) (x : vec) :
  sp_matvec M (vscale c x) = vscale c (sp_matvec M x).
Proof.
  unfold sp_matvec, vscale at 2, tabulate. rewrite map_map.
  apply map_ext. intros i. rewrite <- rsum_scale.
  apply rsum_ext. intros j _. rewrite vnth_vscale. ring.
Qed.

Lemma vmul_vscale_l (c : R) (u w : vec) :
  vmul (vscale c u) w = vscale c (vmul u w).
Proof.
  unfold vmul, vscale. revert w.
  induction u as [|a u IH]; intros [|b w]; simpl; auto.
  f_equal; [ring | apply IH].
Qed.

(** ** The Hessian of the fit, as a matrix and as an operator (claim C7) *)

Section Hessian.
Variable self : RMT.
Variables (sol : vec) (p : Z) (full_hess : spmatrix).
Variables (full_jac_dict : jac_dict) (yt_dict : dict vec).
Variable v : vec.

Let n := List.length sol.
Let c := 0.5 * IZR p * IZR (p - 1).

Let dvec (J : spmatrix) (target : vec) : vec :=
  vscale (IZR (p * (p - 1))) (vpow (vsub (sp_matvec J sol) target) (p - 2)).

Let hterm (Jt : spmatrix * vec) : vec :=
  let '(J, target) := Jt in
  sp_matvec (sp_T J)
    (vmul (vpow (vsub (sp_matvec J sol) target) (p - 2)) (sp_matvec J v)).

Lemma length_dvec (J : spmatrix) (target : vec) :
  nrows J = List.length target -> List.length (dvec J target) = nrows J.
Proof.
  intros Hs. unfold dvec, vscale, vpow, vsub.
  rewrite !length_map, length_vmap2, length_sp_matvec, <- Hs.
  apply Nat.min_id.
Qed.

Lemma length_hterm (kx : Z) (Jt : spmatrix * vec) :
  holds_order n full_jac_dict yt_dict kx Jt -> List.length (hterm Jt) = n.
Proof.
  destruct Jt as [J target]. intros ((JT & _ & _ & Hc) & _ & _).
  simpl in Hc.
  unfold hterm. rewrite length_sp_matvec. unfold nrows, sp_T. simpl.
  exact Hc.
Qed.

(** One step of [SpMatrix.dot]. *)
Lemma hess_op_step (J JT : spmatrix) (target : vec) :
  sp_eq JT (sp_T J) ->
  sp_matvec (sp_scale 0.5 JT) (vmul (dvec J target) (sp_matvec J v))
  = vscale c (hterm (J, target)).
Proof.
  intros HT. unfold dvec, hterm, c.
  rewrite sp_matvec_scale, (sp_matvec_ext _ HT), vmul_vscale_l.
  rewrite sp_matvec_vscale, vscale_vscale, mult_IZR.
  f_equal. ring.
Qed.

(** One step of [_opt_hess_mtx]: the product of three matrices acts as
    the step of the operator. *)
Lemma hess_mtx_step (J JT : spmatrix) (target : vec) :
  sp_eq JT (sp_T J) ->
  nrows J = List.length target ->
  sp_matvec (sp_mul (sp_mul (sp_scale 0.5 JT) (sp_diags (dvec J target))) J) v
  = vscale c (hterm (J, target)).
Proof.
  intros HT Hr.
  pose proof (@length_dvec J target Hr) as Hd.
  destruct HT as [HsT HeT].
  rewrite sp_matvec_mul.
  2:{ unfold ncols at 1. cbn [shape sp_mul sp_diags snd fst ncols].
      now rewrite Hd. }
  rewrite sp_matvec_mul.
  2:{ unfold nrows at 1, ncols at 1. cbn [shape sp_scale sp_diags snd fst].
      rewrite Hd, HsT. reflexivity. }
  rewrite sp_matvec_diags by now rewrite length_sp_matvec, Hd.
  apply hess_op_step. split; assumption.
Qed.

Lemma opt_hess_mtx_loop (ks : list Z) (Jt : list (spmatrix * vec))
    (hess0 : spmatrix) :
  Forall2 (holds_order n full_jac_dict yt_dict) ks Jt ->
  shape hess0 = (n, n) ->
  exists m,
    for_in ks (fun kx hess =>
      '(full_jac, full_jac_T) <- dict_get full_jac_dict kx ;;
      yt <- dict_get yt_dict kx ;;
      let diag_vec :=
        vscale (IZR (p * (p - 1)))
          (vpow (vsub (sp_matvec full_jac sol) yt) (p - 2)) in
      let diag_mtx := sp_diags diag_vec in
      Ok (sp_add hess
            (sp_mul (sp_mul (sp_scale 0.5 full_jac_T) diag_mtx) full_jac)))
      hess0 = Ok m /\
    shape m = (n, n) /\
    sp_matvec m v
    = fold_left (fun g t => vadd g (vscale c t)) (map hterm Jt)
        (sp_matvec hess0 v).
Proof.
  intros H. revert hess0.
  induction H as [|kx [J target] ks Jt Hk _ IH]; intros hess0 Hs0; simpl.
  - exists hess0. auto.
  - destruct Hk as ((JT & HJ & HT & Hc) & Hy & Hr). simpl in *.
    rewrite HJ. simpl. rewrite Hy. simpl.
    fold (dvec J target).
    destruct (IH (sp_add hess0
                (sp_mul (sp_mul (sp_scale 0.5 JT) (sp_diags (dvec J target))) J)))
      as (m & Hm & Hsm & Hv); [exact Hs0|].
    exists m. split; [exact Hm|]. split; [exact Hsm|].
    rewrite Hv. f_equal.
    rewrite sp_matvec_add.
    + f_equal. now apply hess_mtx_step.
    + rewrite Hs0. destruct HT as [HsT _].
      cbn [shape sp_mul sp_scale]. unfold nrows, ncols.
      cbn [shape sp_mul sp_scale fst snd]. unfold nrows.
      cbn [shape sp_scale]. rewrite HsT.
      cbn [shape sp_T fst snd]. unfold ncols in *. rewrite Hc. reflexivity.
Qed.

Lemma SpMatrix_dot_loop (diag_vec : dict vec) (ks : list Z)
    (Jt : list (spmatrix * vec)) (g0 : vec) :
  Forall2 (fun kx jt =>
             holds_order n full_jac_dict yt_dict kx jt /\
             dict_get diag_vec kx = Ok (dvec (fst jt) (snd jt))) ks Jt ->
  for_in ks (fun kx vec =>
    '(full_jac, full_jac_T) <- dict_get full_jac_dict kx ;;
    d <- dict_get diag_vec kx ;;
    Ok (vadd vec
          (sp_matvec (sp_scale 0.5 full_jac_T)
             (vmul d (sp_matvec full_jac v))))) g0
  = Ok (fold_left (fun g t => vadd g (vscale c t)) (map hterm Jt) g0).
Proof.
  intros H. revert g0.
  induction H as [|kx [J target] ks Jt [Hk Hd] _ IH]; intros g0; simpl.
  - reflexivity.
  - destruct Hk as ((JT & HJ & HT & Hc) & Hy & Hr). simpl in *.
    rewrite HJ. simpl. rewrite Hd. simpl.
    rewrite (hess_op_step target HT). apply IH.
Qed.

Lemma SpMatrix_init_ok (Jt : list (spmatrix * vec)) :
  Forall2 (holds_order n full_jac_dict yt_dict) (dict_keys full_jac_dict) Jt ->
  exists diag_vec,
    SpMatrix_init sol p full_jac_dict yt_dict = Ok diag_vec /\
    Forall2 (fun kx jt =>
               holds_order n full_jac_dict yt_dict kx jt /\
               dict_get diag_vec kx = Ok (dvec (fst jt) (snd jt)))
      (dict_keys full_jac_dict) Jt.
Proof.
  intros H.
  set (f := fun kx : Z =>
    '(full_jac, full_jac_T) <- dict_get full_jac_dict kx ;;
    yt <- dict_get yt_dict kx ;;
    Ok (vscale (IZR (p * (p - 1)))
          (vpow (vsub (sp_matvec full_jac sol) yt) (p - 2)))).
  assert (Hf : forall kx jt, holds_order n full_jac_dict yt_dict kx jt ->
                 f kx = Ok (dvec (fst jt) (snd jt))).
  { intros kx [J target] ((JT & HJ & _ & _) & Hy & _). simpl in *.
    unfold f. rewrite HJ. simpl. rewrite Hy. reflexivity. }
  assert (Hinit : forall d0,
    for_in (dict_keys full_jac_dict) (fun kx diag_vec =>
      '(full_jac, full_jac_T) <- dict_get full_jac_dict kx ;;
      yt <- dict_get yt_dict kx ;;
      Ok (dict_set diag_vec kx
            (vscale (IZR (p * (p - 1)))
               (vpow (vsub (sp_matvec full_jac sol) yt) (p - 2))))) d0
    = for_in (dict_keys full_jac_dict)
        (fun kx d => a <- f kx ;; Ok (dict_set d kx a)) d0).
  { generalize (dict_keys full_jac_dict). intros ks.
    induction ks as [|k ks IH]; intros d0; simpl; [reflexivity|].
    unfold f at 1.
    destruct (dict_get full_jac_dict k) as [[J JT]|e]; simpl; [|reflexivity].
    destruct (dict_get yt_dict k) as [yt|e]; simpl; [|reflexivity].
    apply IH. }
  destruct (for_in_dict_set_ok f (dict_keys full_jac_dict) []) as [d Hd].
  { intros k Hk. clear Hinit.
    induction H as [|kx jt ks Jt' Hk' _ IH]; [contradiction|].
    destruct Hk as [<-|Hk]; [eauto | apply IH, Hk]. }
  exists d. split.
  - unfold SpMatrix_init. rewrite Hinit. exact Hd.
  - revert H. apply Forall2_strengthen. intros kx jt Hin Hk.
    split; [exact Hk|].
    destruct (for_in_dict_set f _ _ Hd kx) as [Hget _].
    destruct (Hget Hin) as (a & Ha & Hda).
    rewrite (Hf _ _ Hk) in Ha. inversion Ha; subst. exact Hda.
Qed.

End Hessian.

(** C7: for every coefficient vector, exponent, regularization Hessian,
    Jacobian set and target set of matching shapes, the matrix-free operator
    ([use_mtx_free] set) and the explicit sparse matrix (otherwise) are
    both built, and the operator's matrix–vector product of every vector [v]
    is the matrix times [v]: both are the action of
    [H + 0.5 p (p−1) Σ_k Jac_k^T diag((Jac_k sol − target_k)^(p−2)) Jac_k]. *)
Theorem opt_hess_op_is_opt_hess_mtx (self : RMT) (sol : vec) (p : Z)
    (H : spmatrix) (full_jac_dict : jac_dict) (yt_dict : dict vec)
    (Jt : list (spmatrix * vec)) :
  shape H = (List.length sol, List.length sol) ->
  dict_keys full_jac_dict = dict_keys (training_pts self) ->
  fit_data self (List.length sol) full_jac_dict yt_dict Jt ->
  exists m op,
    _opt_hess_mtx self sol p H full_jac_dict yt_dict = Ok m /\
    _opt_hess_op self sol p H full_jac_dict yt_dict = Ok op /\
    forall v,
      linop_matvec op v = Ok (sp_matvec m v) /\
      sp_matvec m v = hess_F_action H Jt p sol v.
Proof.
  intros HH Hk Hd. unfold fit_data in Hd.
  destruct (@opt_hess_mtx_loop sol p full_jac_dict yt_dict [] _ _ H Hd HH)
    as (m & Hm & _ & _).
  assert (Hd' := Hd). rewrite <- Hk in Hd'.
  destruct (@SpMatrix_init_ok sol p full_jac_dict yt_dict Jt Hd')
    as (diag_vec & Hinit & Hdv).
  exists m, (LinearOperator (shape H) (SpMatrix_dot H full_jac_dict diag_vec)).
  split; [exact Hm|]. split.
  { unfold _opt_hess_op. rewrite Hinit. reflexivity. }
  intros v.
  destruct (@opt_hess_mtx_loop sol p full_jac_dict yt_dict v _ _ H Hd HH)
    as (m' & Hm' & _ & Hv).
  assert (E : Ok m' = Ok m) by exact (eq_trans (eq_sym Hm') Hm).
  inversion E; subst m'.
  assert (Hfold :
    fold_left (fun g t => vadd g (vscale (0.5 * IZR p * IZR (p - 1)) t))
      (map (fun '(J, target) =>
              sp_matvec (sp_T J)
                (vmul (vpow (vsub (sp_matvec J sol) target) (p - 2))
                   (sp_matvec J v))) Jt)
      (sp_matvec H v)
    = hess_F_action H Jt p sol v).
  { unfold hess_F_action.
    apply fold_vadd_vscale.
    - rewrite length_sp_matvec. unfold nrows. now rewrite HH.
    - apply Forall_map. revert Hd. apply Forall2_right.
      intros kx jt. apply length_hterm. }
  split.
  - simpl. unfold SpMatrix_dot.
    rewrite (@SpMatrix_dot_loop sol p full_jac_dict yt_dict v diag_vec _ _ _ Hdv).
    rewrite Hfold, Hv. f_equal. symmetry. exact Hfold.
  - rewrite Hv. exact Hfold.
Qed.

(** ** Computations with a trace *)

Lemma mbind_Ok {A B : Type} (m : M A) (k : A -> M B) (tr tr' : list event) (a : A) :
  m tr = (Ok a, tr') -> mbind m k tr = k a tr'.
Proof. intros H. unfold mbind. now rewrite H. Qed.

Lemma mbind_lift_Ok {A B : Type} (r : result A) (k : A -> M B) (tr : list event)
    (a : A) :
  r = Ok a -> mbind (lift r) k tr = k a tr.
Proof. intros ->. reflexivity. Qed.

Lemma appends_ret {A : Type} (P : event -> Prop) (a : A) : appends P (ret a).
Proof. intros tr. exists []. simpl. now rewrite app_nil_r. Qed.

Lemma appends_lift {A : Type} (P : event -> Prop) (r : result A) :
  appends P (lift r).
Proof. intros tr. exists []. simpl. now rewrite app_nil_r. Qed.

Lemma appends_emit (P : event -> Prop) (e : event) : P e -> appends P (emit e).
Proof. intros H tr. exists [e]. simpl. auto. Qed.

Lemma appends_mbind {A B : Type} (P : event -> Prop) (m : M A) (k : A -> M B) :
  appends P m -> (forall a, appends P (k a)) -> appends P (mbind m k).
Proof.
  intros Hm Hk tr. unfold mbind.
  destruct (Hm tr) as (evs & E & F).
  destruct (m tr) as [[a|e] tr']; simpl in E; subst tr'.
  - destruct (Hk a (tr ++ evs)) as (evs' & E' & F').
    exists (evs ++ evs'). rewrite E', app_assoc. split; [reflexivity|].
    now apply Forall_app.
  - exists evs. auto.
Qed.

Lemma appends_for_range {A : Type} (P : event -> Prop) (body : nat -> A -> M A)
    (n i : nat) (a : A) :
  (forall j b, appends P (body j b)) -> appends P (for_range n i body a).
Proof.
  intros Hb. revert i a. induction n as [|n IH]; intros i a; simpl.
  - apply appends_ret.
  - apply appends_mbind; [apply Hb | intros b; apply IH].
Qed.

(** A loop over a range that keeps an invariant and never raises. *)
Lemma for_range_inv {A : Type} (I : nat -> A -> list event -> Prop)
    (body : nat -> A -> M A) (n i : nat) (a : A) (tr : list event) :
  I i a tr ->
  (forall j b t, (i <= j < i + n)%nat -> I j b t ->
     exists b' t', body j b t = (Ok b', t') /\ I (S j) b' t') ->
  exists a' tr', for_range n i body a tr = (Ok a', tr') /\ I (i + n)%nat a' tr'.
Proof.
  revert i a tr. induction n as [|n IH]; intros i a tr Hi Hb; simpl.
  - exists a, tr. rewrite Nat.add_0_r. auto.
  - destruct (Hb i a tr) as (b' & t' & Eb & Hi'); [lia | exact Hi |].
    rewrite (@mbind_Ok _ _ _ _ _ _ _ Eb).
    destruct (IH (S i) b' t' Hi') as (a' & tr' & E & HI).
    { intros j b t Hj. apply Hb. lia. }
    exists a', tr'. split; [exact E|].
    now replace (i + S n)%nat with (S i + n)%nat by lia.
Qed.

(** ** Lookups that cannot fail *)

Lemma dict_get_in_keys {A : Type} (d : dict A) (k : Z) :
  In k (dict_keys d) -> exists a, dict_get d k = Ok a.
Proof.
  induction d as [|[k' a'] d IH]; simpl; [contradiction|].
  intros [->|Hin].
  - rewrite Z.eqb_refl. eauto.
  - destruct (Z.eqb k' k); eauto.
Qed.

Lemma for_in_ok {K A : Type} (ks : list K) (body : K -> A -> result A) (acc : A) :
  (forall k b, In k ks -> exists b', body k b = Ok b') ->
  exists r, for_in ks body acc = Ok r.
Proof.
  revert acc. induction ks as [|k ks IH]; intros acc H; simpl.
  - eauto.
  - destruct (H k acc) as [b' Hb]; [now left|]. rewrite Hb. simpl.
    apply IH. intros k' b Hin. apply H. now right.
Qed.

(** The target set of an output has the derivative orders of the
    training set. *)
Lemma get_yt_dict_keys (self : RMT) (ind_y : nat) (yt_dict : dict vec) :
  _get_yt_dict self ind_y = Ok yt_dict ->
  forall kx, In kx (dict_keys (training_pts self)) ->
    exists t, dict_get yt_dict kx = Ok t.
Proof.
  intros H kx Hin. unfold _get_yt_dict in H.
  set (f := fun kx : Z =>
    '(xt, yt) <- dict_get (training_pts self) kx ;; column yt ind_y).
  assert (E : forall ks d0,
    for_in ks (fun kx yt_dict =>
      '(xt, yt) <- dict_get (training_pts self) kx ;;
      c <- column yt ind_y ;; Ok (dict_set yt_dict kx c)) d0
    = for_in ks (fun kx d => a <- f kx ;; Ok (dict_set d kx a)) d0).
  { induction ks as [|k ks IH]; intros d0; simpl; [reflexivity|].
    unfold f at 1.
    destruct (dict_get (training_pts self) k) as [[xt yt]|e]; simpl;
      [|reflexivity].
    destruct (column yt ind_y) as [c|e]; simpl; [apply IH | reflexivity]. }
  rewrite E in H.
  destruct (for_in_dict_set f _ _ H kx) as [Hget _].
  destruct (Hget Hin) as (a & _ & Ha). eauto.
Qed.

Section Totality.
Variable self : RMT.
Variables (full_hess : spmatrix) (full_jac_dict : jac_dict) (yt_dict : dict vec).

Hypothesis keys_jac : dict_keys full_jac_dict = dict_keys (training_pts self).
Hypothesis keys_yt :
  forall kx, In kx (dict_keys (training_pts self)) ->
    exists t, dict_get yt_dict kx = Ok t.

Lemma jac_lookup (kx : Z) :
  In kx (dict_keys (training_pts self)) ->
  exists J JT, dict_get full_jac_dict kx = Ok (J, JT).
Proof.
  intros Hin. rewrite <- keys_jac in Hin.
  destruct (dict_get_in_keys _ _ Hin) as [[J JT] E]. eauto.
Qed.

Lemma opt_func_ok (x : vec) (p : Z) :
  exists r, _opt_func self x p full_hess full_jac_dict yt_dict = Ok r.
Proof.
  unfold _opt_func. apply for_in_ok. intros kx b Hin.
  destruct (@jac_lookup kx Hin) as (J & JT & ->).
  destruct (keys_yt kx Hin) as (t & ->). simpl. eauto.
Qed.

Lemma opt_grad_ok (x : vec) (p : Z) :
  exists g, _opt_grad self x p full_hess full_jac_dict yt_dict = Ok g.
Proof.
  unfold _opt_grad. apply for_in_ok. intros kx b Hin.
  destruct (@jac_lookup kx Hin) as (J & JT & ->).
  destruct (keys_yt kx Hin) as (t & ->). simpl. eauto.
Qed.

Lemma opt_norm_ok (x : vec) (p : Z) :
  exists r, _opt_norm self x p full_hess full_jac_dict yt_dict = Ok r.
Proof.
  unfold _opt_norm. destruct (opt_grad_ok x p) as (g & ->). simpl. eauto.
Qed.

Lemma opt_hess_mtx_ok (x : vec) (p : Z) :
  exists m, _opt_hess_mtx self x p full_hess full_jac_dict yt_dict = Ok m.
Proof.
  unfold _opt_hess_mtx. apply for_in_ok. intros kx b Hin.
  destruct (@jac_lookup kx Hin) as (J & JT & ->).
  destruct (keys_yt kx Hin) as (t & ->). simpl. eauto.
Qed.

Lemma opt_hess_op_ok (x : vec) (p : Z) :
  exists m, _opt_hess_op self x p full_hess full_jac_dict yt_dict = Ok m.
Proof.
  unfold _opt_hess_op, SpMatrix_init.
  destruct (for_in_ok (dict_keys full_jac_dict)
    (fun kx diag_vec =>
       '(full_jac, full_jac_T) <- dict_get full_jac_dict kx ;;
       yt <- dict_get yt_dict kx ;;
       Ok (dict_set diag_vec kx
             (vscale (IZR (p * (p - 1)))
                (vpow (vsub (sp_matvec full_jac x) yt) (p - 2))))) [])
    as (d & ->).
  - intros kx b Hin. rewrite keys_jac in Hin.
    destruct (@jac_lookup kx Hin) as (J & JT & ->).
    destruct (keys_yt kx Hin) as (t & ->). simpl. eauto.
  - simpl. eauto.
Qed.

Lemma opt_hess_ok (x : vec) (p : Z) :
  exists m, _opt_hess self x p full_hess full_jac_dict yt_dict = Ok m.
Proof.
  unfold _opt_hess. destruct (use_mtx_free (sm_options self)).
  - apply opt_hess_op_ok.
  - destruct (opt_hess_mtx_ok x p) as (m & ->). simpl. eauto.
Qed.

Lemma opt_hess_2_ok :
  exists m, _opt_hess_2 self full_hess full_jac_dict = Ok m.
Proof.
  unfold _opt_hess_2, _opt_hess_op_2.
  destruct (use_mtx_free (sm_options self)); [eauto|].
  unfold _opt_hess_mtx_2.
  destruct (for_in_ok (dict_keys (training_pts self))
    (fun kx hess =>
       '(full_jac, full_jac_T) <- dict_get full_jac_dict kx ;;
       Ok (sp_add hess
             (sp_mul (sp_scale (0.5 * IZR 2 * IZR (2 - 1)) full_jac_T)
                full_jac))) full_hess) as (m & ->).
  - intros kx b Hin. destruct (@jac_lookup kx Hin) as (J & JT & ->). simpl. eauto.
  - simpl. eauto.
Qed.

End Totality.

(** ** Columns *)

Lemma column_Some (a : list vec) (j : nat) :
  (j < List.length a)%nat -> exists c, column a j = Ok c.
Proof.
  intros Hj. unfold column.
  destruct (nth_error a j) as [c|] eqn:E; [eauto|].
  apply nth_error_None in E. lia.
Qed.

Lemma length_set_column (a : list vec) (j : nat) (v : vec) :
  List.length (set_column a j v) = List.length a.
Proof.
  revert j. induction a as [|c a IH]; intros [|j]; simpl; auto.
Qed.

Lemma column_set_same (a : list vec) (j : nat) (v : vec) :
  (j < List.length a)%nat -> column (set_column a j v) j = Ok v.
Proof.
  unfold column. revert j.
  induction a as [|c a IH]; intros [|j] Hj; simpl in *; try lia; auto.
  apply IH. lia.
Qed.

Lemma column_set_other (a : list vec) (j k : nat) (v : vec) :
  j <> k -> column (set_column a j v) k = column a k.
Proof.
  unfold column. revert j k.
  induction a as [|c a IH]; intros [|j] [|k] Hjk; simpl; auto; try lia.
Qed.

(** ** The Newton loop of one output (claim C6) *)

Section NewtonLoop.
Context {C : Collaborators}.
Variable self : RMT.
Variables (full_hess : spmatrix) (full_jac_dict : jac_dict) (yt_dict : dict vec).
Variables (p : Z) (ind_y : nat).

Hypothesis keys_jac : dict_keys full_jac_dict = dict_keys (training_pts self).
Hypothesis keys_yt :
  forall kx, In kx (dict_keys (training_pts self)) ->
    exists t, dict_get yt_dict kx = Ok t.
Hypothesis solver_returns : solver_ok.
Hypothesis line_search_returns : line_search_ok.

Let func := fun x => _opt_func self x p full_hess full_jac_dict yt_dict.
Let grad := fun x => _opt_grad self x p full_hess full_jac_dict yt_dict.

Lemma newton_step_run (nln_iter : nat) (a : arrays) (tr : list event) :
  has_column ind_y a ->
  exists x mtx g d d' s,
    column (a_sol a) ind_y = Ok x /\
    line_search x d' func grad 1.0 = Ok s /\
    newton_step self full_hess full_jac_dict p yt_dict ind_y nln_iter a tr
    = (Ok {| a_rhs := set_column (a_rhs a) ind_y (vneg g);
             a_sol := set_column (a_sol a) ind_y s;
             a_d_sol := set_column (a_d_sol a) ind_y d' |},
       tr ++ [Initialize (Nonlinear ind_y nln_iter) mtx;
              Solve (Nonlinear ind_y nln_iter) (vneg g) d ind_y;
              LineSearch ind_y nln_iter x d']).
Proof.
  intros (Hr & Hs & Hd).
  destruct (column_Some _ Hs) as (x & Ex).
  destruct (column_Some _ Hd) as (d & Ed).
  destruct (@opt_hess_ok self full_hess full_jac_dict yt_dict keys_jac keys_yt x p) as (mtx & Em).
  destruct (@opt_grad_ok self full_hess full_jac_dict yt_dict keys_jac keys_yt x p) as (g & Eg).
  destruct (solver_returns mtx (vneg g) d ind_y) as (d' & Ed').
  destruct (line_search_returns x d' func grad 1.0) as (s & Es).
  { intros z. apply opt_func_ok; assumption. }
  { intros z. apply opt_grad_ok; assumption. }
  exists x, mtx, g, d, d', s. split; [exact Ex|]. split; [exact Es|].
  unfold newton_step.
  rewrite (mbind_lift_Ok _ _ Ex), (mbind_lift_Ok _ _ Em), (mbind_lift_Ok _ _ Eg).
  unfold mbind at 1. unfold emit at 1.
  rewrite (mbind_lift_Ok _ _ (column_set_same _ _ Hr)).
  rewrite (mbind_lift_Ok _ _ Ed).
  unfold mbind at 1. unfold emit at 1.
  rewrite (mbind_lift_Ok _ _ Ed').
  unfold mbind at 1. unfold emit at 1.
  fold func grad.
  rewrite (mbind_lift_Ok _ _ Es).
  unfold ret. rewrite <- !app_assoc. reflexivity.
Qed.

Lemma report_run (itn : nat) (a : arrays) (tr : list event) (x : vec) :
  column (a_sol a) ind_y = Ok x ->
  exists norm fval,
    _opt_norm self x p full_hess full_jac_dict yt_dict = Ok norm /\
    report self full_hess full_jac_dict p yt_dict itn ind_y a tr
    = (Ok norm, tr ++ [Report itn ind_y norm fval]).
Proof.
  intros Ex.
  destruct (@opt_norm_ok self full_hess full_jac_dict yt_dict keys_jac keys_yt x p) as (norm & En).
  destruct (@opt_func_ok self full_hess full_jac_dict yt_dict keys_jac keys_yt x p) as (fval & Ef).
  exists norm, fval. split; [exact En|].
  unfold report.
  rewrite (mbind_lift_Ok _ _ Ex), (mbind_lift_Ok _ _ En), (mbind_lift_Ok _ _ Ef).
  reflexivity.
Qed.

Lemma has_column_step (a : arrays) (r s d : vec) :
  has_column ind_y a ->
  has_column ind_y {| a_rhs := set_column (a_rhs a) ind_y r;
                      a_sol := set_column (a_sol a) ind_y s;
                      a_d_sol := set_column (a_d_sol a) ind_y d |}.
Proof.
  intros (Hr & Hs & Hd). unfold has_column. simpl.
  now rewrite !length_set_column.
Qed.

(** A run of the loop with a budget of [n] iterations: it returns, and
    the reported norms tell how it went. *)
Lemma newton_loop_run (n nln_iter : nat) (a : arrays) (tr : list event) :
  has_column ind_y a ->
  exists a' evs,
    newton_loop self full_hess full_jac_dict p yt_dict ind_y n nln_iter a tr
    = (Ok a', tr ++ evs) /\
    has_column ind_y a' /\
    (List.length (a_rhs a') = List.length (a_rhs a) /\
     List.length (a_sol a') = List.length (a_sol a) /\
     List.length (a_d_sol a') = List.length (a_d_sol a)) /\
    (forall j, j <> ind_y -> column (a_sol a') j = column (a_sol a) j) /\
    ((0 < n)%nat ->
       exists norm fval, In (Report (S nln_iter) ind_y norm fval) evs) /\
    (List.length (reported_norms evs) <= n)%nat /\
    List.length (line_searches evs) = List.length (reported_norms evs) /\
    (forall j, (S j < List.length (reported_norms evs))%nat ->
       1e-16 <= nth j (reported_norms evs) 0) /\
    ((List.length (reported_norms evs) < n)%nat ->
       last (reported_norms evs) 1 < 1e-16) /\
    (reported_norms evs = [] -> a_sol a' = a_sol a) /\
    (reported_norms evs <> [] ->
       exists s,
         column (a_sol a') ind_y = Ok s /\
         _opt_norm self s p full_hess full_jac_dict yt_dict
         = Ok (last (reported_norms evs) 0) /\
         line_search (fst (last (line_searches evs) ([], [])))
           (snd (last (line_searches evs) ([], []))) func grad 1.0 = Ok s).
Proof.
  revert nln_iter a tr. induction n as [|n IH]; intros nln_iter a tr Ha.
  - exists a, []. simpl. unfold ret. rewrite app_nil_r.
    split; [reflexivity|]. split; [exact Ha|]. split; [auto|].
    split; [intros; reflexivity|]. split; [lia|].
    split; [lia|]. split; [reflexivity|].
    split; [intros j Hj; simpl in Hj; lia|].
    split; [intros Hn; simpl in Hn; lia|].
    split; [reflexivity | intros Hn; contradiction].
  - destruct (newton_step_run nln_iter tr Ha)
      as (x & mtx & g & d & d' & s & Ex & Es & Estep).
    set (a1 := {| a_rhs := set_column (a_rhs a) ind_y (vneg g);
                  a_sol := set_column (a_sol a) ind_y s;
                  a_d_sol := set_column (a_d_sol a) ind_y d' |}) in *.
    assert (Ha1 : has_column ind_y a1) by now apply has_column_step.
    assert (Es1 : column (a_sol a1) ind_y = Ok s).
    { simpl. apply column_set_same. apply Ha. }
    destruct (@report_run (nln_iter + 1) a1
                (tr ++ [Initialize (Nonlinear ind_y nln_iter) mtx;
                        Solve (Nonlinear ind_y nln_iter) (vneg g) d ind_y;
                        LineSearch ind_y nln_iter x d']) s Es1)
      as (norm & fval & En & Erep).
    simpl newton_loop.
    rewrite (@mbind_Ok _ _ _ _ _ _ _ Estep), (@mbind_Ok _ _ _ _ _ _ _ Erep).
    rewrite Nat.add_1_r in *.
    destruct (Rlt_dec norm 1e-16) as [Hlt|Hge].
    + exists a1, [Initialize (Nonlinear ind_y nln_iter) mtx;
                  Solve (Nonlinear ind_y nln_iter) (vneg g) d ind_y;
                  LineSearch ind_y nln_iter x d';
                  Report (S nln_iter) ind_y norm fval].
      unfold ret. rewrite <- app_assoc. simpl.
      split; [reflexivity|]. split; [exact Ha1|].
      split; [rewrite !length_set_column; auto|].
      split; [intros j Hj; apply column_set_other; auto|].
      split; [intros _; exists norm, fval; simpl; auto|].
      split; [lia|]. split; [reflexivity|].
      split; [intros j Hj; lia|].
      split; [intros _; exact Hlt|].
      split; [discriminate|].
      intros _. exists s. auto.
    + destruct (IH (S nln_iter) a1
                  ((tr ++ [Initialize (Nonlinear ind_y nln_iter) mtx;
                           Solve (Nonlinear ind_y nln_iter) (vneg g) d ind_y;
                           LineSearch ind_y nln_iter x d'])
                   ++ [Report (S nln_iter) ind_y norm fval]) Ha1)
        as (a' & evs & Erun & Ha' & (Hlr & Hlen & Hld) & Hoth & _ & Hle & Hls
            & Hmid & Hearly & Hnil & Hlast).
      exists a', ([Initialize (Nonlinear ind_y nln_iter) mtx;
                   Solve (Nonlinear ind_y nln_iter) (vneg g) d ind_y;
                   LineSearch ind_y nln_iter x d';
                   Report (S nln_iter) ind_y norm fval] ++ evs).
      split.
      { rewrite Erun. rewrite <- !app_assoc. reflexivity. }
      split; [exact Ha'|].
      split.
      { rewrite Hlr, Hlen, Hld. simpl. rewrite !length_set_column. auto. }
      split.
      { intros j Hj. rewrite (Hoth j Hj). apply column_set_other; auto. }
      simpl.
      split; [intros _; exists norm, fval; auto|].
      split; [lia|]. split; [lia|].
      split.
      { intros [|j] Hj; simpl; [lra | apply Hmid; lia]. }
      split.
      { intros Hn. assert (Hn' : (List.length (reported_norms evs) < n)%nat) by lia.
        specialize (Hearly Hn').
        destruct (reported_norms evs) as [|r rs] eqn:E; [simpl in Hearly; lra|].
        exact Hearly. }
      split; [discriminate|].
      intros _.
      destruct (reported_norms evs) as [|r rs] eqn:E.
      * rewrite (Hnil eq_refl).
        destruct (line_searches evs) as [|l ls'] eqn:El; [|simpl in Hls; lia].
        simpl. exists s. auto.
      * destruct (Hlast ltac:(discriminate)) as (s' & Hs' & Hn' & Hl').
        exists s'. split; [exact Hs'|].
        destruct (line_searches evs) as [|l ls'] eqn:El; [simpl in Hls; lia|].
        split; [exact Hn' | exact Hl'].
Qed.

End NewtonLoop.

(** C6: for every output dimension the Newton loop returns without an
    exception.  The number of iterations it executed is the number of
    norms it reported, at most [max_nln_iter].  Every reported norm but
    the last is at least [1e-16]: a norm below [1e-16] ends the loop.  When
    fewer than [max_nln_iter] iterations were executed the last reported
    norm is below [1e-16].  The stored column is the result of the last
    line search, whose gradient norm is the last one reported, or the
    unchanged column when no iteration was executed; the other columns are
    unchanged. *)
Theorem newton_loop_budget {C : Collaborators} (self : RMT) (full_hess : spmatrix)
    (full_jac_dict : jac_dict) (ind_y : nat) (yt_dict : dict vec)
    (a : arrays) (tr : list event) :
  dict_keys full_jac_dict = dict_keys (training_pts self) ->
  _get_yt_dict self ind_y = Ok yt_dict ->
  solver_ok -> line_search_ok -> has_column ind_y a ->
  let p := approx_norm (sm_options self) in
  let budget := Z.to_nat (max_nln_iter (sm_options self)) in
  let func := fun x => _opt_func self x p full_hess full_jac_dict yt_dict in
  let grad := fun x => _opt_grad self x p full_hess full_jac_dict yt_dict in
  exists a' evs,
    newton_loop self full_hess full_jac_dict p yt_dict ind_y budget 0 a tr
    = (Ok a', tr ++ evs) /\
    let norms := reported_norms evs in
    let searches := line_searches evs in
    (List.length norms <= budget)%nat /\
    List.length searches = List.length norms /\
    (forall j, (S j < List.length norms)%nat -> 1e-16 <= nth j norms 0) /\
    ((List.length norms < budget)%nat -> last norms 1 < 1e-16) /\
    (forall j, j <> ind_y -> column (a_sol a') j = column (a_sol a) j) /\
    (norms = [] -> a_sol a' = a_sol a) /\
    (norms <> [] ->
       exists s,
         column (a_sol a') ind_y = Ok s /\
         _opt_norm self s p full_hess full_jac_dict yt_dict = Ok (last norms 0) /\
         line_search (fst (last searches ([], []))) (snd (last searches ([], [])))
           func grad 1.0 = Ok s).
Proof.
  intros Hk Hy Hsolver Hls Ha p budget func grad.
  destruct (@newton_loop_run C self full_hess full_jac_dict yt_dict p ind_y
              Hk (get_yt_dict_keys _ _ Hy) Hsolver Hls budget 0%nat a tr Ha)
    as (a' & evs & Erun & _ & _ & Hoth & _ & Hle & Hlen & Hmid & Hearly & Hnil
        & Hlast).
  exists a', evs. cbv zeta. auto 10.
Qed.

(** ** The initial linear problem and the whole driver *)

Lemma column_repeat (x : vec) (k j : nat) :
  (j < k)%nat -> column (repeat x k) j = Ok x.
Proof.
  unfold column. revert j. induction k as [|k IH]; intros [|j] Hj; simpl;
    try lia; auto. apply IH. lia.
Qed.

Lemma column_app_length (l1 l2 : list vec) (x : vec) :
  column (l1 ++ x :: l2) (List.length l1) = Ok x.
Proof. unfold column. induction l1 as [|c l1 IH]; simpl; auto. Qed.

Lemma set_column_app (l1 l2 : list vec) (x v : vec) :
  set_column (l1 ++ x :: l2) (List.length l1) v = l1 ++ v :: l2.
Proof. induction l1 as [|c l1 IH]; simpl; [reflexivity | now rewrite IH]. Qed.

Lemma column_app_at (l1 l2 : list vec) (x : vec) (j : nat) :
  List.length l1 = j -> column (l1 ++ x :: l2) j = Ok x.
Proof. intros <-. apply column_app_length. Qed.

Lemma set_column_app_at (l1 l2 : list vec) (x v : vec) (j : nat) :
  List.length l1 = j -> set_column (l1 ++ x :: l2) j v = l1 ++ v :: l2.
Proof. intros <-. apply set_column_app. Qed.

Lemma length_map_seq (f : nat -> vec) (j : nat) :
  List.length (map f (seq 0 j)) = j.
Proof. now rewrite length_map, length_seq. Qed.

Lemma column_map_seq (f : nat -> vec) (k j : nat) :
  (j < k)%nat -> column (map f (seq 0 k)) j = Ok (f j).
Proof.
  intros Hj. unfold column.
  rewrite nth_error_map, nth_error_seq.
  destruct (Nat.ltb_spec j k); [reflexivity | lia].
Qed.

Lemma repeat_head (x : vec) (k j : nat) :
  (j < k)%nat -> repeat x (k - j) = x :: repeat x (k - S j).
Proof.
  intros Hj. replace (k - j)%nat with (S (k - S j)) by lia. reflexivity.
Qed.

Section InitialProblem.
Context {C : Collaborators}.
Variable self : RMT.
Variables (full_hess : spmatrix) (full_jac_dict : jac_dict).
Variables (n ny : nat) (mtx : linop) (rhs_of sol_of : nat -> vec).

Hypothesis Hmtx : _opt_hess_2 self full_hess full_jac_dict = Ok mtx.
Hypothesis Hrhs :
  forall y, (y < ny)%nat ->
    exists ytd g,
      _get_yt_dict self y = Ok ytd /\
      _opt_grad self (zeros n) 2 full_hess full_jac_dict ytd = Ok g /\
      rhs_of y = vneg g.
Hypothesis Hsol :
  forall y, (y < ny)%nat ->
    solver_solve mtx (rhs_of y) (zeros n) y = Ok (sol_of y).

Let a0 : arrays :=
  {| a_rhs := repeat (zeros n) ny; a_sol := repeat (zeros n) ny;
     a_d_sol := repeat (zeros n) ny |}.

Lemma assemble_rhs_run (tr : list event) :
  for_range ny 0 (assemble_rhs self full_hess full_jac_dict) a0 tr
  = (Ok {| a_rhs := map rhs_of (seq 0 ny); a_sol := repeat (zeros n) ny;
           a_d_sol := repeat (zeros n) ny |}, tr).
Proof.
  destruct (@for_range_inv _
    (fun j a t =>
       t = tr /\
       a = {| a_rhs := map rhs_of (seq 0 j) ++ repeat (zeros n) (ny - j);
              a_sol := repeat (zeros n) ny;
              a_d_sol := repeat (zeros n) ny |})
    (assemble_rhs self full_hess full_jac_dict) ny 0%nat a0 tr)
    as (a' & tr' & E & -> & ->).
  - split; [reflexivity|]. unfold a0. simpl. now rewrite Nat.sub_0_r.
  - intros j b t Hj (-> & ->).
    destruct (@Hrhs j ltac:(lia)) as (ytd & g & Ey & Eg & Er).
    unfold assemble_rhs.
    rewrite (mbind_lift_Ok _ _ Ey). cbn [a_sol a_rhs a_d_sol].
    rewrite (mbind_lift_Ok _ _ (@column_repeat (zeros n) ny j ltac:(lia))).
    rewrite (mbind_lift_Ok _ _ Eg).
    eexists _, _. split; [reflexivity|]. split; [reflexivity|].
    f_equal.
    rewrite (@repeat_head (zeros n) ny j) by lia.
    rewrite set_column_app_at by apply length_map_seq.
    rewrite seq_S, map_app, <- app_assoc. simpl.
    now rewrite Er.
  - rewrite E. simpl. rewrite Nat.sub_diag. simpl. now rewrite app_nil_r.
Qed.

Lemma initial_solves_run (tr : list event) :
  for_range ny 0 (initial_solve mtx)
    {| a_rhs := map rhs_of (seq 0 ny); a_sol := repeat (zeros n) ny;
       a_d_sol := repeat (zeros n) ny |} tr
  = (Ok {| a_rhs := map rhs_of (seq 0 ny); a_sol := map sol_of (seq 0 ny);
           a_d_sol := repeat (zeros n) ny |},
     tr ++ map (fun y => Solve Initial (rhs_of y) (zeros n) y) (seq 0 ny)).
Proof.
  destruct (@for_range_inv _
    (fun j a t =>
       t = tr ++ map (fun y => Solve Initial (rhs_of y) (zeros n) y) (seq 0 j) /\
       a = {| a_rhs := map rhs_of (seq 0 ny);
              a_sol := map sol_of (seq 0 j) ++ repeat (zeros n) (ny - j);
              a_d_sol := repeat (zeros n) ny |})
    (initial_solve mtx) ny 0%nat
    {| a_rhs := map rhs_of (seq 0 ny); a_sol := repeat (zeros n) ny;
       a_d_sol := repeat (zeros n) ny |} tr)
    as (a' & tr' & E & -> & ->).
  - simpl. rewrite app_nil_r, Nat.sub_0_r. auto.
  - intros j b t Hj (-> & ->).
    unfold initial_solve. cbn [a_sol a_rhs a_d_sol].
    rewrite (mbind_lift_Ok _ _ (@column_map_seq rhs_of ny j ltac:(lia))).
    rewrite (@repeat_head (zeros n) ny j) by lia.
    assert (Ec : column (map sol_of (seq 0 j) ++ zeros n :: repeat (zeros n) (ny - S j)) j
                 = Ok (zeros n)).
    { apply column_app_at, length_map_seq. }
    rewrite (mbind_lift_Ok _ _ Ec).
    unfold mbind at 1. unfold emit at 1.
    rewrite (mbind_lift_Ok _ _ (@Hsol j ltac:(lia))).
    eexists _, _. split; [reflexivity|]. split.
    + rewrite seq_S, map_app, app_assoc. reflexivity.
    + f_equal.
      rewrite set_column_app_at by apply length_map_seq.
      rewrite seq_S, map_app, <- app_assoc. reflexivity.
  - rewrite E. simpl. rewrite Nat.sub_diag. simpl. now rewrite app_nil_r.
Qed.

Lemma initial_linear_problem_run (tr : list event) :
  initial_linear_problem self full_hess full_jac_dict ny a0 tr
  = (Ok {| a_rhs := map rhs_of (seq 0 ny); a_sol := map sol_of (seq 0 ny);
           a_d_sol := repeat (zeros n) ny |},
     tr ++ initial_trace mtx rhs_of n ny).
Proof.
  unfold initial_linear_problem.
  rewrite (mbind_lift_Ok _ _ Hmtx).
  rewrite (@mbind_Ok _ _ _ _ _ _ _ (assemble_rhs_run tr)).
  unfold mbind at 1. unfold emit at 1.
  cbn [a_rhs]. rewrite length_map, length_seq.
  rewrite initial_solves_run. rewrite <- app_assoc. reflexivity.
Qed.

End InitialProblem.

(** ** The Gauss–Newton system of the initial problem *)

Section GaussNewton.
Variable self : RMT.
Variables (full_jac_dict : jac_dict) (n : nat) (v : vec).

Lemma gauss_newton_action (Js : list spmatrix) (H : spmatrix) :
  shape H = (n, n) ->
  Forall (fun J => ncols J = n) Js ->
  shape (gauss_newton H Js) = (n, n) /\
  sp_matvec (gauss_newton H Js) v
  = fold_left (fun g J => vadd g (sp_matvec (sp_T J) (sp_matvec J v))) Js
      (sp_matvec H v).
Proof.
  intros HH HJ. revert H HH.
  induction HJ as [|J Js Hc _ IH]; intros H HH; simpl.
  - auto.
  - destruct (IH (sp_add H (sp_mul (sp_T J) J))) as [Hs Hv]; [exact HH|].
    split; [exact Hs|]. rewrite Hv. f_equal.
    rewrite sp_matvec_add.
    + rewrite sp_matvec_mul by reflexivity. reflexivity.
    + rewrite HH. unfold sp_mul, nrows, ncols. simpl.
      unfold ncols in *. now rewrite Hc.
Qed.

Lemma gn_coeff : 0.5 * IZR 2 * IZR (2 - 1) = 1.
Proof. simpl. lra. Qed.

Lemma opt_hess_mtx_2_loop (c : R) (ks : list Z) (Js : list spmatrix)
    (hess0 : spmatrix) :
  c = 1 ->
  Forall2 (holds_jac n full_jac_dict) ks Js ->
  shape hess0 = (n, n) ->
  exists m,
    for_in ks (fun kx hess =>
      '(full_jac, full_jac_T) <- dict_get full_jac_dict kx ;;
      Ok (sp_add hess (sp_mul (sp_scale c full_jac_T) full_jac))) hess0
    = Ok m /\
    sp_matvec m v
    = fold_left (fun g J => vadd g (sp_matvec (sp_T J) (sp_matvec J v))) Js
        (sp_matvec hess0 v).
Proof.
  intros -> H. revert hess0.
  induction H as [|kx J ks Js Hk _ IH]; intros hess0 Hs0;
    cbn [for_in fold_left].
  - eauto.
  - destruct Hk as (JT & HJ & HT & Hc). rewrite HJ. cbn [bind].
    destruct (IH (sp_add hess0 (sp_mul (sp_scale 1 JT) J)))
      as (m & Hm & Hv); [exact Hs0|].
    exists m. split; [exact Hm|]. rewrite Hv. f_equal.
    destruct HT as [HsT HeT].
    rewrite sp_matvec_add.
    + f_equal. rewrite sp_matvec_mul.
      * rewrite sp_matvec_scale, (sp_matvec_ext _ (conj HsT HeT)).
        apply vscale_1.
      * unfold ncols, nrows. cbn [shape sp_scale]. now rewrite HsT.
    + rewrite Hs0. unfold sp_mul, nrows, ncols. cbn [shape sp_scale fst snd].
      rewrite HsT. cbn [shape sp_T fst snd]. unfold ncols in *.
      now rewrite Hc.
Qed.

Lemma SpMatrix_dot_2_loop (c : R) (ks : list Z) (Js : list spmatrix) (g0 : vec) :
  c = 1 ->
  Forall2 (holds_jac n full_jac_dict) ks Js ->
  for_in ks (fun kx vec =>
    '(full_jac, full_jac_T) <- dict_get full_jac_dict kx ;;
    Ok (vadd vec (sp_matvec (sp_scale c full_jac_T) (sp_matvec full_jac v)))) g0
  = Ok (fold_left (fun g J => vadd g (sp_matvec (sp_T J) (sp_matvec J v))) Js g0).
Proof.
  intros -> H. revert g0.
  induction H as [|kx J ks Js Hk _ IH]; intros g0; cbn [for_in fold_left].
  - reflexivity.
  - destruct Hk as (JT & HJ & HT & Hc). rewrite HJ. cbn [bind].
    rewrite sp_matvec_scale, (sp_matvec_ext _ HT), vscale_1.
    apply IH.
Qed.

End GaussNewton.

(** The system of the initial problem, matrix or operator, acts as
    [H + Σ_k Jac_k^T Jac_k]. *)
Lemma opt_hess_2_gauss_newton (self : RMT) (H : spmatrix) (full_jac_dict : jac_dict)
    (n : nat) (Js : list spmatrix) :
  shape H = (n, n) ->
  dict_keys full_jac_dict = dict_keys (training_pts self) ->
  Forall2 (holds_jac n full_jac_dict) (dict_keys (training_pts self)) Js ->
  exists mtx,
    _opt_hess_2 self H full_jac_dict = Ok mtx /\
    forall v, linop_matvec mtx v = Ok (sp_matvec (gauss_newton H Js) v).
Proof.
  intros HH Hk HJ.
  assert (Hc : Forall (fun J => ncols J = n) Js).
  { revert HJ. apply Forall2_right. intros kx J (JT & _ & _ & Hc). exact Hc. }
  unfold _opt_hess_2, _opt_hess_op_2, _opt_hess_mtx_2.
  destruct (use_mtx_free (sm_options self)).
  - eexists. split; [reflexivity|]. intros v. simpl. unfold SpMatrix_dot_2.
    rewrite Hk.
    rewrite (@SpMatrix_dot_2_loop full_jac_dict n v _ _ _ _ gn_coeff HJ).
    f_equal. symmetry. now apply (@gauss_newton_action n v Js H HH Hc).
  - destruct (@opt_hess_mtx_2_loop full_jac_dict n [] _ _ _ H gn_coeff HJ HH)
      as (m & Hm & _).
    exists (Mtx m). split.
    + cbv zeta in Hm |- *. rewrite Hm. reflexivity.
    + intros v. simpl. f_equal.
      destruct (@opt_hess_mtx_2_loop full_jac_dict n v _ _ _ H gn_coeff HJ HH)
        as (m' & Hm' & Hv).
      assert (E : Ok m' = Ok m) by exact (eq_trans (eq_sym Hm') Hm).
      inversion E; subst m'. rewrite Hv. symmetry.
      now apply (@gauss_newton_action n v Js H HH Hc).
Qed.

Section Solve.
Context {C : Collaborators}.
Variable self : RMT.
Variables (full_hess : spmatrix) (full_jac_dict : jac_dict).

Lemma newton_step_appends (p : Z) (ytd : dict vec) (y it : nat) (a : arrays) :
  appends not_initial (newton_step self full_hess full_jac_dict p ytd y it a).
Proof.
  unfold newton_step.
  repeat (apply appends_mbind;
          [first [apply appends_lift | apply appends_emit; reflexivity]
          | intros ?]).
  apply appends_ret.
Qed.

Lemma report_appends (p : Z) (ytd : dict vec) (itn y : nat) (a : arrays) :
  appends not_initial (report self full_hess full_jac_dict p ytd itn y a).
Proof.
  unfold report.
  repeat (apply appends_mbind;
          [first [apply appends_lift | apply appends_emit; reflexivity]
          | intros ?]).
  apply appends_ret.
Qed.

Lemma newton_loop_appends (p : Z) (ytd : dict vec) (y n it : nat) (a : arrays) :
  appends not_initial (newton_loop self full_hess full_jac_dict p ytd y n it a).
Proof.
  revert it a. induction n as [|n IH]; intros it a; simpl.
  - apply appends_ret.
  - apply appends_mbind; [apply newton_step_appends | intros a'].
    apply appends_mbind; [apply report_appends | intros norm].
    destruct (Rlt_dec norm 1e-16); [apply appends_ret | apply IH].
Qed.

Lemma nonlinear_problem_appends (y : nat) (a : arrays) :
  appends not_initial (nonlinear_problem self full_hess full_jac_dict y a).
Proof.
  unfold nonlinear_problem.
  apply appends_mbind; [apply appends_lift | intros ytd].
  apply appends_mbind.
  - destruct (Z.ltb 0 (max_nln_iter (sm_options self))).
    + apply appends_mbind; [apply report_appends | intros ?; apply appends_ret].
    + apply appends_ret.
  - intros _. apply newton_loop_appends.
Qed.

Variable sz : sizes.
Hypothesis Hnum : num self = Some sz.

Let n := num_dof sz.
Let ny := num_y sz.

Variables (mtx : linop) (rhs_of sol_of : nat -> vec).

Hypothesis Hmtx : _opt_hess_2 self full_hess full_jac_dict = Ok mtx.
Hypothesis Hrhs :
  forall y, (y < ny)%nat ->
    exists ytd g,
      _get_yt_dict self y = Ok ytd /\
      _opt_grad self (zeros n) 2 full_hess full_jac_dict ytd = Ok g /\
      rhs_of y = vneg g.
Hypothesis Hsol :
  forall y, (y < ny)%nat ->
    solver_solve mtx (rhs_of y) (zeros n) y = Ok (sol_of y).

(** The arrays after the initial linear problem. *)
Let a1 : arrays :=
  {| a_rhs := map rhs_of (seq 0 ny); a_sol := map sol_of (seq 0 ny);
     a_d_sol := repeat (zeros n) ny |}.

Lemma solve_run (tr : list event) :
  _solve self full_hess full_jac_dict tr
  = mbind (for_range ny 0 (nonlinear_problem self full_hess full_jac_dict) a1)
      (fun a2 => ret (a_sol a2)) (tr ++ initial_trace mtx rhs_of n ny).
Proof.
  unfold _solve. unfold get_num. rewrite Hnum.
  rewrite (@mbind_lift_Ok _ _ _ _ _ sz eq_refl).
  fold n ny.
  rewrite (@mbind_Ok _ _ _ _ _ _ _
             (@initial_linear_problem_run C self full_hess full_jac_dict n ny
                mtx rhs_of sol_of Hmtx Hrhs Hsol tr)).
  cbn [a_rhs]. rewrite length_map_seq. reflexivity.
Qed.

(** Whatever the Newton loops do, the trace is the initial linear
    problem followed by events of the loops only. *)
Lemma solve_trace (tr : list event) :
  exists evs,
    snd (_solve self full_hess full_jac_dict tr)
    = tr ++ initial_trace mtx rhs_of n ny ++ evs /\
    Forall not_initial evs.
Proof.
  rewrite solve_run.
  destruct (@appends_mbind _ _ not_initial
              (for_range ny 0 (nonlinear_problem self full_hess full_jac_dict) a1)
              (fun a2 => ret (a_sol a2))
              (appends_for_range _ ny 0 a1
                 (fun j b => nonlinear_problem_appends j b))
              (fun a2 => appends_ret not_initial (a_sol a2))
              (tr ++ initial_trace mtx rhs_of n ny)) as (evs & E & F).
  exists evs. rewrite E, <- app_assoc. auto.
Qed.

(** Without a budget the Newton loops do nothing. *)
Lemma solve_no_budget (tr : list event) :
  (max_nln_iter (sm_options self) <= 0)%Z ->
  _solve self full_hess full_jac_dict tr
  = (Ok (map sol_of (seq 0 ny)), tr ++ initial_trace mtx rhs_of n ny).
Proof.
  intros Hmax. rewrite solve_run.
  destruct (@for_range_inv _ (fun j a t =>
               a = a1 /\ t = tr ++ initial_trace mtx rhs_of n ny)
              (nonlinear_problem self full_hess full_jac_dict) ny 0%nat a1
              (tr ++ initial_trace mtx rhs_of n ny))
    as (a' & tr' & E & -> & ->).
  - auto.
  - intros j b t Hj (-> & ->).
    destruct (@Hrhs j ltac:(lia)) as (ytd & _ & Ey & _).
    unfold nonlinear_problem. rewrite (mbind_lift_Ok _ _ Ey).
    destruct (Z.ltb_spec 0 (max_nln_iter (sm_options self))); [lia|].
    replace (Z.to_nat (max_nln_iter (sm_options self))) with 0%nat by lia.
    eexists _, _. split; [reflexivity|]. auto.
  - rewrite (@mbind_Ok _ _ _ _ _ _ _ E). reflexivity.
Qed.

End Solve.

Section SolveBudget.
Context {C : Collaborators}.
Variable self : RMT.
Variables (full_hess : spmatrix) (full_jac_dict : jac_dict).
Variable sz : sizes.
Hypothesis Hnum : num self = Some sz.

Let n := num_dof sz.
Let ny := num_y sz.

Variables (mtx : linop) (rhs_of sol_of : nat -> vec).

Hypothesis Hmtx : _opt_hess_2 self full_hess full_jac_dict = Ok mtx.
Hypothesis Hrhs :
  forall y, (y < ny)%nat ->
    exists ytd g,
      _get_yt_dict self y = Ok ytd /\
      _opt_grad self (zeros n) 2 full_hess full_jac_dict ytd = Ok g /\
      rhs_of y = vneg g.
Hypothesis Hsol :
  forall y, (y < ny)%nat ->
    solver_solve mtx (rhs_of y) (zeros n) y = Ok (sol_of y).
Hypothesis keys_jac : dict_keys full_jac_dict = dict_keys (training_pts self).
Hypothesis solver_returns : solver_ok.
Hypothesis line_search_returns : line_search_ok.

(** With a budget, every output gets a first Newton iteration. *)
Lemma solve_with_budget (tr : list event) :
  (0 < max_nln_iter (sm_options self))%Z ->
  exists sols evs,
    _solve self full_hess full_jac_dict tr
    = (Ok sols, tr ++ initial_trace mtx rhs_of n ny ++ evs) /\
    forall y, (y < ny)%nat -> exists norm fval, In (Report 1 y norm fval) evs.
Proof.
  intros Hmax.
  rewrite (@solve_run C self full_hess full_jac_dict sz Hnum mtx rhs_of sol_of
             Hmtx Hrhs Hsol tr).
  fold n ny.
  set (t1 := tr ++ initial_trace mtx rhs_of n ny).
  set (a1 := {| a_rhs := map rhs_of (seq 0 ny); a_sol := map sol_of (seq 0 ny);
                a_d_sol := repeat (zeros n) ny |}).
  destruct (@for_range_inv _ (fun j a t =>
               (List.length (a_rhs a) = ny /\ List.length (a_sol a) = ny /\
                List.length (a_d_sol a) = ny) /\
               exists evs, t = t1 ++ evs /\
                 forall y, (y < j)%nat ->
                   exists norm fval, In (Report 1 y norm fval) evs)
              (nonlinear_problem self full_hess full_jac_dict) ny 0%nat a1 t1)
    as (a' & tr' & E & _ & evs & -> & Hev).
  - split.
    + unfold a1. simpl. rewrite !length_map_seq, repeat_length. auto.
    + exists []. rewrite app_nil_r. split; [reflexivity|]. intros y Hy. lia.
  - intros j b t Hj ((Lr & Ls & Ld) & evs & -> & Hev).
    destruct (@Hrhs j ltac:(lia)) as (ytd & _ & Ey & _).
    assert (Hb : has_column j b) by (unfold has_column; lia).
    destruct (@column_Some (a_sol b) j ltac:(lia)) as (x & Ex).
    pose proof (get_yt_dict_keys _ _ Ey) as Kyt.
    destruct (@report_run self full_hess full_jac_dict ytd
                (approx_norm (sm_options self)) j keys_jac Kyt 0%nat b
                (t1 ++ evs) x Ex) as (norm0 & fval0 & _ & Erep).
    destruct (@newton_loop_run C self full_hess full_jac_dict ytd
                (approx_norm (sm_options self)) j keys_jac Kyt solver_returns
                line_search_returns
                (Z.to_nat (max_nln_iter (sm_options self))) 0%nat b
                ((t1 ++ evs) ++ [Report 0 j norm0 fval0]) Hb)
      as (a' & evs' & Erun & _ & (Lr' & Ls' & Ld') & _ & Hin & _).
    unfold nonlinear_problem. rewrite (mbind_lift_Ok _ _ Ey).
    destruct (Z.ltb_spec 0 (max_nln_iter (sm_options self))); [|lia].
    unfold mbind at 1. unfold mbind at 1. rewrite Erep. unfold ret at 1.
    rewrite Erun.
    eexists _, _. split; [reflexivity|]. split; [lia|].
    exists (evs ++ [Report 0 j norm0 fval0] ++ evs').
    split; [now rewrite <- !app_assoc|].
    intros y Hy. destruct (Nat.eq_dec y j) as [->|Hne].
    + destruct Hin as (norm & fval & Hin); [lia|].
      exists norm, fval. apply in_or_app. right. apply in_or_app. now right.
    + destruct (Hev y ltac:(lia)) as (norm & fval & Hin').
      exists norm, fval. apply in_or_app. now left.
  - rewrite (@mbind_Ok _ _ _ _ _ _ _ E). unfold ret.
    exists (a_sol a'), evs. unfold t1. rewrite <- app_assoc.
    split; [reflexivity|]. intros y Hy. apply Hev. lia.
Qed.

End SolveBudget.

(** ** The instance *)

Lemma ex_fit_data (p max_iter : Z) (ext : bool) (s : option (list vec)) :
  fit_data (ex_model p max_iter ext s) 1 ex_jac_dict ex_yt_dict [(ex_J, [1])].
Proof.
  unfold fit_data. simpl. constructor; [|constructor].
  split; [|split; reflexivity].
  exists (sp_T ex_J). split; [reflexivity|]. split; [|reflexivity].
  split; [reflexivity | intros; reflexivity].
Qed.

Lemma ex_solver_ok : @solver_ok ex_collaborators.
Proof. intros mtx rhs x ind_y. eexists. reflexivity. Qed.

Lemma ex_line_search_ok : @line_search_ok ex_collaborators.
Proof. intros x d func grad alpha _ _. eexists. reflexivity. Qed.

Lemma opt_grad_is_grad_F_witness :
  shape ex_hess = (List.length [0], List.length [0]) /\
  fit_data (ex_model 4 10 false None) (List.length [0]) ex_jac_dict ex_yt_dict
    [(ex_J, [1])] /\
  _opt_grad (ex_model 4 10 false None) [0] 4 ex_hess ex_jac_dict ex_yt_dict
  = Ok (grad_F ex_hess [(ex_J, [1])] 4 [0]) /\
  _opt_norm (ex_model 4 10 false None) [0] 4 ex_hess ex_jac_dict ex_yt_dict
  = Ok (euclidean_norm (grad_F ex_hess [(ex_J, [1])] 4 [0])).
Proof.
  split; [reflexivity|]. split; [apply ex_fit_data|].
  apply (@opt_grad_is_grad_F (ex_model 4 10 false None) [0] 4 ex_hess
           ex_jac_dict ex_yt_dict [(ex_J, [1])]).
  - reflexivity.
  - apply ex_fit_data.
Defined.

Lemma opt_hess_op_is_opt_hess_mtx_witness :
  shape ex_hess = (List.length [0], List.length [0]) /\
  dict_keys ex_jac_dict = dict_keys (training_pts (ex_model 4 10 false None)) /\
  fit_data (ex_model 4 10 false None) (List.length [0]) ex_jac_dict ex_yt_dict
    [(ex_J, [1])] /\
  exists m op,
    _opt_hess_mtx (ex_model 4 10 false None) [0] 4 ex_hess ex_jac_dict ex_yt_dict
    = Ok m /\
    _opt_hess_op (ex_model 4 10 false None) [0] 4 ex_hess ex_jac_dict ex_yt_dict
    = Ok op /\
    forall v,
      linop_matvec op v = Ok (sp_matvec m v) /\
      sp_matvec m v = hess_F_action ex_hess [(ex_J, [1])] 4 [0] v.
Proof.
  split; [reflexivity|]. split; [reflexivity|]. split; [apply ex_fit_data|].
  apply (@opt_hess_op_is_opt_hess_mtx (ex_model 4 10 false None) [0] 4 ex_hess
           ex_jac_dict ex_yt_dict [(ex_J, [1])]).
  - reflexivity.
  - reflexivity.
  - apply ex_fit_data.
Defined.

Lemma newton_loop_budget_witness :
  dict_keys ex_jac_dict = dict_keys (training_pts (ex_model 4 10 false None)) /\
  _get_yt_dict (ex_model 4 10 false None) 0 = Ok ex_yt_dict /\
  @solver_ok ex_collaborators /\ @line_search_ok ex_collaborators /\
  has_column 0 ex_arrays /\
  exists a' evs,
    @newton_loop ex_collaborators (ex_model 4 10 false None) ex_hess ex_jac_dict
      4 ex_yt_dict 0 10 0 ex_arrays []
    = (Ok a', [] ++ evs) /\
    (List.length (reported_norms evs) <= 10)%nat /\
    ((List.length (reported_norms evs) < 10)%nat ->
       last (reported_norms evs) 1 < 1e-16).
Proof.
  split; [reflexivity|]. split; [reflexivity|].
  split; [exact ex_solver_ok|]. split; [exact ex_line_search_ok|].
  split; [unfold has_column, ex_arrays; simpl; lia|].
  destruct (@newton_loop_budget ex_collaborators (ex_model 4 10 false None)
              ex_hess ex_jac_dict 0 ex_yt_dict ex_arrays []
              eq_refl eq_refl ex_solver_ok ex_line_search_ok
              ltac:(unfold has_column, ex_arrays; simpl; lia))
    as (a' & evs & Erun & Hle & _ & _ & Hearly & _).
  exists a', evs. split; [exact Erun|]. split; [exact Hle | exact Hearly].
Defined.

(** C3: for every fit and whatever [max_nln_iter] is, the trace of the fit
    driver begins with the initial linear problem and no event of that
    problem follows it: the solver is initialised once with a system that
    acts as [H + Σ_k Jac_k^T Jac_k] (as a matrix or as an operator), and it
    solves once for each output dimension, from the zero vector, with the
    right-hand side [−∇F(0)] for [p = 2]. *)
Theorem initial_linear_problem_once {C : Collaborators} (self : RMT)
    (H : spmatrix) (full_jac_dict : jac_dict) (sz : sizes)
    (Js : list spmatrix) (targets : nat -> list vec) (tr : list event) :
  num self = Some sz ->
  shape H = (num_dof sz, num_dof sz) ->
  dict_keys full_jac_dict = dict_keys (training_pts self) ->
  Forall2 (holds_jac (num_dof sz) full_jac_dict) (dict_keys (training_pts self)) Js ->
  (forall ind_y, (ind_y < num_y sz)%nat ->
     exists yt_dict,
       _get_yt_dict self ind_y = Ok yt_dict /\
       fit_data self (num_dof sz) full_jac_dict yt_dict
         (combine Js (targets ind_y))) ->
  solver_ok ->
  exists mtx evs,
    _opt_hess_2 self H full_jac_dict = Ok mtx /\
    (forall v, linop_matvec mtx v = Ok (sp_matvec (gauss_newton H Js) v)) /\
    snd (_solve self H full_jac_dict tr)
    = tr ++ initial_trace mtx
              (fun ind_y =>
                 vneg (grad_F H (combine Js (targets ind_y)) 2
                         (zeros (num_dof sz))))
              (num_dof sz) (num_y sz)
         ++ evs /\
    Forall not_initial evs.
Proof.
  intros Hnum HH Hk HJ Hdata Hsolver.
  destruct (@opt_hess_2_gauss_newton self H full_jac_dict (num_dof sz) Js
              HH Hk HJ) as (mtx & Hmtx & Hact).
  set (rhs_of := fun ind_y =>
         vneg (grad_F H (combine Js (targets ind_y)) 2 (zeros (num_dof sz)))).
  set (sol_of := fun y =>
         match solver_solve mtx (rhs_of y) (zeros (num_dof sz)) y with
         | Ok s => s
         | Err _ => []
         end).
  assert (Hrhs : forall y, (y < num_y sz)%nat ->
            exists ytd g,
              _get_yt_dict self y = Ok ytd /\
              _opt_grad self (zeros (num_dof sz)) 2 H full_jac_dict ytd = Ok g /\
              rhs_of y = vneg g).
  { intros y Hy. destruct (Hdata y Hy) as (ytd & Ey & Hd).
    exists ytd, (grad_F H (combine Js (targets y)) 2 (zeros (num_dof sz))).
    split; [exact Ey|]. split; [|reflexivity].
    apply opt_grad_grad_F.
    - rewrite length_zeros. unfold nrows. now rewrite HH.
    - now rewrite length_zeros. }
  assert (Hsol : forall y, (y < num_y sz)%nat ->
            solver_solve mtx (rhs_of y) (zeros (num_dof sz)) y = Ok (sol_of y)).
  { intros y _. unfold sol_of.
    destruct (Hsolver mtx (rhs_of y) (zeros (num_dof sz)) y) as (s & ->).
    reflexivity. }
  destruct (@solve_trace C self H full_jac_dict sz Hnum mtx rhs_of sol_of
              Hmtx Hrhs Hsol tr) as (evs & E & F).
  exists mtx, evs. auto.
Qed.

(** C1, as the code has it: the Newton loops are skipped, and the initial
    linear solves alone give the coefficient matrix, exactly when
    [max_nln_iter] is not positive; [approx_norm] plays no part.  With a
    positive [max_nln_iter] every output dimension gets a first Newton
    iteration, also for [approx_norm = 2]. *)
Theorem newton_loop_skipped_without_budget {C : Collaborators} (self : RMT)
    (H : spmatrix) (full_jac_dict : jac_dict) (sz : sizes) (tr : list event) :
  num self = Some sz ->
  fit_ready self full_jac_dict (num_y sz) ->
  solver_ok -> line_search_ok ->
  exists mtx rhs_of sols,
    _opt_hess_2 self H full_jac_dict = Ok mtx /\
    (forall ind_y, (ind_y < num_y sz)%nat ->
       exists yt_dict g,
         _get_yt_dict self ind_y = Ok yt_dict /\
         _opt_grad self (zeros (num_dof sz)) 2 H full_jac_dict yt_dict = Ok g /\
         rhs_of ind_y = vneg g /\
         solver_solve mtx (rhs_of ind_y) (zeros (num_dof sz)) ind_y
         = Ok (nth ind_y sols [])) /\
    List.length sols = num_y sz /\
    ((max_nln_iter (sm_options self) <= 0)%Z ->
       _solve self H full_jac_dict tr
       = (Ok sols, tr ++ initial_trace mtx rhs_of (num_dof sz) (num_y sz))) /\
    ((0 < max_nln_iter (sm_options self))%Z ->
       exists sols' evs,
         _solve self H full_jac_dict tr
         = (Ok sols',
            tr ++ initial_trace mtx rhs_of (num_dof sz) (num_y sz) ++ evs) /\
         forall ind_y, (ind_y < num_y sz)%nat ->
           exists norm fval, In (Report 1 ind_y norm fval) evs).
Proof.
  intros Hnum [Hk Hy] Hsolver Hls.
  destruct (@opt_hess_2_ok self H full_jac_dict Hk) as (mtx & Hmtx).
  set (rhs_of := fun y =>
         match _get_yt_dict self y with
         | Ok ytd =>
             match _opt_grad self (zeros (num_dof sz)) 2 H full_jac_dict ytd with
             | Ok g => vneg g
             | Err _ => []
             end
         | Err _ => []
         end).
  set (sol_of := fun y =>
         match solver_solve mtx (rhs_of y) (zeros (num_dof sz)) y with
         | Ok s => s
         | Err _ => []
         end).
  assert (Hrhs : forall y, (y < num_y sz)%nat ->
            exists ytd g,
              _get_yt_dict self y = Ok ytd /\
              _opt_grad self (zeros (num_dof sz)) 2 H full_jac_dict ytd = Ok g /\
              rhs_of y = vneg g).
  { intros y Hlt. destruct (Hy y Hlt) as (ytd & Ey).
    destruct (@opt_grad_ok self H full_jac_dict ytd Hk
                (get_yt_dict_keys _ _ Ey) (zeros (num_dof sz)) 2) as (g & Eg).
    exists ytd, g. unfold rhs_of. rewrite Ey, Eg. auto. }
  assert (Hsol : forall y, (y < num_y sz)%nat ->
            solver_solve mtx (rhs_of y) (zeros (num_dof sz)) y = Ok (sol_of y)).
  { intros y _. unfold sol_of.
    destruct (Hsolver mtx (rhs_of y) (zeros (num_dof sz)) y) as (s & ->).
    reflexivity. }
  exists mtx, rhs_of, (map sol_of (seq 0 (num_y sz))).
  split; [exact Hmtx|]. split.
  { intros y Hlt. destruct (Hrhs y Hlt) as (ytd & g & Ey & Eg & Er).
    exists ytd, g. repeat (split; [assumption|]).
    rewrite (Hsol y Hlt). f_equal.
    rewrite (nth_indep _ [] (sol_of 0%nat)) by now rewrite length_map_seq.
    rewrite map_nth, seq_nth by exact Hlt. reflexivity. }
  split; [apply length_map_seq|]. split.
  - intros Hmax.
    apply (@solve_no_budget C self H full_jac_dict sz Hnum mtx rhs_of sol_of
             Hmtx Hrhs Hsol tr Hmax).
  - intros Hmax.
    apply (@solve_with_budget C self H full_jac_dict sz Hnum mtx rhs_of sol_of
             Hmtx Hrhs Hsol Hk Hsolver Hls tr Hmax).
Qed.

Lemma ex_holds_jac : Forall2 (holds_jac 1 ex_jac_dict) [0%Z] [ex_J].
Proof.
  constructor; [|constructor].
  exists (sp_T ex_J). split; [reflexivity|]. split; [|reflexivity].
  split; [reflexivity | intros; reflexivity].
Qed.

Lemma ex_targets (p max_iter : Z) (ext : bool) (s : option (list vec)) :
  forall ind_y, (ind_y < 1)%nat ->
    exists yt_dict,
      _get_yt_dict (ex_model p max_iter ext s) ind_y = Ok yt_dict /\
      fit_data (ex_model p max_iter ext s) 1 ex_jac_dict yt_dict
        (combine [ex_J] [[1]]).
Proof.
  intros ind_y Hy. assert (ind_y = 0%nat) as -> by lia.
  exists ex_yt_dict. split; [reflexivity | apply ex_fit_data].
Qed.

Lemma ex_fit_ready (p max_iter : Z) (ext : bool) (s : option (list vec)) :
  fit_ready (ex_model p max_iter ext s) ex_jac_dict 1.
Proof.
  split; [reflexivity|]. intros ind_y Hy.
  destruct (ex_targets p max_iter ext s Hy) as (ytd & E & _). eauto.
Qed.

Lemma initial_linear_problem_once_witness :
  num (ex_model 4 10 false None) = Some ex_sizes /\
  shape ex_hess = (num_dof ex_sizes, num_dof ex_sizes) /\
  dict_keys ex_jac_dict = dict_keys (training_pts (ex_model 4 10 false None)) /\
  @solver_ok ex_collaborators /\
  exists mtx evs,
    _opt_hess_2 (ex_model 4 10 false None) ex_hess ex_jac_dict = Ok mtx /\
    snd (@_solve ex_collaborators (ex_model 4 10 false None) ex_hess
           ex_jac_dict [])
    = [] ++ initial_trace mtx
              (fun ind_y => vneg (grad_F ex_hess (combine [ex_J] [[1]]) 2 (zeros 1)))
              1 1
         ++ evs /\
    Forall not_initial evs.
Proof.
  split; [reflexivity|]. split; [reflexivity|]. split; [reflexivity|].
  split; [exact ex_solver_ok|].
  destruct (@initial_linear_problem_once ex_collaborators
              (ex_model 4 10 false None) ex_hess ex_jac_dict ex_sizes [ex_J]
              (fun _ => [[1]]) [] eq_refl eq_refl eq_refl ex_holds_jac
              (ex_targets 4 10 false None) ex_solver_ok)
    as (mtx & evs & Hm & _ & Htr & Hev).
  exists mtx, evs. auto.
Defined.

Lemma newton_loop_skipped_without_budget_witness :
  num (ex_model 4 0 false None) = Some ex_sizes /\
  fit_ready (ex_model 4 0 false None) ex_jac_dict (num_y ex_sizes) /\
  @solver_ok ex_collaborators /\ @line_search_ok ex_collaborators /\
  exists mtx rhs_of sols,
    _opt_hess_2 (ex_model 4 0 false None) ex_hess ex_jac_dict = Ok mtx /\
    ((max_nln_iter (sm_options (ex_model 4 0 false None)) <= 0)%Z ->
     @_solve ex_collaborators (ex_model 4 0 false None) ex_hess ex_jac_dict []
     = (Ok sols, [] ++ initial_trace mtx rhs_of 1 1)).
Proof.
  split; [reflexivity|]. split; [apply ex_fit_ready|].
  split; [exact ex_solver_ok|]. split; [exact ex_line_search_ok|].
  destruct (@newton_loop_skipped_without_budget ex_collaborators
              (ex_model 4 0 false None) ex_hess ex_jac_dict ex_sizes []
              eq_refl (ex_fit_ready 4 0 false None) ex_solver_ok
              ex_line_search_ok)
    as (mtx & rhs_of & sols & Hm & _ & _ & Hskip & _).
  exists mtx, rhs_of, sols. auto.
Defined.

Lemma reported_norms_In (tr : list event) (k y : nat) (norm fval : R) :
  In (Report (S k) y norm fval) tr -> reported_norms tr <> [].
Proof.
  induction tr as [|e tr IH]; [contradiction|].
  intros [->|Hin]; simpl; [discriminate|].
  destruct e as [| | |[|itn] y' nrm fv]; auto; discriminate.
Qed.

(** C1 as the claim states it fails: with [approx_norm = 2] and
    [max_nln_iter = 1] the fit driver of the instance executes a Newton
    iteration. *)
Lemma newton_loop_runs_for_norm_2 :
  approx_norm (sm_options (ex_model 2 1 false None)) = 2%Z /\
  (0 < max_nln_iter (sm_options (ex_model 2 1 false None)))%Z /\
  newton_iterations
    (snd (@_solve ex_collaborators (ex_model 2 1 false None) ex_hess
            ex_jac_dict []))
  <> 0%nat.
Proof.
  split; [reflexivity|]. split; [reflexivity|].
  destruct (@opt_hess_2_ok (ex_model 2 1 false None) ex_hess ex_jac_dict eq_refl)
    as (mtx & Hmtx).
  set (rhs_of := fun _ : nat =>
         vneg (grad_F ex_hess [(ex_J, [1])] 2 (zeros 1))).
  destruct (@solve_with_budget ex_collaborators (ex_model 2 1 false None)
              ex_hess ex_jac_dict ex_sizes eq_refl mtx rhs_of rhs_of Hmtx)
    with (tr := @nil event) as (sols & evs & E & Hin).
  - intros y Hy. assert (y = 0%nat) as -> by (simpl in Hy; lia).
    exists ex_yt_dict, (grad_F ex_hess [(ex_J, [1])] 2 (zeros 1)).
    split; [reflexivity|]. split; [|reflexivity].
    apply opt_grad_grad_F; [reflexivity | apply ex_fit_data].
  - intros y _. reflexivity.
  - reflexivity.
  - exact ex_solver_ok.
  - exact ex_line_search_ok.
  - reflexivity.
  - rewrite E. simpl snd. unfold newton_iterations.
    destruct (Hin 0%nat ltac:(simpl; lia)) as (norm & fval & Hr).
    pose proof (reported_norms_In _ _ _ _ _ Hr) as Hne.
    simpl. destruct (reported_norms evs); [contradiction | discriminate].
Qed.

(** ** The evaluator *)

(** [evaluate] reads [self.sol] in its last line only: either it raises
    before, the same exception whatever [self.sol] is, or it comes to the
    product of one matrix with [self.sol]. *)
Lemma evaluate_sol_cases {C : Collaborators} (self : RMT) (x : list vec)
    (kx : option Z) :
  (exists e, evaluate self x kx = Err e /\
             forall s, evaluate (with_sol s self) x kx = Err e) \/
  (exists mtx,
     evaluate self x kx = (s <- get_sol self ;; Ok (map (sp_matvec mtx) s)) /\
     forall s, evaluate (with_sol s self) x kx = Ok (map (sp_matvec mtx) s)).
Proof.
  unfold evaluate, get_num.
  change (extrapolation (with_sol ?s self)) with (extrapolation self).
  cbn [with_sol num sol sm_options get_sol].
  destruct (num self) as [sz|]; cbn [bind];
    [|left; eexists; split; [reflexivity | intros s; reflexivity]].
  destruct (if extrapolate (sm_options self)
            then extrapolation self (List.length x) sz x kx (_compute_jac kx 0 x)
            else Ok (_compute_jac kx 0 x)) as [[[data rows] cols]|e];
    cbn [bind]; [|left; eexists; split; [reflexivity | intros s; reflexivity]].
  destruct (csc_matrix data rows cols (List.length x, num_coeff sz)) as [mtx|e];
    cbn [bind]; [|left; eexists; split; [reflexivity | intros s; reflexivity]].
  right. exists mtx. split; [reflexivity | intros s; reflexivity].
Qed.

(** C8, as the code has it: on an instance on which no successful fit has
    completed, [evaluate] returns no prediction, for every array of query
    points and every derivative index: it raises.  When [self.num] is
    unassigned the exception is the [AttributeError] for [num].  When
    [self.sol] is unassigned, [evaluate] raises the [AttributeError] for
    [sol] exactly where it would return with coefficients in place, and
    otherwise the exception it raises with coefficients in place as well.
    So the exception is a [NotFittedError] or one that [evaluate] raises
    whatever the coefficients are. *)
Theorem evaluate_unfitted {C : Collaborators} (self : RMT) (x : list vec)
    (kx : option Z) :
  UNFITTED self ->
  (exists e, evaluate self x kx = Err e) /\
  (num self = None -> evaluate self x kx = Err (AttributeError "num")) /\
  (sol self = None -> forall s,
     match evaluate (with_sol s self) x kx with
     | Ok _ => evaluate self x kx = Err (AttributeError "sol")
     | Err e => evaluate self x kx = Err e
     end) /\
  (forall e, evaluate self x kx = Err e ->
     NotFittedError e \/ forall s, evaluate (with_sol s self) x kx = Err e).
Proof.
  intros Hu.
  assert (Hnum : num self = None -> evaluate self x kx = Err (AttributeError "num")).
  { intros Hn. unfold evaluate, get_num. rewrite Hn. reflexivity. }
  destruct (evaluate_sol_cases self x kx) as [(e0 & He0 & Hall)|(mtx & Hm & Hall)].
  - split; [now exists e0|]. split; [exact Hnum|]. split.
    + intros _ s. rewrite (Hall s). exact He0.
    + intros e He. right. intros s. rewrite (Hall s).
      rewrite He0 in He. exact He.
  - assert (Hs : sol self = None).
    { destruct Hu as [Hn|Hs]; [|exact Hs].
      specialize (Hnum Hn). rewrite Hm in Hnum. unfold get_sol in Hnum.
      destruct (sol self); [discriminate | reflexivity]. }
    assert (He : evaluate self x kx = Err (AttributeError "sol")).
    { rewrite Hm. unfold get_sol. rewrite Hs. reflexivity. }
    split; [now exists (AttributeError "sol")|]. split; [exact Hnum|]. split.
    + intros _ s. rewrite (Hall s). exact He.
    + intros e He'. left. right. rewrite He in He'. now inversion He'.
Qed.

Lemma evaluate_unfitted_witness :
  UNFITTED ex3_model /\
  @evaluate ex_collaborators ex3_model [[0.5]] (Some 0%Z)
  = Err (AttributeError "sol").
Proof.
  split; [right; reflexivity|].
  destruct (@evaluate_unfitted ex_collaborators ex3_model [[0.5]] (Some 0%Z)
              (or_intror eq_refl)) as (_ & _ & H & _).
  exact (H eq_refl [[1]]).
Defined.

(** C8 as the claim states it fails: the fit of this instance stops at an
    assertion of its builder, the training point [2] lying above the bound
    [1], so no successful fit has completed on it; [self.num] is assigned
    and [self.sol] is not.  With the option [extrapolate], [evaluate] at
    the derivative index [None] raises the [TypeError] of [kx-1] before it
    reads [self.sol], and that is no [NotFittedError]. *)
Lemma evaluate_after_failed_fit :
  fst (@_fit ex_collaborators (with_extrapolate true ex3_model) [])
  = Err (AssertionError (Training_pts_above_max_for 0)) /\
  UNFITTED (with_extrapolate true ex3_model) /\
  @evaluate ex_collaborators (with_extrapolate true ex3_model) [[0.5]] None
  = Err TypeError /\
  ~ NotFittedError TypeError.
Proof.
  split; [|split; [right; reflexivity|split; [reflexivity|]]].
  - unfold _fit, mbind, lift, _compute_approx_terms. simpl.
    unfold approx_term. simpl. unfold Rleb.
    destruct (Rle_dec 0 2) as [_|Hn]; [|exfalso; lra].
    destruct (Rle_dec 2 1) as [Hn|_]; [exfalso; lra|].
    reflexivity.
  - intros [H|H]; discriminate H.
Qed.

Lemma first_order_term_None {C : Collaborators} (x : list vec) (dx isexternal : list vec)
    (ix : nat) :
  (ix < List.length dx)%nat ->
  first_order_term x None dx isexternal ix = Err TypeError.
Proof.
  intros Hix. unfold first_order_term.
  destruct (_compute_jac None (ix + 1) x) as [[data_tmp rows] cols].
  destruct (column_Some dx Hix) as (c & ->). reflexivity.
Qed.

Lemma first_order_term_0 {C : Collaborators} (x : list vec) (dx isexternal : list vec)
    (ix : nat) (dx_ix : vec) :
  column dx ix = Ok dx_ix ->
  first_order_term x (Some 0%Z) dx isexternal ix
  = Ok (vmul (fst (fst (_compute_jac (Some 0%Z) (ix + 1) x))) dx_ix,
        snd (fst (_compute_jac (Some 0%Z) (ix + 1) x)),
        snd (_compute_jac (Some 0%Z) (ix + 1) x)).
Proof.
  intros E. unfold first_order_term.
  destruct (_compute_jac (Some 0%Z) (ix + 1) x) as [[data_tmp rows] cols].
  rewrite E. reflexivity.
Qed.

(** C10: with extrapolation enabled, [evaluate] with the derivative index
    [None] takes the branch [kx != 0] in the first iteration over the
    input dimensions and fails there with a [TypeError], at [kx - 1]; it
    returns no prediction.  With [kx = 0] the branch is skipped: every
    first-order term is the Jacobian term times the offset. *)
Theorem evaluate_None_extrapolate {C : Collaborators} (self : RMT) (sz : sizes)
    (x : list vec) :
  num self = Some sz ->
  extrapolate (sm_options self) = true ->
  (0 < num_x sz)%nat ->
  (0 < List.length
         (compute_ext_dist (num_x sz) (List.length x)
            (List.length x * num_support sz) (xlimits (sm_options self)) x))%nat ->
  py_ne_0 None = true /\
  evaluate self x None = Err TypeError /\
  forall dx isexternal ix dx_ix,
    column dx ix = Ok dx_ix ->
    first_order_term x (Some 0%Z) dx isexternal ix
    = Ok (vmul (fst (fst (_compute_jac (Some 0%Z) (ix + 1) x))) dx_ix,
          snd (fst (_compute_jac (Some 0%Z) (ix + 1) x)),
          snd (_compute_jac (Some 0%Z) (ix + 1) x)).
Proof.
  intros Hnum Hext Hnx Hdx. split; [reflexivity|]. split.
  - unfold evaluate, get_num. rewrite Hnum, Hext. simpl bind.
    unfold extrapolation.
    destruct (num_x sz) as [|k]; [lia|].
    destruct (_compute_jac None 0 x) as [[data rows] cols].
    cbn [seq for_in]. rewrite first_order_term_None by exact Hdx.
    reflexivity.
  - intros dx isexternal ix dx_ix E. now apply first_order_term_0.
Qed.

Lemma evaluate_None_extrapolate_witness :
  num (ex_model 4 10 true (Some [[1]])) = Some ex_sizes /\
  extrapolate (sm_options (ex_model 4 10 true (Some [[1]]))) = true /\
  (0 < num_x ex_sizes)%nat /\
  @evaluate ex_collaborators (ex_model 4 10 true (Some [[1]])) [[0.5]] None
  = Err TypeError.
Proof.
  split; [reflexivity|]. split; [reflexivity|]. split; [simpl; lia|].
  apply (@evaluate_None_extrapolate ex_collaborators
           (ex_model 4 10 true (Some [[1]])) ex_sizes [[0.5]]
           eq_refl eq_refl); simpl; lia.
Defined.

Lemma column_as_bool_float (dx : list vec) (j : nat) :
  column (as_bool_float dx) j
  = (c <- column dx j ;; Ok (map (fun d => if Req_dec_T d 0 then 0 else 1) c)).
Proof.
  unfold column, as_bool_float, vec in *. rewrite nth_error_map.
  destruct (nth_error dx j); simpl; reflexivity.
Qed.

Lemma py_column_as_bool_float (dx : list vec) (j : Z) :
  py_column (as_bool_float dx) j
  = (c <- py_column dx j ;; Ok (map (fun d => if Req_dec_T d 0 then 0 else 1) c)).
Proof.
  unfold py_column.
  replace (List.length (as_bool_float dx)) with (List.length dx)
    by (unfold as_bool_float; now rewrite length_map).
  destruct (Z.leb 0 j && Z.ltb j (Z.of_nat (List.length dx)))%bool;
    [apply column_as_bool_float|].
  destruct (Z.leb (- Z.of_nat (List.length dx)) j && Z.ltb j 0)%bool;
    [apply column_as_bool_float | reflexivity].
Qed.

(** The value of [data_tmp] at [data += data_tmp] for a derivative. *)
Lemma first_order_term_value {C : Collaborators} (x : list vec) (k : Z)
    (dx : list vec) (ix : nat) (dx_ix off : vec) :
  k <> 0%Z ->
  column dx ix = Ok dx_ix ->
  py_column dx (k - 1) = Ok off ->
  first_order_term x (Some k) dx (as_bool_float dx) ix
  = Ok (vmul (vmul (fst (fst (_compute_jac (Some k) (ix + 1) x))) dx_ix)
          (map (fun b => 1 - b)
             (map (fun d => if Req_dec_T d 0 then 0 else 1) off)),
        snd (fst (_compute_jac (Some k) (ix + 1) x)),
        snd (_compute_jac (Some k) (ix + 1) x)).
Proof.
  intros Hk Ec Eo. unfold first_order_term.
  destruct (_compute_jac (Some k) (ix + 1) x) as [[tmp rows] cols].
  simpl. rewrite Ec. simpl.
  destruct (Z.eqb_spec k 0) as [|_]; [contradiction|]. simpl.
  rewrite py_column_as_bool_float, Eo. reflexivity.
Qed.

(** C2, as the code has it: when the requested output is the derivative
    [kx <> 0], the first-order correction term of every input dimension
    [ix] is zeroed at the entries whose offset along the dimension of the
    derivative, the column [kx - 1] of [dx], is nonzero; elsewhere it is
    the Jacobian term times the offset along [ix]. *)
Theorem first_order_term_zeroed {C : Collaborators} (x : list vec) (k : Z)
    (dx : list vec) (ix : nat) (dx_ix off : vec) :
  k <> 0%Z ->
  column dx ix = Ok dx_ix ->
  py_column dx (k - 1) = Ok off ->
  List.length dx_ix = List.length (fst (fst (_compute_jac (Some k) (ix + 1) x))) ->
  List.length off = List.length (fst (fst (_compute_jac (Some k) (ix + 1) x))) ->
  exists data,
    first_order_term x (Some k) dx (as_bool_float dx) ix
    = Ok (data, snd (fst (_compute_jac (Some k) (ix + 1) x)),
          snd (_compute_jac (Some k) (ix + 1) x)) /\
    List.length data = List.length (fst (fst (_compute_jac (Some k) (ix + 1) x))) /\
    forall t, (t < List.length data)%nat ->
      vnth data t
      = if Req_dec_T (vnth off t) 0
        then vnth (fst (fst (_compute_jac (Some k) (ix + 1) x))) t * vnth dx_ix t
        else 0.
Proof.
  intros Hk Ec Eo Hl1 Hl2.
  rewrite (@first_order_term_value C x k dx ix dx_ix off Hk Ec Eo).
  set (tmp := fst (fst (_compute_jac (Some k) (ix + 1) x))) in *.
  eexists. split; [reflexivity|].
  assert (Hlen : List.length
            (vmul (vmul tmp dx_ix)
               (map (fun b => 1 - b)
                  (map (fun d => if Req_dec_T d 0 then 0 else 1) off)))
          = List.length tmp).
  { unfold vmul. rewrite !length_vmap2, !length_map, Hl1, Hl2.
    now rewrite !Nat.min_id. }
  split; [exact Hlen|]. rewrite Hlen. intros t Ht.
  unfold vmul. rewrite vnth_vmap2.
  - rewrite vnth_vmap2 by lia.
    rewrite vnth_map by (rewrite length_map; lia).
    rewrite vnth_map by lia.
    destruct (Req_dec_T (vnth off t) 0); ring.
  - rewrite length_vmap2. lia.
  - rewrite !length_map. lia.
Qed.

Lemma first_order_term_zeroed_witness :
  1%Z <> 0%Z /\
  column ex2_dx 1 = Ok [5] /\
  py_column ex2_dx (1 - 1) = Ok [3] /\
  exists data,
    @first_order_term ex2_collaborators [[2; 2]] (Some 1%Z) ex2_dx
      (as_bool_float ex2_dx) 1
    = Ok (data, [0%nat], [0%nat]) /\
    forall t, (t < List.length data)%nat ->
      vnth data t = if Req_dec_T (vnth [3] t) 0 then vnth [1] t * vnth [5] t else 0.
Proof.
  split; [discriminate|]. split; [reflexivity|]. split; [reflexivity|].
  destruct (@first_order_term_zeroed ex2_collaborators [[2; 2]] 1 ex2_dx 1
              [5] [3] ltac:(discriminate) eq_refl eq_refl eq_refl eq_refl)
    as (data & E & _ & Hd).
  exists data. split; [exact E | exact Hd].
Defined.

(** C2 as the claim states it fails: for the derivative [kx = 1] at a
    point that is outside the domain in both dimensions, the correction
    terms of both dimensions are zeroed, though the Jacobian term times
    the offset is [1 * 3] for the first and [1 * 5] for the second: the
    term of a dimension other than that of the derivative is zeroed too. *)
Lemma other_dimension_zeroed :
  (forall ix, (ix < 2)%nat ->
     exists data,
       @first_order_term ex2_collaborators [[2; 2]] (Some 1%Z) ex2_dx
         (as_bool_float ex2_dx) ix
       = Ok (data, [0%nat], [0%nat]) /\
       vnth data 0 = 0) /\
  vnth (fst (fst (@_compute_jac ex2_collaborators (Some 1%Z) (0 + 1) [[2; 2]]))) 0
    * vnth [3] 0 <> 0 /\
  vnth (fst (fst (@_compute_jac ex2_collaborators (Some 1%Z) (1 + 1) [[2; 2]]))) 0
    * vnth [5] 0 <> 0.
Proof.
  split; [|split; simpl; unfold vnth; simpl; lra].
  intros ix Hix.
  assert (Hc : exists dx_ix, column ex2_dx ix = Ok dx_ix /\ List.length dx_ix = 1%nat).
  { destruct ix as [|[|ix]]; [exists [3] | exists [5] | lia]; auto. }
  destruct Hc as (dx_ix & Ec & Hl).
  rewrite (@first_order_term_value ex2_collaborators [[2; 2]] 1 ex2_dx ix
             dx_ix [3] ltac:(discriminate) Ec eq_refl).
  eexists. split; [reflexivity|].
  destruct dx_ix as [|d [|d' dx_ix]]; simpl in Hl; try lia.
  unfold vnth. simpl. destruct (Req_dec_T 3 0); [lra | ring].
Qed.

(** ** Extrapolation at a point without offset (claim C9) *)

Lemma vnth_overflow (v : vec) (t : nat) :
  (List.length v <= t)%nat -> vnth v t = 0.
Proof. intros H. unfold vnth. now apply nth_overflow. Qed.

Lemma vnth_vmul_zero_r (u w : vec) (t : nat) :
  vnth w t = 0 -> vnth (vmul u w) t = 0.
Proof.
  intros Hw. unfold vmul.
  destruct (Nat.lt_ge_cases t (Nat.min (List.length u) (List.length w))) as [Hlt|Hge].
  - rewrite vnth_vmap2 by lia. rewrite Hw. ring.
  - apply vnth_overflow. now rewrite length_vmap2.
Qed.

Lemma vnth_vmul_zero_l (u w : vec) (t : nat) :
  vnth u t = 0 -> vnth (vmul u w) t = 0.
Proof.
  intros Hu. unfold vmul.
  destruct (Nat.lt_ge_cases t (Nat.min (List.length u) (List.length w))) as [Hlt|Hge].
  - rewrite vnth_vmap2 by lia. rewrite Hu. ring.
  - apply vnth_overflow. now rewrite length_vmap2.
Qed.

Lemma column_In (a : list vec) (j : nat) (c : vec) :
  column a j = Ok c -> In c a.
Proof.
  unfold column. destruct (nth_error a j) as [c'|] eqn:E; [|discriminate].
  intros H. inversion H; subst. eapply nth_error_In; eauto.
Qed.

Lemma py_column_valid (a : list vec) (j : Z) :
  (- Z.of_nat (List.length a) <= j < Z.of_nat (List.length a))%Z ->
  exists c, py_column a j = Ok c /\ In c a.
Proof.
  intros Hj. unfold py_column.
  destruct (Z.leb_spec 0 j); destruct (Z.ltb_spec j (Z.of_nat (List.length a)));
    simpl; try lia.
  - destruct (@column_Some a (Z.to_nat j) ltac:(lia)) as (c & E).
    exists c. split; [exact E | eapply column_In; eauto].
  - destruct (Z.leb_spec (- Z.of_nat (List.length a)) j);
      destruct (Z.ltb_spec j 0); simpl; try lia.
    destruct (@column_Some a (Z.to_nat (j + Z.of_nat (List.length a))) ltac:(lia))
      as (c & E).
    exists c. split; [exact E | eapply column_In; eauto].
Qed.

Section ZeroOffset.
Context {C : Collaborators}.
Variables (x : list vec) (k : Z) (nx : nat) (rows cols : list nat).
Variables (shp : nat * nat) (dx : list vec).

Hypothesis pattern : jac_pattern x (Some k) nx rows cols shp.
Hypothesis dx_ok : dx_shape dx nx (List.length rows).
Hypothesis k_ok :
  k = 0%Z \/ (- Z.of_nat nx <= k - 1 < Z.of_nat nx)%Z.

(** A first-order term vanishes where the offsets are zero. *)
Lemma first_order_term_zero_offset (ix : nat) :
  (ix < nx)%nat ->
  exists term,
    first_order_term x (Some k) dx (as_bool_float dx) ix = Ok (term, rows, cols) /\
    List.length term = List.length rows /\
    forall t, zero_offset dx t -> vnth term t = 0.
Proof.
  intros Hix.
  destruct pattern as (_ & _ & _ & Hpat).
  destruct (Hpat (ix + 1)%nat ltac:(lia)) as (Hr & Hc & Hl).
  destruct dx_ok as (Hdx & Hcol).
  destruct (@column_Some dx ix ltac:(lia)) as (dx_ix & Ec).
  pose proof (column_In _ _ Ec) as Hin.
  assert (Hlx : List.length dx_ix = List.length rows).
  { rewrite Forall_forall in Hcol. now apply Hcol. }
  destruct (Z.eq_dec k 0) as [->|Hk].
  - rewrite (first_order_term_0 x dx (as_bool_float dx) ix Ec), Hr, Hc.
    eexists. split; [reflexivity|]. split.
    + unfold vmul. rewrite length_vmap2, Hl, Hlx. apply Nat.min_id.
    + intros t Ht. apply vnth_vmul_zero_r. now apply Ht.
  - destruct k_ok as [|Hrange]; [contradiction|].
    rewrite <- Hdx in Hrange.
    destruct (@py_column_valid dx (k - 1)%Z Hrange) as (off & Eo & Hino).
    rewrite (@first_order_term_value C x k dx ix dx_ix off Hk Ec Eo), Hr, Hc.
    eexists. split; [reflexivity|]. split.
    + unfold vmul. rewrite !length_vmap2, !length_map, Hl, Hlx.
      rewrite Forall_forall in Hcol. rewrite (Hcol off Hino).
      now rewrite !Nat.min_id.
    + intros t Ht. apply vnth_vmul_zero_l, vnth_vmul_zero_r. now apply Ht.
Qed.

(** The loop over the input dimensions keeps the pattern and the entries
    without offset. *)
Lemma extrapolation_loop (ixs : list nat) (data : vec) :
  Forall (fun ix => (ix < nx)%nat) ixs ->
  List.length data = List.length rows ->
  exists data',
    for_in ixs (fun ix '(data, rows, cols) =>
      '(data_tmp, rows, cols) <-
        first_order_term x (Some k) dx (as_bool_float dx) ix ;;
      Ok (vadd data data_tmp, rows, cols)) (data, rows, cols)
    = Ok (data', rows, cols) /\
    List.length data' = List.length rows /\
    forall t, zero_offset dx t -> vnth data' t = vnth data t.
Proof.
  intros Hixs. revert data.
  induction Hixs as [|ix ixs Hix _ IH]; intros data Hl; cbn [for_in].
  - exists data. auto.
  - destruct (first_order_term_zero_offset Hix) as (term & -> & Hlt & Hz).
    cbn [bind].
    assert (Hla : List.length (vadd data term) = List.length rows).
    { unfold vadd. rewrite length_vmap2, Hl, Hlt. apply Nat.min_id. }
    destruct (IH (vadd data term) Hla) as (data' & E & Hl' & Hz').
    exists data'. split; [exact E|]. split; [exact Hl'|].
    intros t Ht. rewrite (Hz' t Ht).
    destruct (Nat.lt_ge_cases t (List.length rows)) as [Hlt'|Hge].
    + unfold vadd. rewrite vnth_vmap2 by lia. rewrite (Hz t Ht). ring.
    + rewrite !vnth_overflow by lia. reflexivity.
Qed.

End ZeroOffset.

Lemma forallb_ltb (l : list nat) (m : nat) :
  Forall (fun r => (r < m)%nat) l -> forallb (fun r => Nat.ltb r m) l = true.
Proof.
  intros H. apply forallb_forall. rewrite Forall_forall in H.
  intros r Hr. apply Nat.ltb_lt. now apply H.
Qed.

Lemma csc_matrix_ok (data : vec) (rows cols : list nat) (shp : nat * nat) :
  List.length data = List.length rows ->
  List.length cols = List.length rows ->
  Forall (fun r => (r < fst shp)%nat) rows ->
  Forall (fun c => (c < snd shp)%nat) cols ->
  csc_matrix data rows cols shp = Ok (mk_spmatrix shp (coo_entry data rows cols)).
Proof.
  intros Hd Hc Hr Hcs. unfold csc_matrix.
  rewrite Hd, Hc, Nat.eqb_refl, (forallb_ltb Hr), (forallb_ltb Hcs).
  reflexivity.
Qed.

(** The entries of the row [i] only depend on the triplets of that row. *)
Lemma coo_entry_row (i j : nat) (rows cols : list nat) (data data' : vec) :
  List.length data = List.length rows ->
  List.length data' = List.length rows ->
  (forall t, (t < List.length rows)%nat -> nth t rows 0%nat = i ->
     vnth data' t = vnth data t) ->
  coo_entry data' rows cols i j = coo_entry data rows cols i j.
Proof.
  revert cols data data'.
  induction rows as [|r rows IH]; intros cols data data' Hd Hd' H.
  - destruct data, data'; try discriminate. reflexivity.
  - destruct data as [|d data]; [discriminate|].
    destruct data' as [|d' data']; [discriminate|].
    destruct cols as [|c cols]; [reflexivity|]. simpl.
    rewrite (IH cols data data').
    + f_equal. destruct (Nat.eqb_spec r i) as [Hri|]; [|reflexivity].
      simpl. destruct (Nat.eqb c j); [|reflexivity].
      apply (H 0%nat); [simpl; lia | exact Hri].
    + simpl in Hd. lia.
    + simpl in Hd'. lia.
    + intros t Ht Hrt. apply (H (S t)); [simpl; lia | exact Hrt].
Qed.

(** C9: for every fitted model and every integer derivative index that
    the evaluator accepts, at a query point [i] whose Jacobian entries have
    no offset to the domain (in particular a point on the boundary),
    [evaluate] with extrapolation returns the prediction that [evaluate]
    without extrapolation returns.  The assembler is taken to return one
    sparsity pattern for all the terms it is asked for at [x], and [dx] to
    have an offset per Jacobian entry and input dimension. *)
Theorem extrapolation_continuity {C : Collaborators} (self : RMT) (sz : sizes)
    (s : list vec) (x : list vec) (k : Z) (rows cols : list nat) (i : nat) :
  num self = Some sz ->
  sol self = Some s ->
  (k = 0%Z \/ (- Z.of_nat (num_x sz) <= k - 1 < Z.of_nat (num_x sz))%Z) ->
  jac_pattern x (Some k) (num_x sz) rows cols (List.length x, num_coeff sz) ->
  dx_shape
    (compute_ext_dist (num_x sz) (List.length x) (List.length x * num_support sz)
       (xlimits (sm_options self)) x)
    (num_x sz) (List.length rows) ->
  (i < List.length x)%nat ->
  (forall t, (t < List.length rows)%nat -> nth t rows 0%nat = i ->
     zero_offset
       (compute_ext_dist (num_x sz) (List.length x)
          (List.length x * num_support sz) (xlimits (sm_options self)) x) t) ->
  exists y_ext y_in,
    evaluate (with_extrapolate true self) x (Some k) = Ok y_ext /\
    evaluate (with_extrapolate false self) x (Some k) = Ok y_in /\
    prediction_at y_ext i = prediction_at y_in i.
Proof.
  intros Hnum Hsol Hk Hpat Hdx Hi Hzero.
  set (dx := compute_ext_dist (num_x sz) (List.length x)
               (List.length x * num_support sz) (xlimits (sm_options self)) x)
    in *.
  pose proof Hpat as (Hlc & Hrows & Hcols & Hcalls).
  destruct (Hcalls 0%nat ltac:(lia)) as (Hr0 & Hc0 & Hl0).
  destruct (@extrapolation_loop C x k (num_x sz) rows cols
              (List.length x, num_coeff sz) dx Hpat Hdx Hk
              (seq 0 (num_x sz)) (fst (fst (_compute_jac (Some k) 0 x))))
    as (data' & Eloop & Hl' & Hsame).
  { apply Forall_forall. intros ix Hin. apply in_seq in Hin. lia. }
  { exact Hl0. }
  exists (map (sp_matvec (mk_spmatrix (List.length x, num_coeff sz)
                            (coo_entry data' rows cols))) s),
         (map (sp_matvec (mk_spmatrix (List.length x, num_coeff sz)
                            (coo_entry (fst (fst (_compute_jac (Some k) 0 x)))
                               rows cols))) s).
  split; [|split].
  - unfold evaluate, get_num, get_sol. simpl. rewrite Hnum, Hsol. simpl.
    unfold extrapolation. simpl. fold dx.
    destruct (_compute_jac (Some k) 0 x) as [[data0 r0] c0] eqn:E0.
    simpl in *. subst r0 c0. rewrite Eloop. simpl.
    rewrite csc_matrix_ok by assumption. reflexivity.
  - unfold evaluate, get_num, get_sol. simpl. rewrite Hnum, Hsol. simpl.
    destruct (_compute_jac (Some k) 0 x) as [[data0 r0] c0] eqn:E0.
    simpl in *. subst r0 c0.
    rewrite csc_matrix_ok by assumption. reflexivity.
  - unfold prediction_at. rewrite !map_map. apply map_ext. intros c.
    rewrite !vnth_sp_matvec by exact Hi.
    apply rsum_ext. intros j _. simpl. f_equal.
    apply coo_entry_row; try assumption.
    intros t Ht Hrt. apply Hsame. now apply Hzero.
Qed.

Lemma extrapolation_continuity_witness :
  num (ex_model 4 10 false (Some [[1]])) = Some ex_sizes /\
  sol (ex_model 4 10 false (Some [[1]])) = Some [[1]] /\
  (0 < List.length [[1]])%nat /\
  exists y_ext y_in,
    @evaluate ex_collaborators
      (with_extrapolate true (ex_model 4 10 false (Some [[1]]))) [[1]] (Some 1%Z)
    = Ok y_ext /\
    @evaluate ex_collaborators
      (with_extrapolate false (ex_model 4 10 false (Some [[1]]))) [[1]] (Some 1%Z)
    = Ok y_in /\
    prediction_at y_ext 0 = prediction_at y_in 0.
Proof.
  split; [reflexivity|]. split; [reflexivity|]. split; [simpl; lia|].
  apply (@extrapolation_continuity ex_collaborators
           (ex_model 4 10 false (Some [[1]])) ex_sizes [[1]] [[1]] 1
           [0%nat] [0%nat] 0 eq_refl eq_refl).
  - right. simpl. lia.
  - split; [reflexivity|]. split; [repeat constructor|].
    split; [repeat constructor|]. intros ix2 _. repeat split.
  - split; [reflexivity|]. repeat constructor.
  - simpl. lia.
  - intros t _ _ c Hc. simpl in Hc. destruct Hc as [<-|[]].
    unfold vnth. destruct t as [|[|t]]; reflexivity.
Defined.

(** ** The bounds of the training points (claim C5) *)

Lemma Rleb_false (a b : R) : Rleb a b = false <-> b < a.
Proof. unfold Rleb. destruct (Rle_dec a b); split; intros; try lra; discriminate. Qed.

Lemma np_all_le_false (u v : vec) :
  np_all_le u v = false <->
  exists j, (j < List.length u)%nat /\ (j < List.length v)%nat /\ vnth v j < vnth u j.
Proof.
  revert v. induction u as [|a u IH]; intros [|b v]; simpl.
  - split; [discriminate | intros (j & Hj & _); lia].
  - split; [discriminate | intros (j & Hj & _); lia].
  - split; [discriminate | intros (j & _ & Hj & _); lia].
  - rewrite andb_false_iff, Rleb_false, IH. split.
    + intros [Hab|(j & Hu & Hv & Hlt)].
      * exists 0%nat. repeat split; try lia. exact Hab.
      * exists (S j). repeat split; try lia. exact Hlt.
    + intros ([|j] & Hu & Hv & Hlt).
      * left. exact Hlt.
      * right. exists j. repeat split; try lia. exact Hlt.
Qed.

Lemma fold_Rmin_le (l : list R) (a y : R) :
  In y (a :: l) -> fold_left Rmin l a <= y.
Proof.
  revert a y. induction l as [|b l IH]; intros a y; simpl.
  - intros [->|[]]. lra.
  - intros [->|[->|Hin]].
    + apply Rle_trans with (Rmin y b); [apply IH; now left | apply Rmin_l].
    + apply Rle_trans with (Rmin a y); [apply IH; now left | apply Rmin_r].
    + apply IH. now right.
Qed.

Lemma fold_Rmin_In (l : list R) (a : R) : In (fold_left Rmin l a) (a :: l).
Proof.
  revert a. induction l as [|b l IH]; intros a; simpl; [now left|].
  destruct (IH (Rmin a b)) as [E|Hin]; [|now right; right].
  rewrite <- E. unfold Rmin. destruct (Rle_dec a b); [now left | right; now left].
Qed.

Lemma fold_Rmax_ge (l : list R) (a y : R) :
  In y (a :: l) -> y <= fold_left Rmax l a.
Proof.
  revert a y. induction l as [|b l IH]; intros a y; simpl.
  - intros [->|[]]. lra.
  - intros [->|[->|Hin]].
    + apply Rle_trans with (Rmax y b); [apply Rmax_l | apply IH; now left].
    + apply Rle_trans with (Rmax a y); [apply Rmax_r | apply IH; now left].
    + apply IH. now right.
Qed.

Lemma fold_Rmax_In (l : list R) (a : R) : In (fold_left Rmax l a) (a :: l).
Proof.
  revert a. induction l as [|b l IH]; intros a; simpl; [now left|].
  destruct (IH (Rmax a b)) as [E|Hin]; [|now right; right].
  rewrite <- E. unfold Rmax. destruct (Rle_dec a b); [right; now left | now left].
Qed.

(** The reduction of the rows of a point array along the axis 0. *)
Lemma fold_vmap2_rows (f : R -> R -> R) (m : nat) (rs : list vec) (r : vec) :
  Forall (fun pt => List.length pt = m) (r :: rs) ->
  List.length (fold_left (vmap2 f) rs r) = m /\
  forall j, (j < m)%nat ->
    vnth (fold_left (vmap2 f) rs r) j
    = fold_left f (map (fun pt => vnth pt j) rs) (vnth r j).
Proof.
  revert r. induction rs as [|r' rs IH]; intros r H; simpl.
  - inversion H; subst. auto.
  - inversion H as [|? ? Hr Hrs]; subst. inversion Hrs as [|? ? Hr' Hrs']; subst.
    destruct (IH (vmap2 f r r')) as [Hl Hv].
    { constructor; [|assumption]. rewrite length_vmap2, Hr'. apply Nat.min_id. }
    split; [exact Hl|]. intros j Hj. rewrite (Hv j Hj).
    rewrite vnth_vmap2 by lia. reflexivity.
Qed.

Lemma vnth_lower (xl : list (R * R)) (j : nat) :
  vnth (map fst xl) j = fst (nth j xl (0, 0)).
Proof. unfold vnth. change 0 with (fst (0, 0)) at 1. apply map_nth. Qed.

Lemma vnth_upper (xl : list (R * R)) (j : nat) :
  vnth (map snd xl) j = snd (nth j xl (0, 0)).
Proof. unfold vnth. change 0 with (snd (0, 0)) at 1. apply map_nth. Qed.

Section Bounds.
Variables (xl : list (R * R)) (r : vec) (rs : list vec).
Hypothesis shape_ok : Forall (fun pt => List.length pt = List.length xl) (r :: rs).

(** The first assertion fails exactly when a point is below a lower
    bound. *)
Lemma below_min_iff :
  np_all_le (map fst xl) (fold_left (vmap2 Rmin) rs r) = false <->
  exists pt, In pt (r :: rs) /\ below_min xl pt.
Proof.
  destruct (fold_vmap2_rows Rmin shape_ok) as [Hl Hv].
  rewrite np_all_le_false, length_map, Hl. split.
  - intros (j & Hj & _ & Hlt). rewrite (Hv j Hj), vnth_lower in Hlt.
    destruct (fold_Rmin_In (map (fun pt => vnth pt j) rs) (vnth r j)) as [E|Hin].
    + exists r. split; [now left|]. exists j. split; [exact Hj|]. now rewrite E.
    + apply in_map_iff in Hin. destruct Hin as (pt & E & Hin).
      exists pt. split; [now right|]. exists j. split; [exact Hj|]. now rewrite E.
  - intros (pt & Hin & j & Hj & Hlt). exists j. repeat split; try exact Hj.
    rewrite (Hv j Hj), vnth_lower.
    apply Rle_lt_trans with (vnth pt j); [|exact Hlt].
    apply fold_Rmin_le. destruct Hin as [->|Hin]; [now left|].
    right. apply in_map_iff. eauto.
Qed.

(** The second assertion fails exactly when a point is above an upper
    bound. *)
Lemma above_max_iff :
  np_all_le (fold_left (vmap2 Rmax) rs r) (map snd xl) = false <->
  exists pt, In pt (r :: rs) /\ above_max xl pt.
Proof.
  destruct (fold_vmap2_rows Rmax shape_ok) as [Hl Hv].
  rewrite np_all_le_false, length_map, Hl. split.
  - intros (j & _ & Hj & Hlt). rewrite (Hv j Hj), vnth_upper in Hlt.
    destruct (fold_Rmax_In (map (fun pt => vnth pt j) rs) (vnth r j)) as [E|Hin].
    + exists r. split; [now left|]. exists j. split; [exact Hj|]. now rewrite E.
    + apply in_map_iff in Hin. destruct Hin as (pt & E & Hin).
      exists pt. split; [now right|]. exists j. split; [exact Hj|]. now rewrite E.
  - intros (pt & Hin & j & Hj & Hlt). exists j. repeat split; try exact Hj.
    rewrite (Hv j Hj), vnth_upper.
    apply Rlt_le_trans with (vnth pt j); [exact Hlt|].
    apply fold_Rmax_ge. destruct Hin as [->|Hin]; [now left|].
    right. apply in_map_iff. eauto.
Qed.

End Bounds.

Lemma dict_get_In {A : Type} (d : dict A) (k : Z) (a : A) :
  dict_get d k = Ok a -> In (k, a) d.
Proof.
  induction d as [|[k' a'] d IH]; simpl; [discriminate|].
  destruct (Z.eqb_spec k' k) as [->|_].
  - intros H. inversion H; subst. now left.
  - intros H. right. now apply IH.
Qed.

Lemma dict_get_Err {A : Type} (d : dict A) (k : Z) (e : exn) :
  dict_get d k = Err e -> e = KeyError k.
Proof.
  induction d as [|[k' a'] d IH]; simpl.
  - intros H. now inversion H.
  - destruct (Z.eqb k' k); [discriminate | exact IH].
Qed.

Lemma dict_get_middle {A : Type} (pre post : dict A) (k : Z) (a : A) :
  ~ In k (dict_keys pre) -> dict_get (pre ++ (k, a) :: post) k = Ok a.
Proof.
  induction pre as [|[k' a'] pre IH]; simpl; intros Hn.
  - now rewrite Z.eqb_refl.
  - destruct (Z.eqb_spec k' k) as [->|_]; [tauto|]. apply IH. tauto.
Qed.

(** A loop that raises does so at one key, after it got through the keys
    before it. *)
Lemma for_in_Err {K A : Type} (ks : list K) (body : K -> A -> result A) (acc : A)
    (e : exn) :
  for_in ks body acc = Err e ->
  exists ks1 k ks2 d,
    ks = ks1 ++ k :: ks2 /\ for_in ks1 body acc = Ok d /\ body k d = Err e.
Proof.
  revert acc. induction ks as [|k ks IH]; intros acc; simpl; [discriminate|].
  destruct (body k acc) as [a|e'] eqn:E; simpl.
  - intros H. destruct (IH a H) as (ks1 & k' & ks2 & d & -> & H1 & H2).
    exists (k :: ks1), k', ks2, d. simpl. rewrite E. auto.
  - intros H. inversion H; subst. exists [], k, ks, acc. auto.
Qed.

Section ApproxTerm.
Context {C : Collaborators}.
Variables (self : RMT) (sz : sizes).
Hypothesis shape_ok : training_shape self.

Lemma training_rows (kx : Z) (xt yt : list vec) :
  dict_get (training_pts self) kx = Ok (xt, yt) ->
  Forall (fun pt => List.length pt = List.length (xlimits (sm_options self))) xt.
Proof.
  intros H. apply dict_get_In in H. unfold training_shape in shape_ok.
  rewrite Forall_forall in shape_ok. exact (shape_ok _ H).
Qed.

(** An order with a point outside the bounds makes its iteration fail
    with one of the two assertions. *)
Lemma approx_term_out_of_domain (kx : Z) (xt yt : list vec) (d : jac_dict) :
  dict_get (training_pts self) kx = Ok (xt, yt) ->
  out_of_domain (xlimits (sm_options self)) xt ->
  exists e, approx_term self sz kx d = Err e /\ OutOfDomainError kx e.
Proof.
  intros Hget Hout. pose proof (training_rows _ Hget) as Hrows.
  unfold approx_term. rewrite Hget. cbn [bind].
  destruct xt as [|r rs]; [destruct Hout as (pt & [] & _)|].
  cbn [np_min_axis0 np_max_axis0 bind].
  destruct (np_all_le (map fst (xlimits (sm_options self)))
              (fold_left (vmap2 Rmin) rs r)) eqn:E1; cbn [negb].
  - assert (E2 : np_all_le (fold_left (vmap2 Rmax) rs r)
                   (map snd (xlimits (sm_options self))) = false).
    { apply (@above_max_iff _ _ _ Hrows). destruct Hout as (pt & Hin & [Hb|Ha]).
      - assert (np_all_le (map fst (xlimits (sm_options self)))
                  (fold_left (vmap2 Rmin) rs r) = false)
          by (apply (@below_min_iff _ _ _ Hrows); eauto).
        congruence.
      - eauto. }
    rewrite E2. cbn [negb]. eexists. split; [reflexivity|]. now right.
  - eexists. split; [reflexivity|]. now left.
Qed.

(** An iteration that fails with an assertion names its own order, which
    has a point outside the bounds. *)
Lemma approx_term_assertion (kx : Z) (d : jac_dict) (msg : assert_msg) :
  approx_term self sz kx d = Err (AssertionError msg) ->
  OutOfDomainError kx (AssertionError msg) /\
  exists xt yt,
    dict_get (training_pts self) kx = Ok (xt, yt) /\
    out_of_domain (xlimits (sm_options self)) xt.
Proof.
  unfold approx_term.
  destruct (dict_get (training_pts self) kx) as [[xt yt]|e] eqn:Hget;
    cbn [bind].
  2:{ intros H. inversion H; subst. apply dict_get_Err in Hget. discriminate. }
  pose proof (training_rows _ Hget) as Hrows.
  destruct xt as [|r rs]; [discriminate|].
  cbn [np_min_axis0 np_max_axis0 bind].
  destruct (np_all_le (map fst (xlimits (sm_options self)))
              (fold_left (vmap2 Rmin) rs r)) eqn:E1; cbn [negb].
  - destruct (np_all_le (fold_left (vmap2 Rmax) rs r)
                (map snd (xlimits (sm_options self)))) eqn:E2; cbn [negb].
    + destruct (_compute_jac (Some kx) 0 (r :: rs)) as [[data rows] cols].
      destruct (csc_matrix data rows cols
                  (List.length (r :: rs), num_coeff sz)) as [m|e] eqn:Ec;
        cbn [bind]; [discriminate|].
      unfold csc_matrix in Ec.
      destruct (_ && _)%bool in Ec; [discriminate|].
      inversion Ec; subst. discriminate.
    + intros H. inversion H; subst. split; [now right|].
      exists (r :: rs), yt. split; [reflexivity|].
      destruct (proj1 (@above_max_iff _ _ _ Hrows) E2) as (pt & Hin & Ha).
      exists pt. auto.
  - intros H. inversion H; subst. split; [now left|].
    exists (r :: rs), yt. split; [reflexivity|].
    destruct (proj1 (@below_min_iff _ _ _ Hrows) E1) as (pt & Hin & Hb).
    exists pt. auto.
Qed.

End ApproxTerm.

(** C5, as the code has it: the approximation-term builder fails with
    [OutOfDomainError] naming the order [kx] exactly when [kx] is the first
    order, in the iteration order of the training set, at which it fails:
    the orders before [kx] are assembled, and some training point of the
    order [kx] has a coordinate strictly below the lower bound or strictly
    above the upper bound of its dimension (a point on a bound passes).
    The fit then fails with that error before any event of a linear
    solve. *)
Theorem out_of_domain_first_order {C : Collaborators} (self : RMT) (sz : sizes)
    (kx : Z) :
  num self = Some sz ->
  NoDup (dict_keys (training_pts self)) ->
  training_shape self ->
  ((exists e, _compute_approx_terms self = Err e /\ OutOfDomainError kx e) <->
   (exists pre xt yt post,
      training_pts self = pre ++ (kx, (xt, yt)) :: post /\
      (exists d, for_in (dict_keys pre) (approx_term self sz) [] = Ok d) /\
      out_of_domain (xlimits (sm_options self)) xt)) /\
  (forall e tr, _compute_approx_terms self = Err e -> _fit self tr = (Err e, tr)).
Proof.
  intros Hnum Hnd Hshape. split.
  - unfold _compute_approx_terms, get_num. rewrite Hnum. cbn [bind]. split.
    + intros (e & Herr & Hout).
      destruct (for_in_Err _ _ _ Herr) as (ks1 & k & ks2 & d & Hks & Hpre & Hk).
      assert (Hmsg : exists msg, e = AssertionError msg)
        by (destruct Hout as [->| ->]; eauto).
      destruct Hmsg as (msg & ->).
      destruct (@approx_term_assertion C self sz Hshape k d msg Hk)
        as (Hout' & xt & yt & Hget & Hdom).
      assert (k = kx) as ->.
      { destruct Hout as [E|E], Hout' as [E'|E']; congruence. }
      unfold dict_keys in Hks. apply map_eq_app in Hks.
      destruct Hks as (pre & rest & Htp & Hpk & Hrest).
      apply map_eq_cons in Hrest.
      destruct Hrest as ([k' v] & post & -> & Hk' & Hpost). simpl in Hk'. subst k'.
      assert (Hnotin : ~ In kx (dict_keys pre)).
      { unfold dict_keys in Hnd. rewrite Htp, map_app in Hnd. simpl in Hnd.
        apply NoDup_remove_2 in Hnd. intros Hin. apply Hnd.
        apply in_or_app. now left. }
      rewrite Htp, (@dict_get_middle _ pre post kx v Hnotin) in Hget.
      inversion Hget; subst v.
      exists pre, xt, yt, post. split; [exact Htp|]. split; [|exact Hdom].
      exists d. unfold dict_keys. now rewrite Hpk.
    + intros (pre & xt & yt & post & Htp & (d & Hpre) & Hdom).
      assert (Hnotin : ~ In kx (dict_keys pre)).
      { unfold dict_keys in Hnd. rewrite Htp, map_app in Hnd. simpl in Hnd.
        apply NoDup_remove_2 in Hnd. intros Hin. apply Hnd.
        apply in_or_app. now left. }
      assert (Hget : dict_get (training_pts self) kx = Ok (xt, yt))
        by (rewrite Htp; now apply dict_get_middle).
      destruct (@approx_term_out_of_domain C self sz Hshape kx xt yt d Hget Hdom)
        as (e & He & Hout).
      exists e. split; [|exact Hout].
      replace (dict_keys (training_pts self))
        with (dict_keys pre ++ kx :: dict_keys post)
        by (rewrite Htp; unfold dict_keys; now rewrite map_app).
      rewrite for_in_app, Hpre. cbn [bind for_in]. rewrite He. reflexivity.
  - intros e tr Herr. unfold _fit, mbind, lift. rewrite Herr. reflexivity.
Qed.

Lemma ex3_shape : training_shape ex3_model.
Proof. repeat constructor. Qed.

Lemma ex3_above : out_of_domain (xlimits (sm_options ex3_model)) [[2]].
Proof.
  exists [2]. split; [now left|]. right. exists 0%nat.
  split; [simpl; lia|]. unfold vnth. simpl. lra.
Qed.

Lemma out_of_domain_first_order_witness :
  num ex3_model = Some ex_sizes /\
  NoDup (dict_keys (training_pts ex3_model)) /\
  training_shape ex3_model /\
  ((exists e,
      @_compute_approx_terms ex_collaborators ex3_model = Err e /\
      OutOfDomainError 0 e) <->
   (exists pre xt yt post,
      training_pts ex3_model = pre ++ (0%Z, (xt, yt)) :: post /\
      (exists d,
         for_in (dict_keys pre) (@approx_term ex_collaborators ex3_model ex_sizes) []
         = Ok d) /\
      out_of_domain (xlimits (sm_options ex3_model)) xt)).
Proof.
  assert (Hnd : NoDup (dict_keys (training_pts ex3_model))).
  { simpl. repeat constructor; simpl; intuition discriminate. }
  split; [reflexivity|]. split; [exact Hnd|]. split; [exact ex3_shape|].
  apply (@out_of_domain_first_order ex_collaborators ex3_model ex_sizes 0
           eq_refl Hnd ex3_shape).
Defined.

(** C5 as the claim states it fails: the orders [0] and [1] of the
    training set both have a point above the upper bound; the builder
    fails naming the order [0], so it does not fail naming the order [1]
    although a training point of the order [1] is outside the bounds. *)
Lemma second_order_not_named :
  dict_get (training_pts ex3_model) 1 = Ok ([[2]], [[1]]) /\
  out_of_domain (xlimits (sm_options ex3_model)) [[2]] /\
  exists e,
    @_compute_approx_terms ex_collaborators ex3_model = Err e /\
    OutOfDomainError 0 e /\
    ~ OutOfDomainError 1 e.
Proof.
  split; [reflexivity|]. split; [exact ex3_above|].
  destruct (@approx_term_out_of_domain ex_collaborators ex3_model ex_sizes
              ex3_shape 0 [[2]] [[1]] [] eq_refl ex3_above) as (e & He & Hout).
  exists e. split.
  - change (@_compute_approx_terms ex_collaborators ex3_model)
      with (for_in [0%Z; 1%Z] (@approx_term ex_collaborators ex3_model ex_sizes) []).
    cbn [for_in]. rewrite He. reflexivity.
  - split; [exact Hout|].
    intros [E|E]; destruct Hout as [E'|E']; congruence.
Qed.

(** ** What the builder hands to the driver *)

Lemma dict_keys_set_new {A : Type} (d : dict A) (k : Z) (a : A) :
  ~ In k (dict_keys d) -> dict_keys (dict_set d k a) = dict_keys d ++ [k].
Proof.
  unfold dict_keys.
  induction d as [|[k' a'] d IH]; simpl; intros Hn; [reflexivity|].
  destruct (Z.eqb_spec k' k) as [->|_]; [tauto|]. simpl.
  rewrite IH by tauto. reflexivity.
Qed.

Lemma for_in_dict_set_keys {A : Type} (f : Z -> result A) (ks : list Z)
    (d0 d : dict A) :
  NoDup ks ->
  (forall k, In k ks -> ~ In k (dict_keys d0)) ->
  for_in ks (fun kx d => a <- f kx ;; Ok (dict_set d kx a)) d0 = Ok d ->
  dict_keys d = dict_keys d0 ++ ks.
Proof.
  intros Hnd. revert d0.
  induction Hnd as [|k ks Hk _ IH]; intros d0 Hnew H; simpl in H.
  - inversion H; subst. now rewrite app_nil_r.
  - destruct (f k) as [a|e]; simpl in H; [|discriminate].
    assert (Hnew' : forall k', In k' ks -> ~ In k' (dict_keys (dict_set d0 k a))).
    { intros k' Hk'. rewrite dict_keys_set_new by (apply Hnew; now left).
      intros Hin. apply in_app_or in Hin. destruct Hin as [Hin|[->|[]]].
      - apply (Hnew k'); [now right | exact Hin].
      - contradiction. }
    rewrite (IH _ Hnew' H).
    rewrite dict_keys_set_new by (apply Hnew; now left).
    now rewrite <- app_assoc.
Qed.

(** X12: when the builder returns, the Jacobian set has the derivative
    orders of the training set, in their order, and holds for each of them
    a matrix with a row per training point and a column per coefficient,
    with its transpose. *)
Theorem compute_approx_terms_sound {C : Collaborators} (self : RMT) (sz : sizes)
    (full_jac_dict : jac_dict) :
  num self = Some sz ->
  NoDup (dict_keys (training_pts self)) ->
  _compute_approx_terms self = Ok full_jac_dict ->
  dict_keys full_jac_dict = dict_keys (training_pts self) /\
  forall kx, In kx (dict_keys (training_pts self)) ->
    exists xt yt J,
      dict_get (training_pts self) kx = Ok (xt, yt) /\
      dict_get full_jac_dict kx = Ok (J, sp_T J) /\
      shape J = (List.length xt, num_coeff sz).
Proof.
  intros Hnum Hnd. unfold _compute_approx_terms, get_num. rewrite Hnum.
  cbn [bind].
  set (f := fun kx : Z =>
    '(xt, yt) <- dict_get (training_pts self) kx ;;
    xmin <- np_min_axis0 xt ;;
    xmax <- np_max_axis0 xt ;;
    if negb (np_all_le (map fst (xlimits (sm_options self))) xmin)
    then Err (AssertionError (Training_pts_below_min_for kx))
    else if negb (np_all_le xmax (map snd (xlimits (sm_options self))))
    then Err (AssertionError (Training_pts_above_max_for kx))
    else
      let '(data, rows, cols) := _compute_jac (Some kx) 0 xt in
      full_jac <- csc_matrix data rows cols (List.length xt, num_coeff sz) ;;
      Ok (full_jac, sp_T full_jac)).
  assert (Hbody : forall kx d,
            approx_term self sz kx d = (a <- f kx ;; Ok (dict_set d kx a))).
  { intros kx d. unfold approx_term, f.
    destruct (dict_get (training_pts self) kx) as [[xt yt]|e]; [|reflexivity].
    cbn [bind].
    destruct (np_min_axis0 xt) as [xmin|e]; [|reflexivity].
    destruct (np_max_axis0 xt) as [xmax|e]; [|reflexivity]. cbn [bind].
    destruct (negb _); [reflexivity|]. destruct (negb _); [reflexivity|].
    destruct (_compute_jac (Some kx) 0 xt) as [[data rows] cols].
    destruct (csc_matrix data rows cols (List.length xt, num_coeff sz));
      reflexivity. }
  assert (Hloop : forall ks d0,
            for_in ks (approx_term self sz) d0
            = for_in ks (fun kx d => a <- f kx ;; Ok (dict_set d kx a)) d0).
  { induction ks as [|k ks IH]; intros d0; simpl; [reflexivity|].
    rewrite Hbody. destruct (f k) as [a|e]; simpl; [apply IH | reflexivity]. }
  rewrite Hloop. intros H. split.
  - apply (@for_in_dict_set_keys _ f _ [] full_jac_dict Hnd) in H;
      [exact H | intros k _ []].
  - intros kx Hin.
    destruct (for_in_dict_set f _ _ H kx) as [Hget _].
    destruct (Hget Hin) as ([J JT] & Hf & Hd).
    unfold f in Hf.
    destruct (dict_get (training_pts self) kx) as [[xt yt]|e]; [|discriminate].
    cbn [bind] in Hf.
    destruct (np_min_axis0 xt) as [xmin|e]; [|discriminate].
    destruct (np_max_axis0 xt) as [xmax|e]; [|discriminate]. cbn [bind] in Hf.
    destruct (negb _); [discriminate|]. destruct (negb _); [discriminate|].
    destruct (_compute_jac (Some kx) 0 xt) as [[data rows] cols].
    unfold csc_matrix in Hf.
    destruct (_ && _)%bool; [|discriminate].
    cbn [bind] in Hf. inversion Hf; subst.
    exists xt, yt, (mk_spmatrix (List.length xt, num_coeff sz)
                      (coo_entry data rows cols)).
    auto.
Qed.

(** The Jacobian set of the instance is the one its builder returns. *)
Example ex_builder (p max_iter : Z) (ext : bool) (s : option (list vec)) :
  @_compute_approx_terms ex_collaborators (ex_model p max_iter ext s)
  = Ok ex_jac_dict.
Proof.
  unfold _compute_approx_terms. simpl. unfold approx_term. simpl.
  unfold Rleb.
  destruct (Rle_dec 0 0.5) as [_|Hn]; [|exfalso; lra].
  destruct (Rle_dec 0.5 1) as [_|Hn]; [|exfalso; lra].
  reflexivity.
Qed.

(** ** The objective of the fit *)

Lemma opt_func_loop (sol : vec) (p : Z) (n : nat) (full_jac_dict : jac_dict)
    (yt_dict : dict vec) (ks : list Z) (Jt : list (spmatrix * vec)) (f0 : R) :
  Forall2 (holds_order n full_jac_dict yt_dict) ks Jt ->
  for_in ks (fun kx func =>
    '(full_jac, full_jac_T) <- dict_get full_jac_dict kx ;;
    yt <- dict_get yt_dict kx ;;
    Ok (func + 0.5 * np_sum (vpow (vsub (sp_matvec full_jac sol) yt) p))) f0
  = Ok (f0 + 0.5 * fold_right Rplus 0
                     (map (fun '(J, target) =>
                             np_sum (vpow (vsub (sp_matvec J sol) target) p))
                        Jt)).
Proof.
  intros H. revert f0.
  induction H as [|kx [J target] ks Jt Hk _ IH]; intros f0; cbn [for_in map fold_right].
  - f_equal. ring.
  - destruct Hk as ((JT & HJ & _ & _) & Hy & _). cbn [fst snd] in *.
    rewrite HJ. cbn [bind]. rewrite Hy. cbn [bind].
    rewrite IH. f_equal. ring.
Qed.

(** X1: the objective computed by the fit driver is
    [0.5 sol^T H sol + 0.5 Σ_k Σ_i (Jac_k sol − target_k)_i^p], for every
    coefficient vector, exponent, regularization Hessian, Jacobian set and
    target set that hold the pairs of the training set's orders. *)
Theorem opt_func_is_objective (self : RMT) (sol : vec) (p : Z) (H : spmatrix)
    (full_jac_dict : jac_dict) (yt_dict : dict vec)
    (Jt : list (spmatrix * vec)) :
  fit_data self (List.length sol) full_jac_dict yt_dict Jt ->
  _opt_func self sol p H full_jac_dict yt_dict = Ok (objective H Jt p sol).
Proof.
  intros Hd. unfold _opt_func, objective, fit_data in *.
  apply (opt_func_loop sol p _ Hd).
Qed.

Lemma opt_func_is_objective_witness :
  fit_data (ex_model 4 10 false None) (List.length [0]) ex_jac_dict ex_yt_dict
    [(ex_J, [1])] /\
  _opt_func (ex_model 4 10 false None) [0] 4 ex_hess ex_jac_dict ex_yt_dict
  = Ok (objective ex_hess [(ex_J, [1])] 4 [0]).
Proof.
  split; [apply ex_fit_data|].
  apply (@opt_func_is_objective (ex_model 4 10 false None) [0] 4 ex_hess
           ex_jac_dict ex_yt_dict [(ex_J, [1])]).
  apply ex_fit_data.
Defined.

(** ** The regularization Hessian *)

Lemma vmul_ones (v : vec) : vmul (repeat 1 (List.length v)) v = v.
Proof.
  unfold vmul. induction v as [|x v IH]; simpl; [reflexivity|].
  rewrite IH. f_equal. ring.
Qed.

Lemma initialize_hessian_diag (self : RMT) (sz : sizes) :
  num self = Some sz ->
  num_dof sz <> 0%nat ->
  _initialize_hessian self
  = Ok (sp_diags (vscale (reg_dv (sm_options self)) (repeat 1 (num_dof sz)))).
Proof.
  intros Hnum Hdof. unfold _initialize_hessian, get_num. rewrite Hnum.
  cbn [bind]. destruct (Nat.eqb_spec (num_dof sz) 0); [contradiction|].
  reflexivity.
Qed.

Lemma sp_matvec_reg (c : R) (v : vec) :
  sp_matvec (sp_diags (vscale c (repeat 1 (List.length v)))) v = vscale c v.
Proof.
  rewrite sp_matvec_diags.
  - now rewrite vmul_vscale_l, vmul_ones.
  - unfold vscale. now rewrite length_map, repeat_length.
Qed.

(** X3: on an instance with at least one degree of freedom the
    regularization Hessian is [reg_dv] times the identity: a square matrix
    with a row per degree of freedom that equals its transpose and maps
    every vector [v] to [reg_dv * v]. *)
Theorem initialize_hessian_action (self : RMT) (sz : sizes) :
  num self = Some sz ->
  num_dof sz <> 0%nat ->
  exists H,
    _initialize_hessian self = Ok H /\
    shape H = (num_dof sz, num_dof sz) /\
    symmetric H /\
    forall v, List.length v = num_dof sz ->
      sp_matvec H v = vscale (reg_dv (sm_options self)) v.
Proof.
  intros Hnum Hdof. eexists. split; [exact (@initialize_hessian_diag self sz Hnum Hdof)|].
  assert (Hl : List.length (vscale (reg_dv (sm_options self))
                              (repeat 1 (num_dof sz))) = num_dof sz).
  { unfold vscale. now rewrite length_map, repeat_length. }
  split; [|split].
  - unfold sp_diags. cbn [shape]. now rewrite Hl.
  - split; [reflexivity|]. intros i j _ _. cbn [sp_diags entry].
    destruct (Nat.eqb_spec i j) as [->|Hne].
    + now rewrite Nat.eqb_refl.
    + destruct (Nat.eqb_spec j i); [congruence | reflexivity].
  - intros v Hv. rewrite <- Hv. apply sp_matvec_reg.
Qed.

Lemma initialize_hessian_action_witness :
  num (ex_model 4 10 false None) = Some ex_sizes /\
  num_dof ex_sizes <> 0%nat /\
  exists H,
    _initialize_hessian (ex_model 4 10 false None) = Ok H /\
    shape H = (num_dof ex_sizes, num_dof ex_sizes) /\
    symmetric H /\
    forall v, List.length v = num_dof ex_sizes ->
      sp_matvec H v = vscale (reg_dv (sm_options (ex_model 4 10 false None))) v.
Proof.
  split; [reflexivity|]. split; [discriminate|].
  apply (@initialize_hessian_action (ex_model 4 10 false None) ex_sizes).
  - reflexivity.
  - discriminate.
Defined.

(** ** The sign of the objective *)

Lemma np_sum_nonneg (v : vec) : Forall (fun x => 0 <= x) v -> 0 <= np_sum v.
Proof.
  induction 1 as [|x v Hx _ IH]; simpl; [lra|]. lra.
Qed.

Lemma powerRZ_even_nonneg (x : R) (p : Z) :
  Z.even p = true -> (0 <= p)%Z -> 0 <= powerRZ x p.
Proof.
  intros He Hp. apply Z.even_spec in He. destruct He as [k ->].
  assert (Hk : (0 <= k)%Z) by lia.
  rewrite <- (Z2Nat.id k Hk).
  replace (2 * Z.of_nat (Z.to_nat k))%Z with (Z.of_nat (2 * Z.to_nat k)) by lia.
  rewrite <- pow_powerRZ, pow_mult. apply pow_le, pow2_ge_0.
Qed.

Lemma np_dot_vscale_nonneg (c : R) (v : vec) :
  0 <= c -> 0 <= np_dot v (vscale c v).
Proof.
  intros Hc. unfold np_dot, vmul, vscale.
  induction v as [|x v IH]; simpl; [lra|].
  assert (0 <= x * (c * x)) by (replace (x * (c * x)) with (c * (x * x)) by ring;
                                 apply Rmult_le_pos; [exact Hc | nra]).
  unfold np_sum in *. lra.
Qed.

(** X2: with the regularization Hessian of the instance, a non-negative
    [reg_dv] and an even non-negative exponent, the objective of every
    coefficient vector is computed and is not negative. *)
Theorem opt_func_nonneg (self : RMT) (sz : sizes) (H : spmatrix) (sol : vec)
    (p : Z) (full_jac_dict : jac_dict) (yt_dict : dict vec)
    (Jt : list (spmatrix * vec)) :
  num self = Some sz ->
  _initialize_hessian self = Ok H ->
  List.length sol = num_dof sz ->
  0 <= reg_dv (sm_options self) ->
  Z.even p = true -> (0 <= p)%Z ->
  fit_data self (List.length sol) full_jac_dict yt_dict Jt ->
  exists f,
    _opt_func self sol p H full_jac_dict yt_dict = Ok f /\ 0 <= f.
Proof.
  intros Hnum HH Hl Hreg He Hp Hd.
  exists (objective H Jt p sol). split.
  { unfold _opt_func, objective, fit_data in *. apply (opt_func_loop sol p _ Hd). }
  assert (Hdof : num_dof sz <> 0%nat).
  { intros E. unfold _initialize_hessian, get_num in HH. rewrite Hnum in HH.
    cbn [bind] in HH. rewrite E in HH. discriminate. }
  rewrite (@initialize_hessian_diag self sz Hnum Hdof) in HH.
  inversion HH; subst H. unfold objective. rewrite <- Hl, sp_matvec_reg.
  assert (H1 := np_dot_vscale_nonneg sol Hreg).
  assert (H2 : 0 <= fold_right Rplus 0
                      (map (fun '(J, target) =>
                              np_sum (vpow (vsub (sp_matvec J sol) target) p))
                         Jt)).
  { clear Hd. induction Jt as [|[J target] Jt IH]; simpl; [lra|].
    assert (0 <= np_sum (vpow (vsub (sp_matvec J sol) target) p)).
    { apply np_sum_nonneg. unfold vpow. apply Forall_map.
      apply Forall_forall. intros x _. now apply powerRZ_even_nonneg. }
    lra. }
  lra.
Qed.

Lemma opt_func_nonneg_witness :
  num (ex_model 4 10 false None) = Some ex_sizes /\
  _initialize_hessian (ex_model 4 10 false None) = Ok ex_hess /\
  0 <= reg_dv (sm_options (ex_model 4 10 false None)) /\
  exists f,
    _opt_func (ex_model 4 10 false None) [0] 4 ex_hess ex_jac_dict ex_yt_dict
    = Ok f /\ 0 <= f.
Proof.
  split; [reflexivity|]. split; [reflexivity|]. split; [simpl; lra|].
  apply (@opt_func_nonneg (ex_model 4 10 false None) ex_sizes ex_hess [0] 4
           ex_jac_dict ex_yt_dict [(ex_J, [1])]).
  - reflexivity.
  - reflexivity.
  - reflexivity.
  - simpl. lra.
  - reflexivity.
  - lia.
  - apply ex_fit_data.
Defined.

(** ** A Jacobian set that lacks an order *)

Lemma dict_get_missing {A : Type} (d : dict A) (k : Z) :
  ~ In k (dict_keys d) -> dict_get d k = Err (KeyError k).
Proof.
  induction d as [|[k' a] d IH]; simpl; intros Hn; [reflexivity|].
  destruct (Z.eqb_spec k' k) as [->|_]; [tauto|]. apply IH. tauto.
Qed.

(** A loop raises at the first key whose iteration raises. *)
Lemma for_in_first_error {K A : Type} (pre post : list K) (k : K)
    (body : K -> A -> result A) (acc : A) (e : exn) :
  (forall k' b, In k' pre -> exists b', body k' b = Ok b') ->
  (forall b, body k b = Err e) ->
  for_in (pre ++ k :: post) body acc = Err e.
Proof.
  intros Hpre Hk. rewrite for_in_app.
  destruct (for_in_ok pre body acc Hpre) as (r & ->).
  cbn [bind for_in]. now rewrite Hk.
Qed.

(** X4: when the Jacobian set lacks an order [kx] of the training set and
    holds, as the target set does, the orders before it, the objective,
    the gradient and the assembled Hessian raise [KeyError(kx)]; the
    matrix-free Hessian operator, whose loops run over the Jacobian set,
    is built all the same. *)
Theorem opt_missing_jacobian (self : RMT) (sol : vec) (p : Z) (H : spmatrix)
    (full_jac_dict : jac_dict) (yt_dict : dict vec) (pre post : list Z) (kx : Z) :
  dict_keys (training_pts self) = pre ++ kx :: post ->
  (forall k, In k pre -> In k (dict_keys full_jac_dict)) ->
  (forall k, In k (dict_keys full_jac_dict) -> In k (dict_keys yt_dict)) ->
  ~ In kx (dict_keys full_jac_dict) ->
  _opt_func self sol p H full_jac_dict yt_dict = Err (KeyError kx) /\
  _opt_grad self sol p H full_jac_dict yt_dict = Err (KeyError kx) /\
  _opt_hess_mtx self sol p H full_jac_dict yt_dict = Err (KeyError kx) /\
  exists op, _opt_hess_op self sol p H full_jac_dict yt_dict = Ok op.
Proof.
  intros Hks Hpre Hyt Hkx.
  assert (Hin : forall k, In k (dict_keys full_jac_dict) ->
                  exists J JT t, dict_get full_jac_dict k = Ok (J, JT) /\
                                 dict_get yt_dict k = Ok t).
  { intros k Hk. destruct (dict_get_in_keys _ _ Hk) as ([J JT] & EJ).
    destruct (dict_get_in_keys _ _ (Hyt k Hk)) as (t & Et). eauto. }
  pose proof (dict_get_missing _ _ Hkx) as Emiss.
  unfold _opt_func, _opt_grad, _opt_hess_mtx. rewrite Hks.
  repeat split.
  - apply for_in_first_error.
    + intros k b Hk. destruct (Hin k (Hpre k Hk)) as (J & JT & t & -> & ->).
      cbn [bind]. eauto.
    + intros b. now rewrite Emiss.
  - apply for_in_first_error.
    + intros k b Hk. destruct (Hin k (Hpre k Hk)) as (J & JT & t & -> & ->).
      cbn [bind]. eauto.
    + intros b. now rewrite Emiss.
  - apply for_in_first_error.
    + intros k b Hk. destruct (Hin k (Hpre k Hk)) as (J & JT & t & -> & ->).
      cbn [bind]. eauto.
    + intros b. now rewrite Emiss.
  - unfold _opt_hess_op, SpMatrix_init.
    destruct (for_in_ok (dict_keys full_jac_dict)
      (fun kx diag_vec =>
         '(full_jac, full_jac_T) <- dict_get full_jac_dict kx ;;
         yt <- dict_get yt_dict kx ;;
         Ok (dict_set diag_vec kx
               (vscale (IZR (p * (p - 1)))
                  (vpow (vsub (sp_matvec full_jac sol) yt) (p - 2))))) [])
      as (d & ->).
    + intros k b Hk. destruct (Hin k Hk) as (J & JT & t & -> & ->).
      cbn [bind]. eauto.
    + cbn [bind]. eauto.
Qed.

Lemma opt_missing_jacobian_witness :
  dict_keys (training_pts (ex_model 4 10 false None)) = [] ++ 0%Z :: [] /\
  ~ In 0%Z (dict_keys (@nil (Z * (spmatrix * spmatrix)))) /\
  _opt_grad (ex_model 4 10 false None) [0] 4 ex_hess [] ex_yt_dict
  = Err (KeyError 0) /\
  exists op, _opt_hess_op (ex_model 4 10 false None) [0] 4 ex_hess [] ex_yt_dict
             = Ok op.
Proof.
  split; [reflexivity|]. split; [intros []|].
  destruct (@opt_missing_jacobian (ex_model 4 10 false None) [0] 4 ex_hess []
              ex_yt_dict [] [] 0%Z eq_refl
              (fun k (H : In k []) => match H with end)
              (fun k (H : In k []) => match H with end)
              (fun H : In 0%Z [] => match H with end))
    as (_ & Hg & _ & Hop).
  split; [exact Hg | exact Hop].
Defined.

(** ** The symmetry of the assembled systems *)

Lemma hess_term_entry (c : R) (J JT : spmatrix) (d : vec) (i j : nat) :
  sp_eq JT (sp_T J) ->
  List.length d = nrows J ->
  (i < ncols J)%nat ->
  entry (sp_mul (sp_mul (sp_scale c JT) (sp_diags d)) J) i j
  = rsum (nrows J) (fun k => c * entry J k i * vnth d k * entry J k j).
Proof.
  intros [HsT HeT] Hd Hi.
  unfold sp_mul, ncols, nrows in *.
  cbn [shape entry fst snd sp_scale sp_diags sp_T] in *.
  rewrite Hd. apply rsum_ext. intros k Hk. f_equal.
  rewrite HsT. cbn [snd].
  transitivity
    (rsum (fst (shape J))
       (fun l => if Nat.eqb k l then c * entry JT i l * vnth d l else 0)).
  - apply rsum_ext. intros l _.
    destruct (Nat.eqb_spec l k), (Nat.eqb_spec k l); subst; try congruence; ring.
  - rewrite (rsum_delta (fun l => c * entry JT i l * vnth d l)) by exact Hk.
    rewrite HeT; [reflexivity | rewrite HsT; exact Hi | rewrite HsT; exact Hk].
Qed.

Lemma gn_term_entry (c : R) (J JT : spmatrix) (i j : nat) :
  sp_eq JT (sp_T J) ->
  (i < ncols J)%nat ->
  entry (sp_mul (sp_scale c JT) J) i j
  = rsum (nrows J) (fun k => c * entry J k i * entry J k j).
Proof.
  intros [HsT HeT] Hi.
  unfold sp_mul, ncols, nrows in *.
  cbn [shape entry fst snd sp_scale sp_T] in *.
  rewrite HsT. cbn [snd]. apply rsum_ext. intros k Hk.
  rewrite HeT; [reflexivity | rewrite HsT; exact Hi | rewrite HsT; exact Hk].
Qed.

(** Adding a term that equals its transpose keeps a square matrix equal
    to its transpose. *)
Lemma symmetric_add (n : nat) (A T : spmatrix) :
  shape A = (n, n) -> symmetric A ->
  (forall i j, (i < n)%nat -> (j < n)%nat -> entry T i j = entry T j i) ->
  shape (sp_add A T) = (n, n) /\ symmetric (sp_add A T).
Proof.
  intros Hs [_ Hsym] HT. unfold symmetric, sp_add, nrows, ncols in *.
  cbn [shape entry]. rewrite Hs in *. cbn [fst snd] in *.
  repeat split. intros i j Hi Hj. rewrite (Hsym i j Hi Hj), (HT i j Hi Hj).
  reflexivity.
Qed.

Section Symmetry.
Variable self : RMT.
Variables (sol : vec) (p : Z) (full_jac_dict : jac_dict) (yt_dict : dict vec).
Variable n : nat.

Lemma opt_hess_mtx_loop_symmetric (ks : list Z) (Jt : list (spmatrix * vec))
    (hess0 : spmatrix) :
  Forall2 (holds_order n full_jac_dict yt_dict) ks Jt ->
  shape hess0 = (n, n) -> symmetric hess0 ->
  exists m,
    for_in ks (fun kx hess =>
      '(full_jac, full_jac_T) <- dict_get full_jac_dict kx ;;
      yt <- dict_get yt_dict kx ;;
      let diag_vec :=
        vscale (IZR (p * (p - 1)))
          (vpow (vsub (sp_matvec full_jac sol) yt) (p - 2)) in
      let diag_mtx := sp_diags diag_vec in
      Ok (sp_add hess
            (sp_mul (sp_mul (sp_scale 0.5 full_jac_T) diag_mtx) full_jac)))
      hess0 = Ok m /\
    shape m = (n, n) /\ symmetric m.
Proof.
  intros H. revert hess0.
  induction H as [|kx [J target] ks Jt Hk _ IH]; intros hess0 Hs0 Hsym;
    cbn [for_in].
  - eauto.
  - destruct Hk as ((JT & HJ & HT & Hc) & Hy & Hr). cbn [fst snd] in *.
    rewrite HJ. cbn [bind]. rewrite Hy. cbn [bind].
    set (d := vscale (IZR (p * (p - 1)))
                (vpow (vsub (sp_matvec J sol) target) (p - 2))).
    assert (Hd : List.length d = nrows J).
    { unfold d, vscale, vpow, vsub.
      rewrite !length_map, length_vmap2, length_sp_matvec, <- Hr.
      apply Nat.min_id. }
    destruct (@symmetric_add n hess0
                (sp_mul (sp_mul (sp_scale 0.5 JT) (sp_diags d)) J) Hs0 Hsym)
      as [Hs1 Hsym1].
    { intros i j Hi Hj.
      rewrite (@hess_term_entry 0.5 J JT d i j HT Hd),
        (@hess_term_entry 0.5 J JT d j i HT Hd) by (rewrite Hc; assumption).
      apply rsum_ext. intros k _. ring. }
    apply IH; assumption.
Qed.

Lemma opt_hess_mtx_2_loop_symmetric (c : R) (ks : list Z) (Js : list spmatrix)
    (hess0 : spmatrix) :
  Forall2 (holds_jac n full_jac_dict) ks Js ->
  shape hess0 = (n, n) -> symmetric hess0 ->
  exists m,
    for_in ks (fun kx hess =>
      '(full_jac, full_jac_T) <- dict_get full_jac_dict kx ;;
      Ok (sp_add hess (sp_mul (sp_scale c full_jac_T) full_jac))) hess0
    = Ok m /\
    shape m = (n, n) /\ symmetric m.
Proof.
  intros H. revert hess0.
  induction H as [|kx J ks Js Hk _ IH]; intros hess0 Hs0 Hsym; cbn [for_in].
  - eauto.
  - destruct Hk as (JT & HJ & HT & Hc). rewrite HJ. cbn [bind].
    destruct (@symmetric_add n hess0 (sp_mul (sp_scale c JT) J) Hs0 Hsym)
      as [Hs1 Hsym1].
    { intros i j Hi Hj.
      rewrite (@gn_term_entry c J JT i j HT), (@gn_term_entry c J JT j i HT)
        by (rewrite Hc; assumption).
      apply rsum_ext. intros k _. ring. }
    apply IH; assumption.
Qed.

End Symmetry.

(** X5: when the regularization Hessian is a square matrix that equals
    its transpose, so are the Hessian assembled for a Newton iteration and
    the system assembled for the initial linear problem, for every
    coefficient vector and exponent. *)
Theorem opt_hess_mtx_symmetric (self : RMT) (sol : vec) (p : Z) (H : spmatrix)
    (full_jac_dict : jac_dict) (yt_dict : dict vec)
    (Jt : list (spmatrix * vec)) :
  shape H = (List.length sol, List.length sol) ->
  symmetric H ->
  fit_data self (List.length sol) full_jac_dict yt_dict Jt ->
  (exists m,
     _opt_hess_mtx self sol p H full_jac_dict yt_dict = Ok m /\
     shape m = (List.length sol, List.length sol) /\ symmetric m) /\
  (exists m,
     _opt_hess_mtx_2 self H full_jac_dict = Ok m /\
     shape m = (List.length sol, List.length sol) /\ symmetric m).
Proof.
  intros HH Hsym Hd. unfold fit_data in Hd. split.
  - apply (@opt_hess_mtx_loop_symmetric sol p full_jac_dict yt_dict
             (List.length sol) _ Jt H Hd HH Hsym).
  - assert (HJ : Forall2 (holds_jac (List.length sol) full_jac_dict)
                   (dict_keys (training_pts self)) (map fst Jt)).
    { clear HH Hsym. induction Hd as [|kx jt ks Jt' Hk _ IH]; constructor.
      - apply Hk.
      - exact IH. }
    apply (@opt_hess_mtx_2_loop_symmetric full_jac_dict (List.length sol)
             (0.5 * IZR 2 * IZR (2 - 1)) _ _ H HJ HH Hsym).
Qed.

Lemma ex_hess_symmetric : symmetric ex_hess.
Proof.
  split; [reflexivity|]. intros i j _ _. cbn [ex_hess sp_diags entry].
  destruct (Nat.eqb_spec i j) as [->|Hne].
  - now rewrite Nat.eqb_refl.
  - destruct (Nat.eqb_spec j i); [congruence | reflexivity].
Qed.

Lemma opt_hess_mtx_symmetric_witness :
  shape ex_hess = (List.length [0], List.length [0]) /\
  symmetric ex_hess /\
  fit_data (ex_model 4 10 false None) (List.length [0]) ex_jac_dict ex_yt_dict
    [(ex_J, [1])] /\
  exists m,
    _opt_hess_mtx (ex_model 4 10 false None) [0] 4 ex_hess ex_jac_dict ex_yt_dict
    = Ok m /\
    shape m = (List.length [0], List.length [0]) /\ symmetric m.
Proof.
  split; [reflexivity|]. split; [exact ex_hess_symmetric|].
  split; [apply ex_fit_data|].
  apply (@opt_hess_mtx_symmetric (ex_model 4 10 false None) [0] 4 ex_hess
           ex_jac_dict ex_yt_dict [(ex_J, [1])] eq_refl ex_hess_symmetric
           (ex_fit_data 4 10 false None)).
Defined.

(** ** The exponent 2 *)

(** The Hessian of a Newton iteration, matrix or operator, acts as the
    Hessian formula. *)
Lemma opt_hess_action (self : RMT) (sol : vec) (p : Z) (H : spmatrix)
    (full_jac_dict : jac_dict) (yt_dict : dict vec)
    (Jt : list (spmatrix * vec)) :
  shape H = (List.length sol, List.length sol) ->
  dict_keys full_jac_dict = dict_keys (training_pts self) ->
  fit_data self (List.length sol) full_jac_dict yt_dict Jt ->
  exists mtx,
    _opt_hess self sol p H full_jac_dict yt_dict = Ok mtx /\
    forall v, linop_matvec mtx v = Ok (hess_F_action H Jt p sol v).
Proof.
  intros HH Hk Hd. unfold fit_data in Hd.
  assert (Hfold : forall v,
    fold_left (fun g t => vadd g (vscale (0.5 * IZR p * IZR (p - 1)) t))
      (map (fun '(J, target) =>
              sp_matvec (sp_T J)
                (vmul (vpow (vsub (sp_matvec J sol) target) (p - 2))
                   (sp_matvec J v))) Jt)
      (sp_matvec H v)
    = hess_F_action H Jt p sol v).
  { intros v. unfold hess_F_action. apply fold_vadd_vscale.
    - rewrite length_sp_matvec. unfold nrows. now rewrite HH.
    - apply Forall_map. revert Hd. apply Forall2_right.
      intros kx [J target] ((JT & _ & _ & Hc) & _ & _). cbn [fst snd] in Hc.
      rewrite length_sp_matvec. unfold nrows, sp_T. cbn [shape fst]. exact Hc. }
  unfold _opt_hess. destruct (use_mtx_free (sm_options self)).
  - assert (Hd' := Hd). rewrite <- Hk in Hd'.
    destruct (@SpMatrix_init_ok sol p full_jac_dict yt_dict Jt Hd')
      as (diag_vec & Hinit & Hdv).
    unfold _opt_hess_op. rewrite Hinit. cbn [bind].
    eexists. split; [reflexivity|]. intros v. cbn [linop_matvec].
    unfold SpMatrix_dot.
    rewrite (@SpMatrix_dot_loop sol p full_jac_dict yt_dict v diag_vec _ _ _ Hdv).
    now rewrite Hfold.
  - destruct (@opt_hess_mtx_loop sol p full_jac_dict yt_dict [] _ _ H Hd HH)
      as (m & Hm & _ & _).
    unfold _opt_hess_mtx. cbv zeta in Hm |- *. rewrite Hm. cbn [bind].
    eexists. split; [reflexivity|]. intros v. cbn [linop_matvec]. f_equal.
    destruct (@opt_hess_mtx_loop sol p full_jac_dict yt_dict v _ _ H Hd HH)
      as (m' & Hm' & _ & Hv).
    cbv zeta in Hm'.
    assert (E : Ok m' = Ok m) by exact (eq_trans (eq_sym Hm') Hm).
    inversion E; subst m'. rewrite Hv. apply Hfold.
Qed.

Lemma vpow_0 (v : vec) : vpow v 0 = repeat 1 (List.length v).
Proof.
  unfold vpow. induction v as [|x v IH]; cbn [map List.length repeat];
    [reflexivity|].
  rewrite IH. reflexivity.
Qed.

Lemma vpow_1 (v : vec) : vpow v 1 = v.
Proof.
  unfold vpow. induction v as [|x v IH]; cbn [map]; [reflexivity|].
  rewrite IH. f_equal. simpl. ring.
Qed.

Lemma holds_order_jac (n : nat) (full_jac_dict : jac_dict) (yt_dict : dict vec)
    (ks : list Z) (Jt : list (spmatrix * vec)) :
  Forall2 (holds_order n full_jac_dict yt_dict) ks Jt ->
  Forall2 (holds_jac n full_jac_dict) ks (map fst Jt).
Proof.
  induction 1 as [|kx jt ks Jt' Hk _ IH]; constructor; [apply Hk | exact IH].
Qed.

Lemma half_two : 0.5 * IZR 2 = 1.
Proof. simpl. lra. Qed.

Section Exponent2.
Variables (full_jac_dict : jac_dict) (yt_dict : dict vec).
Variables (sol : vec) (n : nat).

(** At [p = 2] the terms of the Hessian do not depend on the coefficient
    vector. *)
Lemma hess_fold_2 (c : R) (v : vec) (ks : list Z) (Jt : list (spmatrix * vec))
    (g0 : vec) :
  c = 1 ->
  Forall2 (holds_order n full_jac_dict yt_dict) ks Jt ->
  fold_left (fun g t => vadd g (vscale c t))
    (map (fun '(J, target) =>
            sp_matvec (sp_T J)
              (vmul (vpow (vsub (sp_matvec J sol) target) 0) (sp_matvec J v)))
       Jt) g0
  = fold_left (fun g J => vadd g (sp_matvec (sp_T J) (sp_matvec J v)))
      (map fst Jt) g0.
Proof.
  intros -> H. revert g0.
  induction H as [|kx [J target] ks Jt Hk _ IH]; intros g0; cbn [map fold_left fst].
  - reflexivity.
  - destruct Hk as (_ & _ & Hr). cbn [fst snd] in Hr.
    rewrite IH. f_equal. f_equal. rewrite vscale_1. f_equal.
    rewrite vpow_0.
    replace (List.length (vsub (sp_matvec J sol) target))
      with (List.length (sp_matvec J v)).
    + apply vmul_ones.
    + unfold vsub. rewrite length_vmap2, !length_sp_matvec, <- Hr.
      now rewrite Nat.min_id.
Qed.

End Exponent2.

Lemma hess_F_action_2 (self : RMT) (sol : vec) (H : spmatrix)
    (full_jac_dict : jac_dict) (yt_dict : dict vec)
    (Jt : list (spmatrix * vec)) (v : vec) :
  shape H = (List.length sol, List.length sol) ->
  fit_data self (List.length sol) full_jac_dict yt_dict Jt ->
  hess_F_action H Jt 2 sol v = sp_matvec (gauss_newton H (map fst Jt)) v.
Proof.
  intros HH Hd. unfold fit_data in Hd.
  pose proof (holds_order_jac Hd) as HJ.
  assert (Hc : Forall (fun J => ncols J = List.length sol) (map fst Jt)).
  { revert HJ. apply Forall2_right. intros kx J (JT & _ & _ & Hc). exact Hc. }
  destruct (@gauss_newton_action (List.length sol) v (map fst Jt) H HH Hc)
    as [_ ->].
  unfold hess_F_action. change (2 - 2)%Z with 0%Z.
  rewrite <- (fold_vadd_vscale _ (n := List.length sol)).
  - apply (@hess_fold_2 full_jac_dict yt_dict sol (List.length sol) _ v _ Jt _
             gn_coeff Hd).
  - rewrite length_sp_matvec. unfold nrows. now rewrite HH.
  - apply Forall_map. revert Hd. apply Forall2_right.
    intros kx [J target] ((JT & _ & _ & Hc') & _ & _). cbn [fst snd] in Hc'.
    rewrite length_sp_matvec. unfold nrows, sp_T. cbn [shape fst]. exact Hc'.
Qed.

(** X6: for the exponent 2 the Hessian of a Newton iteration, matrix or
    operator, does not depend on the coefficient vector: it is built, as
    the system of the initial linear problem is, and the two act alike on
    every vector. *)
Theorem opt_hess_at_2_is_opt_hess_2 (self : RMT) (sol : vec) (H : spmatrix)
    (full_jac_dict : jac_dict) (yt_dict : dict vec)
    (Jt : list (spmatrix * vec)) :
  shape H = (List.length sol, List.length sol) ->
  dict_keys full_jac_dict = dict_keys (training_pts self) ->
  fit_data self (List.length sol) full_jac_dict yt_dict Jt ->
  exists mtx mtx2,
    _opt_hess self sol 2 H full_jac_dict yt_dict = Ok mtx /\
    _opt_hess_2 self H full_jac_dict = Ok mtx2 /\
    forall v, linop_matvec mtx v = linop_matvec mtx2 v.
Proof.
  intros HH Hk Hd.
  destruct (@opt_hess_action self sol 2 H full_jac_dict yt_dict Jt HH Hk Hd)
    as (mtx & Hm & Hv).
  destruct (@opt_hess_2_gauss_newton self H full_jac_dict (List.length sol)
              (map fst Jt) HH Hk (holds_order_jac Hd))
    as (mtx2 & Hm2 & Hv2).
  exists mtx, mtx2. split; [exact Hm|]. split; [exact Hm2|].
  intros v. rewrite Hv, Hv2. f_equal.
  apply (@hess_F_action_2 self sol H full_jac_dict yt_dict Jt v HH Hd).
Qed.

Lemma opt_hess_at_2_is_opt_hess_2_witness :
  shape ex_hess = (List.length [0], List.length [0]) /\
  dict_keys ex_jac_dict = dict_keys (training_pts (ex_model 2 10 false None)) /\
  fit_data (ex_model 2 10 false None) (List.length [0]) ex_jac_dict ex_yt_dict
    [(ex_J, [1])] /\
  exists mtx mtx2,
    _opt_hess (ex_model 2 10 false None) [0] 2 ex_hess ex_jac_dict ex_yt_dict
    = Ok mtx /\
    _opt_hess_2 (ex_model 2 10 false None) ex_hess ex_jac_dict = Ok mtx2 /\
    forall v, linop_matvec mtx v = linop_matvec mtx2 v.
Proof.
  split; [reflexivity|]. split; [reflexivity|]. split; [apply ex_fit_data|].
  apply (@opt_hess_at_2_is_opt_hess_2 (ex_model 2 10 false None) [0] ex_hess
           ex_jac_dict ex_yt_dict [(ex_J, [1])] eq_refl eq_refl
           (ex_fit_data 2 10 false None)).
Defined.

Lemma vadd_swap (b c x y : vec) :
  vadd (vadd b c) (vadd x y) = vadd (vadd b x) (vadd c y).
Proof.
  unfold vadd. revert c x y.
  induction b as [|b0 b IH]; intros [|c0 c] [|x0 x] [|y0 y]; simpl; auto.
  f_equal; [ring | apply IH].
Qed.

Lemma vnth_zeros (k j : nat) : vnth (zeros k) j = 0.
Proof.
  unfold vnth, zeros. revert j. induction k as [|k IH]; intros [|j]; simpl; auto.
Qed.

Lemma sp_matvec_zeros (M : spmatrix) (k : nat) :
  sp_matvec M (zeros k) = zeros (nrows M).
Proof.
  apply vec_ext.
  - now rewrite length_sp_matvec, length_zeros.
  - rewrite length_sp_matvec. intros i Hi.
    rewrite vnth_sp_matvec by exact Hi. rewrite vnth_zeros.
    apply rsum_zero. intros j _. rewrite vnth_zeros. ring.
Qed.

(** [M (u − t) = M u + M (0 − t)]. *)
Lemma sp_matvec_vsub (M : spmatrix) (u t : vec) :
  List.length u = ncols M -> List.length t = ncols M ->
  sp_matvec M (vsub u t)
  = vadd (sp_matvec M u) (sp_matvec M (vsub (zeros (ncols M)) t)).
Proof.
  intros Hu Ht. apply vec_ext.
  - unfold vadd. rewrite length_vmap2, !length_sp_matvec. now rewrite Nat.min_id.
  - rewrite length_sp_matvec. intros i Hi.
    unfold vadd. rewrite vnth_vmap2 by now rewrite length_sp_matvec.
    rewrite !vnth_sp_matvec by exact Hi.
    rewrite <- rsum_plus. apply rsum_ext. intros j Hj.
    unfold vsub. rewrite !vnth_vmap2 by (rewrite ?length_zeros; lia).
    rewrite vnth_zeros. ring.
Qed.

Lemma vadd_vneg_l (g : vec) : vadd (vneg g) g = zeros (List.length g).
Proof.
  unfold vadd, vneg, zeros. induction g as [|x g IH]; simpl; [reflexivity|].
  rewrite IH. f_equal. ring.
Qed.

Lemma np_linalg_norm_zeros (k : nat) : np_linalg_norm (zeros k) = 0.
Proof.
  unfold np_linalg_norm.
  replace (np_sum (map (fun x => x * x) (zeros k))) with 0; [apply sqrt_0|].
  unfold zeros. induction k as [|k IH]; simpl; [reflexivity|].
  rewrite <- IH. ring.
Qed.

Section Affine.
Variables (full_jac_dict : jac_dict) (yt_dict : dict vec).
Variables (sol : vec) (n : nat).

(** At [p = 2] the gradient is affine in the coefficient vector: its
    terms at [sol] are those of the Gauss–Newton system applied to [sol]
    plus those at zero. *)
Lemma grad_fold_2 (c : R) (ks : list Z) (Jt : list (spmatrix * vec))
    (a b z : vec) :
  c = 1 ->
  Forall2 (holds_order n full_jac_dict yt_dict) ks Jt ->
  a = vadd b z ->
  fold_left (fun g t => vadd g (vscale c t))
    (map (fun '(J, target) =>
            sp_matvec (sp_T J) (vpow (vsub (sp_matvec J sol) target) 1)) Jt) a
  = vadd
      (fold_left (fun g J => vadd g (sp_matvec (sp_T J) (sp_matvec J sol)))
         (map fst Jt) b)
      (fold_left (fun g t => vadd g (vscale c t))
         (map (fun '(J, target) =>
                 sp_matvec (sp_T J)
                   (vpow (vsub (sp_matvec J (zeros n)) target) 1)) Jt) z).
Proof.
  intros -> H. revert a b z.
  induction H as [|kx [J target] ks Jt Hk _ IH]; intros a b z Ha;
    cbn [map fold_left fst].
  - exact Ha.
  - destruct Hk as (_ & _ & Hr). cbn [fst snd] in Hr.
    apply IH. rewrite Ha, !vscale_1, !vpow_1.
    rewrite <- vadd_swap. f_equal.
    rewrite sp_matvec_zeros.
    assert (Hc : ncols (sp_T J) = nrows J) by reflexivity.
    rewrite <- Hc. apply sp_matvec_vsub.
    + now rewrite length_sp_matvec.
    + now rewrite Hc.
Qed.

End Affine.

Lemma length_vsum (n : nat) (ts : list vec) :
  Forall (fun t => List.length t = n) ts -> List.length (vsum n ts) = n.
Proof.
  induction 1 as [|t ts Ht _ IH]; simpl.
  - apply length_zeros.
  - unfold vadd. now apply length_vmap2_same.
Qed.

Lemma length_grad_F (n : nat) (full_jac_dict : jac_dict) (yt_dict : dict vec)
    (ks : list Z) (H : spmatrix) (Jt : list (spmatrix * vec)) (p : Z) (x : vec) :
  nrows H = n -> List.length x = n ->
  Forall2 (holds_order n full_jac_dict yt_dict) ks Jt ->
  List.length (grad_F H Jt p x) = n.
Proof.
  intros HH Hx Hd. unfold grad_F, vadd. apply length_vmap2_same.
  - now rewrite length_sp_matvec.
  - unfold vscale. rewrite length_map, Hx. apply length_vsum.
    apply Forall_map. revert Hd. apply Forall2_right.
    intros kx [J target] ((JT & _ & _ & Hc') & _ & _). cbn [fst snd] in Hc'.
    rewrite length_sp_matvec. unfold nrows, sp_T. cbn [shape fst]. exact Hc'.
Qed.

Lemma grad_F_2_affine (self : RMT) (sol : vec) (H : spmatrix)
    (full_jac_dict : jac_dict) (yt_dict : dict vec)
    (Jt : list (spmatrix * vec)) :
  shape H = (List.length sol, List.length sol) ->
  fit_data self (List.length sol) full_jac_dict yt_dict Jt ->
  grad_F H Jt 2 sol
  = vadd (sp_matvec (gauss_newton H (map fst Jt)) sol)
      (grad_F H Jt 2 (zeros (List.length sol))).
Proof.
  intros HH Hd. unfold fit_data in Hd.
  pose proof (holds_order_jac Hd) as HJ.
  assert (Hc : Forall (fun J => ncols J = List.length sol) (map fst Jt)).
  { revert HJ. apply Forall2_right. intros kx J (JT & _ & _ & Hc). exact Hc. }
  destruct (@gauss_newton_action (List.length sol) sol (map fst Jt) H HH Hc)
    as [_ ->].
  assert (Hlen : forall s,
            Forall (fun t => List.length t = List.length sol)
              (map (fun '(J, target) =>
                      sp_matvec (sp_T J) (vpow (vsub (sp_matvec J s) target) 1))
                 Jt)).
  { intros s. apply Forall_map. revert Hd. apply Forall2_right.
    intros kx [J target] ((JT & _ & _ & Hc') & _ & _). cbn [fst snd] in Hc'.
    rewrite length_sp_matvec. unfold nrows, sp_T. cbn [shape fst]. exact Hc'. }
  assert (HlH : forall s, List.length (sp_matvec H s) = List.length sol).
  { intros s. rewrite length_sp_matvec. unfold nrows. now rewrite HH. }
  unfold grad_F. change (2 - 1)%Z with 1%Z. rewrite length_zeros.
  rewrite <- !(fold_vadd_vscale _ (n := List.length sol))
    by first [apply HlH | apply Hlen].
  apply (@grad_fold_2 full_jac_dict yt_dict sol (List.length sol) _ _ Jt _ _ _
           half_two Hd).
  rewrite sp_matvec_zeros. unfold nrows. rewrite HH. cbn [fst].
  replace (zeros (List.length sol)) with (zeros (List.length (sp_matvec H sol)))
    by now rewrite HlH.
  symmetry. apply vadd_zeros_r.
Qed.

(** At [p = 2] the gradient vanishes where the Gauss–Newton system
    equals the negated gradient at zero. *)
Lemma grad_F_stationary (self : RMT) (H : spmatrix)
    (full_jac_dict : jac_dict) (yt_dict : dict vec)
    (Jt : list (spmatrix * vec)) (s : vec) :
  shape H = (List.length s, List.length s) ->
  fit_data self (List.length s) full_jac_dict yt_dict Jt ->
  sp_matvec (gauss_newton H (map fst Jt)) s
  = vneg (grad_F H Jt 2 (zeros (List.length s))) ->
  grad_F H Jt 2 s = zeros (List.length s).
Proof.
  intros HH Hd Hgn.
  assert (HnH : nrows H = List.length s) by (unfold nrows; now rewrite HH).
  rewrite (@grad_F_2_affine self s H full_jac_dict yt_dict Jt HH Hd).
  rewrite Hgn, vadd_vneg_l. f_equal.
  apply (@length_grad_F (List.length s) full_jac_dict yt_dict _ H Jt 2 _ HnH
           (length_zeros _) Hd).
Qed.

(** X7: for the exponent 2, a coefficient vector that solves the system
    of the initial linear problem with the right-hand side the driver
    assembles, the negated gradient at zero, is a stationary point: its
    gradient is the zero vector and its gradient norm is [0]. *)
Theorem bootstrap_solution_stationary (self : RMT) (H : spmatrix)
    (full_jac_dict : jac_dict) (yt_dict : dict vec)
    (Jt : list (spmatrix * vec)) (mtx : linop) (g0 s : vec) :
  shape H = (List.length s, List.length s) ->
  dict_keys full_jac_dict = dict_keys (training_pts self) ->
  fit_data self (List.length s) full_jac_dict yt_dict Jt ->
  _opt_hess_2 self H full_jac_dict = Ok mtx ->
  _opt_grad self (zeros (List.length s)) 2 H full_jac_dict yt_dict = Ok g0 ->
  linop_matvec mtx s = Ok (vneg g0) ->
  _opt_grad self s 2 H full_jac_dict yt_dict = Ok (zeros (List.length s)) /\
  _opt_norm self s 2 H full_jac_dict yt_dict = Ok 0.
Proof.
  intros HH Hk Hd Hm Hg0 Hs.
  assert (HnH : nrows H = List.length s) by (unfold nrows; now rewrite HH).
  assert (Eg : _opt_grad self s 2 H full_jac_dict yt_dict
               = Ok (grad_F H Jt 2 s))
    by (apply opt_grad_grad_F; assumption).
  assert (Eg0 : g0 = grad_F H Jt 2 (zeros (List.length s))).
  { assert (E : _opt_grad self (zeros (List.length s)) 2 H full_jac_dict yt_dict
                = Ok (grad_F H Jt 2 (zeros (List.length s)))).
    { apply opt_grad_grad_F; rewrite length_zeros; assumption. }
    rewrite E in Hg0. now inversion Hg0. }
  destruct (@opt_hess_2_gauss_newton self H full_jac_dict (List.length s)
              (map fst Jt) HH Hk (holds_order_jac Hd))
    as (mtx' & Hm' & Hv).
  assert (E : Ok mtx' = Ok mtx) by exact (eq_trans (eq_sym Hm') Hm).
  inversion E; subst mtx'.
  rewrite Hv in Hs. inversion Hs as [Hgn].
  assert (Ez : grad_F H Jt 2 s = zeros (List.length s)).
  { apply (@grad_F_stationary self H full_jac_dict yt_dict Jt s HH Hd).
    now rewrite Hgn, Eg0. }
  split.
  - now rewrite Eg, Ez.
  - unfold _opt_norm. rewrite Eg, Ez. cbn [bind]. f_equal.
    apply np_linalg_norm_zeros.
Qed.

(** The instance at [p = 2]: the system of its initial problem is [2],
    the gradient at zero is [−1], and [0.5] solves the system. *)
Lemma ex_bootstrap_mtx :
  _opt_hess_2 (ex_model 2 0 false None) ex_hess ex_jac_dict
  = Ok (Mtx (sp_add ex_hess
               (sp_mul (sp_scale (0.5 * IZR 2 * IZR (2 - 1)) (sp_T ex_J)) ex_J))).
Proof. reflexivity. Qed.

Lemma ex_bootstrap_g0 :
  _opt_grad (ex_model 2 0 false None) (zeros 1) 2 ex_hess ex_jac_dict ex_yt_dict
  = Ok [-1].
Proof. cbn. do 2 f_equal. simpl. lra. Qed.

Lemma ex_bootstrap_solution :
  linop_matvec
    (Mtx (sp_add ex_hess
            (sp_mul (sp_scale (0.5 * IZR 2 * IZR (2 - 1)) (sp_T ex_J)) ex_J)))
    [0.5]
  = Ok (vneg [-1]).
Proof. cbn. do 2 f_equal. lra. Qed.

Lemma bootstrap_solution_stationary_witness :
  shape ex_hess = (List.length [0.5], List.length [0.5]) /\
  fit_data (ex_model 2 0 false None) (List.length [0.5]) ex_jac_dict ex_yt_dict
    [(ex_J, [1])] /\
  _opt_grad (ex_model 2 0 false None) [0.5] 2 ex_hess ex_jac_dict ex_yt_dict
  = Ok (zeros (List.length [0.5])) /\
  _opt_norm (ex_model 2 0 false None) [0.5] 2 ex_hess ex_jac_dict ex_yt_dict
  = Ok 0.
Proof.
  split; [reflexivity|]. split; [apply ex_fit_data|].
  apply (@bootstrap_solution_stationary (ex_model 2 0 false None) ex_hess
           ex_jac_dict ex_yt_dict [(ex_J, [1])] _ [-1] [0.5] eq_refl eq_refl
           (ex_fit_data 2 0 false None) ex_bootstrap_mtx ex_bootstrap_g0
           ex_bootstrap_solution).
Defined.

(** ** One Newton iteration *)

Lemma fit_data_targets (self : RMT) (n : nat) (full_jac_dict : jac_dict)
    (yt_dict : dict vec) (Jt : list (spmatrix * vec)) :
  fit_data self n full_jac_dict yt_dict Jt ->
  forall kx, In kx (dict_keys (training_pts self)) ->
    exists t, dict_get yt_dict kx = Ok t.
Proof.
  unfold fit_data. generalize (dict_keys (training_pts self)). intros ks H.
  induction H as [|k jt ks Jt' Hk _ IH]; intros kx; [contradiction|].
  intros [<-|Hin]; [|apply IH, Hin].
  destruct Hk as (_ & Hy & _). eauto.
Qed.

(** X8: a Newton iteration on the column [ind_y], whose coefficient
    vector is [x], initialises the solver with the Hessian of the
    objective at [x] and solves for the right-hand side [−∇F(x)], starting
    from the direction the column keeps from the iteration before; the
    line search starts at [x] with the step [1.0] along the direction the
    solver returned, and the three columns are overwritten with the
    right-hand side, the result of the line search and that direction. *)
Theorem newton_step_newton_system {C : Collaborators} (self : RMT) (H : spmatrix)
    (full_jac_dict : jac_dict) (yt_dict : dict vec) (Jt : list (spmatrix * vec))
    (p : Z) (ind_y nln_iter : nat) (a : arrays) (x d : vec) (tr : list event) :
  solver_ok -> line_search_ok ->
  shape H = (List.length x, List.length x) ->
  dict_keys full_jac_dict = dict_keys (training_pts self) ->
  fit_data self (List.length x) full_jac_dict yt_dict Jt ->
  (ind_y < List.length (a_rhs a))%nat ->
  column (a_sol a) ind_y = Ok x ->
  column (a_d_sol a) ind_y = Ok d ->
  let g := grad_F H Jt p x in
  let func := fun z => _opt_func self z p H full_jac_dict yt_dict in
  let grad := fun z => _opt_grad self z p H full_jac_dict yt_dict in
  exists mtx d' s,
    (forall v, linop_matvec mtx v = Ok (hess_F_action H Jt p x v)) /\
    solver_solve mtx (vneg g) d ind_y = Ok d' /\
    line_search x d' func grad 1.0 = Ok s /\
    newton_step self H full_jac_dict p yt_dict ind_y nln_iter a tr
    = (Ok {| a_rhs := set_column (a_rhs a) ind_y (vneg g);
             a_sol := set_column (a_sol a) ind_y s;
             a_d_sol := set_column (a_d_sol a) ind_y d' |},
       tr ++ [Initialize (Nonlinear ind_y nln_iter) mtx;
              Solve (Nonlinear ind_y nln_iter) (vneg g) d ind_y;
              LineSearch ind_y nln_iter x d']).
Proof.
  intros Hsolver Hls HH Hk Hd Hr Ex Ed g func grad.
  pose proof (fit_data_targets Hd) as Kyt.
  destruct (@opt_hess_action self x p H full_jac_dict yt_dict Jt HH Hk Hd)
    as (mtx & Em & Hv).
  assert (Eg : _opt_grad self x p H full_jac_dict yt_dict = Ok g).
  { apply opt_grad_grad_F; [|exact Hd]. unfold nrows. now rewrite HH. }
  destruct (Hsolver mtx (vneg g) d ind_y) as (d' & Ed').
  destruct (Hls x d' func grad 1.0) as (s & Es).
  { intros z. apply opt_func_ok; assumption. }
  { intros z. apply opt_grad_ok; assumption. }
  exists mtx, d', s. split; [exact Hv|]. split; [exact Ed'|]. split; [exact Es|].
  unfold newton_step.
  rewrite (mbind_lift_Ok _ _ Ex), (mbind_lift_Ok _ _ Em), (mbind_lift_Ok _ _ Eg).
  unfold mbind at 1. unfold emit at 1.
  rewrite (mbind_lift_Ok _ _ (column_set_same _ _ Hr)).
  rewrite (mbind_lift_Ok _ _ Ed).
  unfold mbind at 1. unfold emit at 1.
  rewrite (mbind_lift_Ok _ _ Ed').
  unfold mbind at 1. unfold emit at 1.
  fold func grad.
  rewrite (mbind_lift_Ok _ _ Es).
  unfold ret. rewrite <- !app_assoc. reflexivity.
Qed.

Lemma newton_step_newton_system_witness :
  @solver_ok ex_collaborators /\ @line_search_ok ex_collaborators /\
  fit_data (ex_model 4 10 false None) (List.length [0]) ex_jac_dict ex_yt_dict
    [(ex_J, [1])] /\
  column (a_sol ex_arrays) 0 = Ok [0] /\
  exists mtx d' s,
    (forall v, linop_matvec mtx v
               = Ok (hess_F_action ex_hess [(ex_J, [1])] 4 [0] v)) /\
    @newton_step ex_collaborators (ex_model 4 10 false None) ex_hess ex_jac_dict
      4 ex_yt_dict 0 0 ex_arrays []
    = (Ok {| a_rhs := set_column (a_rhs ex_arrays) 0
                        (vneg (grad_F ex_hess [(ex_J, [1])] 4 [0]));
             a_sol := set_column (a_sol ex_arrays) 0 s;
             a_d_sol := set_column (a_d_sol ex_arrays) 0 d' |},
       [] ++ [Initialize (Nonlinear 0 0) mtx;
              Solve (Nonlinear 0 0) (vneg (grad_F ex_hess [(ex_J, [1])] 4 [0]))
                [0] 0;
              LineSearch 0 0 [0] d']).
Proof.
  split; [exact ex_solver_ok|]. split; [exact ex_line_search_ok|].
  split; [apply ex_fit_data|]. split; [reflexivity|].
  destruct (@newton_step_newton_system ex_collaborators
              (ex_model 4 10 false None) ex_hess ex_jac_dict ex_yt_dict
              [(ex_J, [1])] 4 0 0 ex_arrays [0] [0] []
              ex_solver_ok ex_line_search_ok eq_refl eq_refl
              (ex_fit_data 4 10 false None) (Nat.lt_0_succ 0) eq_refl eq_refl)
    as (mtx & d' & s & Hv & _ & _ & Hstep).
  exists mtx, d', s. split; [exact Hv | exact Hstep].
Defined.

(** ** A linear solver that raises *)

(** A loop over a range that gets through [j] iterations and raises in
    the next one. *)
Lemma for_range_Err {A : Type} (body : nat -> A -> M A) (n j i : nat)
    (a a' : A) (tr tr' tr'' : list event) (e : exn) :
  (j < n)%nat ->
  for_range j i body a tr = (Ok a', tr') ->
  body (i + j)%nat a' tr' = (Err e, tr'') ->
  for_range n i body a tr = (Err e, tr'').
Proof.
  revert n i a tr. induction j as [|j IH]; intros n i a tr Hj Hpre Hfail.
  - destruct n as [|n]; [lia|]. cbn [for_range] in *. unfold ret in Hpre.
    inversion Hpre; subst. rewrite Nat.add_0_r in Hfail.
    unfold mbind. now rewrite Hfail.
  - destruct n as [|n]; [lia|]. cbn [for_range] in *.
    unfold mbind in *. destruct (body i a tr) as [[b|e'] t]; [|discriminate].
    apply (IH n (S i) b t); [lia | exact Hpre |].
    now replace (S i + j)%nat with (i + S j)%nat by lia.
Qed.

Section SolverFailure.
Context {C : Collaborators}.
Variable self : RMT.
Variables (full_hess : spmatrix) (full_jac_dict : jac_dict).
Variables (n ny j : nat) (mtx : linop) (rhs_of sol_of : nat -> vec) (e : exn).

Hypothesis Hj : (j < ny)%nat.
Hypothesis Hsol :
  forall y, (y < j)%nat ->
    solver_solve mtx (rhs_of y) (zeros n) y = Ok (sol_of y).
Hypothesis Hfail : solver_solve mtx (rhs_of j) (zeros n) j = Err e.

(** The solves of the initial problem stop at the first one that
    raises. *)
Lemma initial_solves_fail (tr : list event) :
  for_range ny 0 (initial_solve mtx)
    {| a_rhs := map rhs_of (seq 0 ny); a_sol := repeat (zeros n) ny;
       a_d_sol := repeat (zeros n) ny |} tr
  = (Err e,
     tr ++ map (fun y => Solve Initial (rhs_of y) (zeros n) y) (seq 0 (S j))).
Proof.
  destruct (@for_range_inv _
    (fun k a t =>
       t = tr ++ map (fun y => Solve Initial (rhs_of y) (zeros n) y) (seq 0 k) /\
       a = {| a_rhs := map rhs_of (seq 0 ny);
              a_sol := map sol_of (seq 0 k) ++ repeat (zeros n) (ny - k);
              a_d_sol := repeat (zeros n) ny |})
    (initial_solve mtx) j 0%nat
    {| a_rhs := map rhs_of (seq 0 ny); a_sol := repeat (zeros n) ny;
       a_d_sol := repeat (zeros n) ny |} tr)
    as (a' & tr' & E & -> & ->).
  - simpl. rewrite app_nil_r, Nat.sub_0_r. auto.
  - intros k b t Hk (-> & ->).
    unfold initial_solve. cbn [a_sol a_rhs a_d_sol].
    rewrite (mbind_lift_Ok _ _ (@column_map_seq rhs_of ny k ltac:(lia))).
    rewrite (@repeat_head (zeros n) ny k) by lia.
    assert (Ec : column (map sol_of (seq 0 k) ++ zeros n :: repeat (zeros n) (ny - S k)) k
                 = Ok (zeros n)).
    { apply column_app_at, length_map_seq. }
    rewrite (mbind_lift_Ok _ _ Ec).
    unfold mbind at 1. unfold emit at 1.
    rewrite (mbind_lift_Ok _ _ (@Hsol k ltac:(lia))).
    eexists _, _. split; [reflexivity|]. split.
    + rewrite seq_S, map_app, app_assoc. reflexivity.
    + f_equal.
      rewrite set_column_app_at by apply length_map_seq.
      rewrite seq_S, map_app, <- app_assoc. reflexivity.
  - cbn [Nat.add] in E.
    apply (@for_range_Err _ (initial_solve mtx) ny j 0%nat _ _ _ _ _ e Hj E).
    cbn [Nat.add]. unfold initial_solve. cbn [a_sol a_rhs a_d_sol].
    rewrite (mbind_lift_Ok _ _ (@column_map_seq rhs_of ny j Hj)).
    rewrite (@repeat_head (zeros n) ny j) by exact Hj.
    assert (Ec : column (map sol_of (seq 0 j) ++ zeros n :: repeat (zeros n) (ny - S j)) j
                 = Ok (zeros n)).
    { apply column_app_at, length_map_seq. }
    rewrite (mbind_lift_Ok _ _ Ec).
    unfold mbind at 1. unfold emit at 1.
    unfold mbind, lift. rewrite Hfail.
    rewrite seq_S, map_app, app_assoc. reflexivity.
Qed.

End SolverFailure.

(** X9: when the linear solver raises in the initial linear problem, at
    the output [j] after it returned for the outputs before, the fit
    driver raises that exception; the solver was initialised once and
    asked for the outputs up to [j], each from zero, and nothing else
    happened: no later output is solved and no Newton iteration runs. *)
Theorem solve_solver_failure {C : Collaborators} (self : RMT) (H : spmatrix)
    (full_jac_dict : jac_dict) (sz : sizes) (mtx : linop)
    (rhs_of sol_of : nat -> vec) (j : nat) (e : exn) (tr : list event) :
  num self = Some sz ->
  _opt_hess_2 self H full_jac_dict = Ok mtx ->
  (forall y, (y < num_y sz)%nat ->
     exists ytd g,
       _get_yt_dict self y = Ok ytd /\
       _opt_grad self (zeros (num_dof sz)) 2 H full_jac_dict ytd = Ok g /\
       rhs_of y = vneg g) ->
  (j < num_y sz)%nat ->
  (forall y, (y < j)%nat ->
     solver_solve mtx (rhs_of y) (zeros (num_dof sz)) y = Ok (sol_of y)) ->
  solver_solve mtx (rhs_of j) (zeros (num_dof sz)) j = Err e ->
  _solve self H full_jac_dict tr
  = (Err e,
     tr ++ Initialize Initial mtx
        :: map (fun y => Solve Initial (rhs_of y) (zeros (num_dof sz)) y)
             (seq 0 (S j))).
Proof.
  intros Hnum Hmtx Hrhs Hj Hsol Hfail.
  unfold _solve, get_num. rewrite Hnum.
  rewrite (@mbind_lift_Ok _ _ _ _ _ sz eq_refl).
  assert (Ei :
    initial_linear_problem self H full_jac_dict (num_y sz)
      {| a_rhs := repeat (zeros (num_dof sz)) (num_y sz);
         a_sol := repeat (zeros (num_dof sz)) (num_y sz);
         a_d_sol := repeat (zeros (num_dof sz)) (num_y sz) |} tr
    = (Err e,
       tr ++ Initialize Initial mtx
          :: map (fun y => Solve Initial (rhs_of y) (zeros (num_dof sz)) y)
               (seq 0 (S j)))).
  { unfold initial_linear_problem.
    rewrite (mbind_lift_Ok _ _ Hmtx).
    rewrite (@mbind_Ok _ _ _ _ _ _ _
               (@assemble_rhs_run self H full_jac_dict (num_dof sz) (num_y sz)
                  rhs_of Hrhs tr)).
    unfold mbind at 1. unfold emit at 1.
    cbn [a_rhs]. rewrite length_map, length_seq.
    rewrite (@initial_solves_fail C (num_dof sz) (num_y sz) j mtx rhs_of sol_of
               e Hj Hsol Hfail).
    rewrite <- app_assoc. reflexivity. }
  unfold mbind at 1. rewrite Ei. reflexivity.
Qed.

Lemma ex_bootstrap_rhs :
  forall y, (y < num_y ex_sizes)%nat ->
    exists ytd g,
      _get_yt_dict (ex_model 2 0 false None) y = Ok ytd /\
      _opt_grad (ex_model 2 0 false None) (zeros (num_dof ex_sizes)) 2 ex_hess
        ex_jac_dict ytd = Ok g /\
      vneg [-1] = vneg g.
Proof.
  intros y Hy. assert (y = 0%nat) as -> by (simpl in Hy; lia).
  exists ex_yt_dict, [-1]. split; [reflexivity|].
  split; [exact ex_bootstrap_g0 | reflexivity].
Qed.

Lemma solve_solver_failure_witness :
  num (ex_model 2 0 false None) = Some ex_sizes /\
  (0 < num_y ex_sizes)%nat /\
  @solver_solve ex_failing_collaborators
    (Mtx (sp_add ex_hess
            (sp_mul (sp_scale (0.5 * IZR 2 * IZR (2 - 1)) (sp_T ex_J)) ex_J)))
    (vneg [-1]) (zeros (num_dof ex_sizes)) 0 = Err ValueError /\
  @_solve ex_failing_collaborators (ex_model 2 0 false None) ex_hess ex_jac_dict []
  = (Err ValueError,
     [] ++ Initialize Initial
             (Mtx (sp_add ex_hess
                     (sp_mul (sp_scale (0.5 * IZR 2 * IZR (2 - 1)) (sp_T ex_J))
                        ex_J)))
        :: map (fun y => Solve Initial (vneg [-1]) (zeros (num_dof ex_sizes)) y)
             (seq 0 1)).
Proof.
  split; [reflexivity|]. split; [simpl; lia|]. split; [reflexivity|].
  apply (@solve_solver_failure ex_failing_collaborators
           (ex_model 2 0 false None) ex_hess ex_jac_dict ex_sizes _
           (fun _ => vneg [-1]) (fun _ => []) 0 ValueError []
           eq_refl ex_bootstrap_mtx ex_bootstrap_rhs).
  - simpl. lia.
  - intros y Hy. lia.
  - reflexivity.
Defined.

(** ** The target set of an output *)

Lemma dict_get_NoDup {A : Type} (d : dict A) (k : Z) (a : A) :
  NoDup (dict_keys d) -> In (k, a) d -> dict_get d k = Ok a.
Proof.
  intros Hnd Hin. apply in_split in Hin. destruct Hin as (pre & post & ->).
  apply dict_get_middle. unfold dict_keys in Hnd. rewrite map_app in Hnd.
  cbn [map fst] in Hnd. apply NoDup_remove_2 in Hnd.
  intros Hk. apply Hnd. apply in_or_app. now left.
Qed.

(** The loop of [_get_yt_dict] stores under every order the result of
    one function of the order. *)
Lemma get_yt_dict_loop (self : RMT) (ind_y : nat) (ks : list Z) (d0 : dict vec) :
  for_in ks (fun kx yt_dict =>
    '(xt, yt) <- dict_get (training_pts self) kx ;;
    c <- column yt ind_y ;; Ok (dict_set yt_dict kx c)) d0
  = for_in ks (fun kx d =>
      a <- ('(xt, yt) <- dict_get (training_pts self) kx ;; column yt ind_y) ;;
      Ok (dict_set d kx a)) d0.
Proof.
  revert d0. induction ks as [|k ks IH]; intros d0; cbn [for_in]; [reflexivity|].
  destruct (dict_get (training_pts self) k) as [[xt yt]|e]; cbn [bind];
    [|reflexivity].
  destruct (column yt ind_y) as [c|e]; cbn [bind]; [apply IH | reflexivity].
Qed.

Lemma get_yt_dict_lookup_aux (self : RMT) (ind_y : nat) (yt_dict : dict vec) :
  _get_yt_dict self ind_y = Ok yt_dict ->
  forall kx xt yt, dict_get (training_pts self) kx = Ok (xt, yt) ->
    exists c, column yt ind_y = Ok c /\ dict_get yt_dict kx = Ok c.
Proof.
  intros H kx xt yt Hget. unfold _get_yt_dict in H.
  rewrite get_yt_dict_loop in H.
  destruct (for_in_dict_set _ _ _ H kx) as [Hin _].
  destruct Hin as (c & Hc & Hd).
  { apply dict_get_In in Hget. unfold dict_keys.
    change kx with (fst (kx, (xt, yt))). now apply in_map. }
  rewrite Hget in Hc. cbn [bind] in Hc. eauto.
Qed.

(** X10: when the target set of the output [ind_y] is built, it has the
    derivative orders of the training set, in their order, and holds for
    each of them the column [ind_y] of the order's target array. *)
Theorem get_yt_dict_lookup (self : RMT) (ind_y : nat) (yt_dict : dict vec) :
  NoDup (dict_keys (training_pts self)) ->
  _get_yt_dict self ind_y = Ok yt_dict ->
  dict_keys yt_dict = dict_keys (training_pts self) /\
  forall kx xt yt, dict_get (training_pts self) kx = Ok (xt, yt) ->
    exists c, column yt ind_y = Ok c /\ dict_get yt_dict kx = Ok c.
Proof.
  intros Hnd H. split.
  - unfold _get_yt_dict in H. rewrite get_yt_dict_loop in H.
    apply (@for_in_dict_set_keys _ _ _ [] yt_dict Hnd) in H;
      [exact H | intros k _ []].
  - now apply get_yt_dict_lookup_aux.
Qed.

Lemma get_yt_dict_lookup_witness :
  NoDup (dict_keys (training_pts (ex_model 4 10 false None))) /\
  _get_yt_dict (ex_model 4 10 false None) 0 = Ok ex_yt_dict /\
  dict_keys ex_yt_dict = dict_keys (training_pts (ex_model 4 10 false None)) /\
  forall kx xt yt,
    dict_get (training_pts (ex_model 4 10 false None)) kx = Ok (xt, yt) ->
    exists c, column yt 0 = Ok c /\ dict_get ex_yt_dict kx = Ok c.
Proof.
  assert (Hnd : NoDup (dict_keys (training_pts (ex_model 4 10 false None)))).
  { constructor; [intros [] | constructor]. }
  split; [exact Hnd|]. split; [reflexivity|].
  apply (@get_yt_dict_lookup (ex_model 4 10 false None) 0 ex_yt_dict Hnd eq_refl).
Defined.

(** X11: the target set of the output [ind_y] is built exactly when the
    target array of every derivative order has a column [ind_y]; when it
    is not built the exception is an [IndexError]. *)
Theorem get_yt_dict_IndexError (self : RMT) (ind_y : nat) :
  NoDup (dict_keys (training_pts self)) ->
  ((exists yt_dict, _get_yt_dict self ind_y = Ok yt_dict) <->
   Forall (fun e => (ind_y < List.length (snd (snd e)))%nat) (training_pts self)) /\
  (forall e, _get_yt_dict self ind_y = Err e -> e = IndexError).
Proof.
  intros Hnd. split; [split|].
  - intros (yt_dict & H). apply Forall_forall. intros [kx [xt yt]] Hin.
    destruct (@get_yt_dict_lookup_aux self ind_y yt_dict H kx xt yt)
      as (c & Hc & _).
    + now apply dict_get_NoDup.
    + cbn [snd]. unfold column in Hc.
      destruct (nth_error yt ind_y) eqn:E; [|discriminate].
      apply nth_error_Some. congruence.
  - intros Hall. unfold _get_yt_dict. apply for_in_ok. intros kx b Hin.
    destruct (dict_get_in_keys _ _ Hin) as ([xt yt] & Hget).
    rewrite Hget. cbn [bind].
    apply dict_get_In in Hget. rewrite Forall_forall in Hall.
    specialize (Hall _ Hget). cbn [snd] in Hall.
    destruct (column_Some _ Hall) as (c & ->). cbn [bind]. eauto.
  - intros e H. unfold _get_yt_dict in H.
    destruct (for_in_Err _ _ _ H) as (ks1 & k & ks2 & d & Hks & _ & Hk).
    destruct (dict_get (training_pts self) k) as [[xt yt]|e'] eqn:Hget.
    + cbn [bind] in Hk. unfold column in Hk.
      destruct (nth_error yt ind_y); cbn [bind] in Hk; [discriminate|].
      now inversion Hk.
    + exfalso. destruct (@dict_get_in_keys _ (training_pts self) k)
        as (a & Ha); [|congruence].
      rewrite Hks. apply in_or_app. right. now left.
Qed.

Lemma get_yt_dict_IndexError_witness :
  NoDup (dict_keys (training_pts (ex_model 4 10 false None))) /\
  ((exists yt_dict, _get_yt_dict (ex_model 4 10 false None) 1 = Ok yt_dict) <->
   Forall (fun e => (1 < List.length (snd (snd e)))%nat)
     (training_pts (ex_model 4 10 false None))) /\
  (forall e, _get_yt_dict (ex_model 4 10 false None) 1 = Err e -> e = IndexError).
Proof.
  assert (Hnd : NoDup (dict_keys (training_pts (ex_model 4 10 false None)))).
  { constructor; [intros [] | constructor]. }
  split; [exact Hnd|].
  apply (@get_yt_dict_IndexError (ex_model 4 10 false None) 1 Hnd).
Defined.

(** ** Training sets the builder assembles *)

Section InDomain.
Context {C : Collaborators}.
Variables (self : RMT) (sz : sizes).
Hypothesis shape_ok : training_shape self.

(** The iteration of an order that can be assembled stores its Jacobian
    with the transpose. *)
Lemma approx_term_ok (kx : Z) (xt yt : list vec) (d : jac_dict) :
  dict_get (training_pts self) kx = Ok (xt, yt) ->
  order_ok self sz (kx, (xt, yt)) ->
  exists J, approx_term self sz kx d = Ok (dict_set d kx (J, sp_T J)).
Proof.
  intros Hget (Hne & Hin & Hfit). cbn [fst snd] in *.
  pose proof (@training_rows self shape_ok kx xt yt Hget) as Hrows.
  unfold approx_term. rewrite Hget. cbn [bind].
  destruct xt as [|r rs]; [contradiction|].
  cbn [np_min_axis0 np_max_axis0 bind].
  assert (E1 : np_all_le (map fst (xlimits (sm_options self)))
                 (fold_left (vmap2 Rmin) rs r) = true).
  { destruct (np_all_le (map fst (xlimits (sm_options self)))
                (fold_left (vmap2 Rmin) rs r)) eqn:E; [reflexivity|].
    apply (@below_min_iff _ _ _ Hrows) in E.
    destruct E as (pt & Hpt & j & Hj & Hlt).
    rewrite Forall_forall in Hin. specialize (Hin pt Hpt j Hj). lra. }
  assert (E2 : np_all_le (fold_left (vmap2 Rmax) rs r)
                 (map snd (xlimits (sm_options self))) = true).
  { destruct (np_all_le (fold_left (vmap2 Rmax) rs r)
                (map snd (xlimits (sm_options self)))) eqn:E; [reflexivity|].
    apply (@above_max_iff _ _ _ Hrows) in E.
    destruct E as (pt & Hpt & j & Hj & Hlt).
    rewrite Forall_forall in Hin. specialize (Hin pt Hpt j Hj). lra. }
  rewrite E1, E2. cbn [negb].
  destruct (_compute_jac (Some kx) 0 (r :: rs)) as [[data rows] cols].
  destruct Hfit as (Hr & Hc & Hrs & Hcs). cbn [fst snd] in *.
  rewrite csc_matrix_ok by (try assumption; congruence).
  cbn [bind]. eauto.
Qed.

Lemma approx_terms_ok (ks : list Z) (d : jac_dict) :
  Forall (order_ok self sz) (training_pts self) ->
  (forall k, In k ks -> In k (dict_keys (training_pts self))) ->
  exists d', for_in ks (approx_term self sz) d = Ok d'.
Proof.
  intros Hall Hks. apply for_in_ok. intros kx b Hin.
  destruct (dict_get_in_keys _ _ (Hks kx Hin)) as ([xt yt] & Hget).
  destruct (@approx_term_ok kx xt yt b Hget) as (J & ->); [|eauto].
  rewrite Forall_forall in Hall. apply Hall. now apply dict_get_In.
Qed.

End InDomain.

(** X13: the builder returns a Jacobian set when every derivative order
    of the training set has at least one point, every point is within
    the bounds of the domain, a point on a bound included, and the
    assembler returns triplets that fit the Jacobian of the order. *)
Theorem compute_approx_terms_in_domain {C : Collaborators} (self : RMT)
    (sz : sizes) :
  num self = Some sz ->
  training_shape self ->
  Forall (order_ok self sz) (training_pts self) ->
  exists full_jac_dict, _compute_approx_terms self = Ok full_jac_dict.
Proof.
  intros Hnum Hshape Hall. unfold _compute_approx_terms, get_num.
  rewrite Hnum. cbn [bind].
  apply (@approx_terms_ok C self sz Hshape _ [] Hall). auto.
Qed.

Lemma ex_order_ok (p max_iter : Z) (ext : bool) (s : option (list vec)) :
  @order_ok ex_collaborators (ex_model p max_iter ext s) ex_sizes
    (0%Z, ([[0.5]], [[1]])).
Proof.
  split; [discriminate|]. split.
  - constructor; [|constructor]. intros j Hj. simpl in Hj.
    assert (j = 0%nat) as -> by lia. unfold vnth. simpl. lra.
  - unfold triplets_fit. simpl. repeat split; repeat constructor.
Qed.

Lemma compute_approx_terms_in_domain_witness :
  num (ex_model 4 10 false None) = Some ex_sizes /\
  training_shape (ex_model 4 10 false None) /\
  Forall (@order_ok ex_collaborators (ex_model 4 10 false None) ex_sizes)
    (training_pts (ex_model 4 10 false None)) /\
  exists full_jac_dict,
    @_compute_approx_terms ex_collaborators (ex_model 4 10 false None)
    = Ok full_jac_dict.
Proof.
  assert (Hs : training_shape (ex_model 4 10 false None))
    by (repeat constructor).
  assert (Ho : Forall (@order_ok ex_collaborators (ex_model 4 10 false None)
                         ex_sizes)
                 (training_pts (ex_model 4 10 false None))).
  { constructor; [apply ex_order_ok | constructor]. }
  split; [reflexivity|]. split; [exact Hs|]. split; [exact Ho|].
  apply (@compute_approx_terms_in_domain ex_collaborators
           (ex_model 4 10 false None) ex_sizes eq_refl Hs Ho).
Defined.

(** X14: a derivative order without a training point makes the builder
    raise a [ValueError], from the minimum of an empty array, when the
    orders before it can be assembled. *)
Theorem compute_approx_terms_empty_order {C : Collaborators} (self : RMT)
    (sz : sizes) (pre post : dict (list vec * list vec)) (kx : Z)
    (yt : list vec) :
  num self = Some sz ->
  training_shape self ->
  NoDup (dict_keys (training_pts self)) ->
  training_pts self = pre ++ (kx, ([], yt)) :: post ->
  Forall (order_ok self sz) pre ->
  _compute_approx_terms self = Err ValueError.
Proof.
  intros Hnum Hshape Hnd Htp Hpre. unfold _compute_approx_terms, get_num.
  rewrite Hnum. cbn [bind].
  assert (Hnotin : ~ In kx (dict_keys pre)).
  { unfold dict_keys in Hnd. rewrite Htp, map_app in Hnd. cbn [map fst] in Hnd.
    apply NoDup_remove_2 in Hnd. intros Hin. apply Hnd.
    apply in_or_app. now left. }
  replace (dict_keys (training_pts self))
    with (dict_keys pre ++ kx :: dict_keys post)
    by (rewrite Htp; unfold dict_keys; now rewrite map_app).
  apply for_in_first_error.
  - intros k b Hk.
    unfold dict_keys in Hk. apply in_map_iff in Hk.
    destruct Hk as ([k' [xt' yt']] & Ek & Hin). cbn [fst] in Ek. subst k'.
    assert (Hget : dict_get (training_pts self) k = Ok (xt', yt')).
    { apply dict_get_NoDup; [exact Hnd|]. rewrite Htp. apply in_or_app. now left. }
    destruct (@approx_term_ok C self sz Hshape k xt' yt' b Hget) as (J & ->);
      [|eauto].
    rewrite Forall_forall in Hpre. now apply Hpre.
  - intros b. unfold approx_term.
    rewrite Htp, (@dict_get_middle _ pre post kx ([], yt) Hnotin).
    reflexivity.
Qed.

Lemma compute_approx_terms_empty_order_witness :
  num ex4_model = Some ex_sizes /\
  training_shape ex4_model /\
  NoDup (dict_keys (training_pts ex4_model)) /\
  training_pts ex4_model = [(0%Z, ([[0.5]], [[1]]))] ++ (1%Z, ([], [[]])) :: [] /\
  @_compute_approx_terms ex_collaborators ex4_model = Err ValueError.
Proof.
  assert (Hs : training_shape ex4_model) by (repeat constructor).
  assert (Hnd : NoDup (dict_keys (training_pts ex4_model))).
  { constructor; [intros [E|[]]; discriminate|].
    constructor; [intros [] | constructor]. }
  split; [reflexivity|]. split; [exact Hs|]. split; [exact Hnd|].
  split; [reflexivity|].
  apply (@compute_approx_terms_empty_order ex_collaborators ex4_model ex_sizes
           [(0%Z, ([[0.5]], [[1]]))] [] 1%Z [[]] eq_refl Hs Hnd eq_refl).
  constructor; [|constructor].
  destruct (ex_order_ok 4 10 false None) as (H1 & H2 & H3).
  split; [exact H1|]. split; [exact H2 | exact H3].
Defined.

Lemma compute_approx_terms_sound_witness :
  num (ex_model 4 10 false None) = Some ex_sizes /\
  NoDup (dict_keys (training_pts (ex_model 4 10 false None))) /\
  @_compute_approx_terms ex_collaborators (ex_model 4 10 false None)
  = Ok ex_jac_dict /\
  dict_keys ex_jac_dict = dict_keys (training_pts (ex_model 4 10 false None)) /\
  forall kx, In kx (dict_keys (training_pts (ex_model 4 10 false None))) ->
    exists xt yt J,
      dict_get (training_pts (ex_model 4 10 false None)) kx = Ok (xt, yt) /\
      dict_get ex_jac_dict kx = Ok (J, sp_T J) /\
      shape J = (List.length xt, num_coeff ex_sizes).
Proof.
  assert (Hnd : NoDup (dict_keys (training_pts (ex_model 4 10 false None)))).
  { constructor; [intros [] | constructor]. }
  split; [reflexivity|]. split; [exact Hnd|].
  split; [apply ex_builder|].
  apply (@compute_approx_terms_sound ex_collaborators (ex_model 4 10 false None)
           ex_sizes ex_jac_dict eq_refl Hnd (ex_builder 4 10 false None)).
Defined.

(** ** The shape of a prediction and the range of the derivative index *)

Lemma csc_matrix_shape (data : vec) (rows cols : list nat) (shp : nat * nat)
    (m : spmatrix) :
  csc_matrix data rows cols shp = Ok m -> shape m = shp.
Proof.
  unfold csc_matrix. destruct (_ && _)%bool; [|discriminate].
  intros H. now inversion H.
Qed.

(** X15: a prediction that [evaluate] returns has a column per column
    of the coefficient matrix and, in every column, an entry per query
    point. *)
Theorem evaluate_shape {C : Collaborators} (self : RMT) (x : list vec)
    (kx : option Z) (y : list vec) :
  evaluate self x kx = Ok y ->
  exists s,
    sol self = Some s /\
    List.length y = List.length s /\
    Forall (fun c => List.length c = List.length x) y.
Proof.
  unfold evaluate, get_num, get_sol.
  destruct (num self) as [sz|]; [|discriminate]. cbn [bind].
  destruct (if extrapolate (sm_options self)
            then extrapolation self (List.length x) sz x kx (_compute_jac kx 0 x)
            else Ok (_compute_jac kx 0 x)) as [[[data rows] cols]|e];
    [|discriminate].
  cbn [bind].
  destruct (csc_matrix data rows cols (List.length x, num_coeff sz))
    as [mtx|e] eqn:Em; [|discriminate].
  cbn [bind]. destruct (sol self) as [s|]; [|discriminate]. cbn [bind].
  intros H. inversion H; subst y. exists s. split; [reflexivity|].
  split; [apply length_map|].
  apply Forall_map, Forall_forall. intros c _.
  rewrite length_sp_matvec. unfold nrows.
  now rewrite (csc_matrix_shape _ _ _ _ Em).
Qed.

Lemma evaluate_shape_witness :
  @evaluate ex_collaborators (ex_model 4 10 false (Some [[1]])) [[0.5]] (Some 0%Z)
  = Ok (map (sp_matvec (mk_spmatrix (1%nat, 1%nat) (coo_entry [1] [0%nat] [0%nat])))
          [[1]]) /\
  exists s,
    sol (ex_model 4 10 false (Some [[1]])) = Some s /\
    List.length
      (map (sp_matvec (mk_spmatrix (1%nat, 1%nat) (coo_entry [1] [0%nat] [0%nat])))
         [[1]])
    = List.length s /\
    Forall (fun c => List.length c = List.length [[0.5]])
      (map (sp_matvec (mk_spmatrix (1%nat, 1%nat) (coo_entry [1] [0%nat] [0%nat])))
         [[1]]).
Proof.
  split; [reflexivity|].
  apply (@evaluate_shape ex_collaborators (ex_model 4 10 false (Some [[1]]))
           [[0.5]] (Some 0%Z) _ eq_refl).
Defined.

Lemma length_as_bool_float (dx : list vec) :
  List.length (as_bool_float dx) = List.length dx.
Proof. unfold as_bool_float. apply length_map. Qed.

Lemma py_column_out_of_range (a : list vec) (j : Z) :
  (j < - Z.of_nat (List.length a) \/ Z.of_nat (List.length a) <= j)%Z ->
  py_column a j = Err IndexError.
Proof.
  intros H. unfold py_column.
  destruct (Z.leb_spec 0 j), (Z.ltb_spec j (Z.of_nat (List.length a)));
    cbn [andb]; try lia;
    destruct (Z.leb_spec (- Z.of_nat (List.length a)) j), (Z.ltb_spec j 0);
    cbn [andb]; try lia; reflexivity.
Qed.

(** X16: with extrapolation, at least one input and an offset array with
    a column per input, [evaluate] raises an [IndexError] for every
    non-zero derivative index [kx] with [kx − 1] outside the columns of the
    offset array, counted from either end: [kx] above the number of inputs,
    or [kx − 1] below its negative. *)
Theorem evaluate_kx_out_of_range {C : Collaborators} (self : RMT) (sz : sizes)
    (x : list vec) (k : Z) :
  num self = Some sz ->
  extrapolate (sm_options self) = true ->
  (0 < num_x sz)%nat ->
  List.length
    (compute_ext_dist (num_x sz) (List.length x)
       (List.length x * num_support sz) (xlimits (sm_options self)) x)
  = num_x sz ->
  k <> 0%Z ->
  (k - 1 < - Z.of_nat (num_x sz) \/ Z.of_nat (num_x sz) <= k - 1)%Z ->
  evaluate self x (Some k) = Err IndexError.
Proof.
  intros Hnum Hext Hnx Hdx Hk Hrange.
  unfold evaluate, get_num. rewrite Hnum, Hext. cbn [bind].
  unfold extrapolation.
  set (dx := compute_ext_dist (num_x sz) (List.length x)
               (List.length x * num_support sz) (xlimits (sm_options self)) x)
    in *.
  destruct (num_x sz) as [|m] eqn:Em; [lia|].
  cbn [seq for_in].
  destruct (_compute_jac (Some k) 0 x) as [[data rows] cols].
  assert (E : first_order_term x (Some k) dx (as_bool_float dx) 0
              = Err IndexError).
  { unfold first_order_term.
    destruct (_compute_jac (Some k) (0 + 1) x) as [[data_tmp rows'] cols'].
    destruct (@column_Some dx 0 ltac:(lia)) as (c & ->). cbn [bind].
    cbn [py_ne_0 py_minus_1].
    destruct (Z.eqb_spec k 0) as [|_]; [contradiction|]. cbn [negb bind].
    rewrite py_column_out_of_range; [reflexivity|].
    now rewrite length_as_bool_float, Hdx. }
  rewrite E. reflexivity.
Qed.

Lemma evaluate_kx_out_of_range_witness :
  num (ex_model 4 10 true (Some [[1]])) = Some ex_sizes /\
  extrapolate (sm_options (ex_model 4 10 true (Some [[1]]))) = true /\
  (Z.of_nat (num_x ex_sizes) <= 2 - 1)%Z /\
  @evaluate ex_collaborators (ex_model 4 10 true (Some [[1]])) [[0.5]] (Some 2%Z)
  = Err IndexError.
Proof.
  split; [reflexivity|]. split; [reflexivity|]. split; [simpl; lia|].
  apply (@evaluate_kx_out_of_range ex_collaborators
           (ex_model 4 10 true (Some [[1]])) ex_sizes [[0.5]] 2%Z
           eq_refl eq_refl).
  - simpl. lia.
  - reflexivity.
  - discriminate.
  - right. simpl. lia.
Defined.

(** ** The cache of [fit] *)

(** A fit that returns with [save_solution] set has saved the
    coefficients and the sizes of the instance it returns. *)
Lemma fit_saves {K : Caching} (f : RMT -> M RMT) (o : fit_options) (self self1 : RMT)
    (fs fs1 : files) (tr tr1 : list event) :
  save_solution o = true ->
  fit f o self fs tr = (Ok self1, fs1, tr1) ->
  exists s n,
    sol self1 = Some s /\ num self1 = Some n /\
    fs1 = _caching_save (name o ++ ".sm")%string (_caching_checksum_sm self)
            {| data_sol := s; data_num := n |} fs.
Proof.
  intros Hsave. unfold fit. rewrite Hsave.
  destruct (match _caching_load (name o ++ ".sm") (_caching_checksum_sm self) fs
            with
            | Some data => (Ok (load_data self data), tr)
            | None => f self tr
            end) as [[self'|e] tr'].
  - unfold get_sol, get_num.
    destruct (sol self') as [s|] eqn:Es; [|discriminate].
    destruct (num self') as [n|] eqn:En; [|discriminate].
    intros H. inversion H; subst. eauto.
  - discriminate.
Qed.

(** X17: with [save_solution] set and a cache that returns what was
    saved, a fit that returns has saved the coefficients and the sizes it
    assigned; a later fit of an instance in the state the first one
    started from, on the files the first one left, loads them: it returns
    the instance with these coefficients and sizes without running the fit
    method, whatever that method is, adds no event to the trace and saves
    the same data again. *)
Theorem fit_cache_round_trip {K : Caching} (f g : RMT -> M RMT) (o : fit_options)
    (self self1 : RMT) (fs fs1 : files) (tr tr1 tr' : list event) :
  cache_ok ->
  save_solution o = true ->
  fit f o self fs tr = (Ok self1, fs1, tr1) ->
  exists s n,
    sol self1 = Some s /\ num self1 = Some n /\
    _caching_load (name o ++ ".sm")%string (_caching_checksum_sm self) fs1
    = Some {| data_sol := s; data_num := n |} /\
    fit g o self fs1 tr'
    = (Ok (load_data self {| data_sol := s; data_num := n |}),
       _caching_save (name o ++ ".sm")%string (_caching_checksum_sm self)
         {| data_sol := s; data_num := n |} fs1,
       tr').
Proof.
  intros Hcache Hsave Hfit.
  destruct (fit_saves f o self fs tr Hsave Hfit) as (s & n & Es & En & ->).
  exists s, n. split; [exact Es|]. split; [exact En|].
  assert (El := Hcache (name o ++ ".sm")%string (_caching_checksum_sm self)
                  {| data_sol := s; data_num := n |} fs).
  split; [exact El|].
  unfold fit. rewrite Hsave, El. reflexivity.
Qed.

Lemma ex_cache_ok : @cache_ok ex_caching.
Proof.
  intros filename c data fs. cbn. now rewrite String.eqb_refl.
Qed.

Lemma fit_cache_round_trip_witness :
  @cache_ok ex_caching /\
  @fit ex_caching ex_subclass_fit {| name := "RMTS"; save_solution := true |}
    (ex_model 4 10 false None) None []
  = (Ok (ex_model 4 10 false (Some [[1]])),
     Some ("RMTS.sm"%string, {| data_sol := [[1]]; data_num := ex_sizes |}), []) /\
  exists s n,
    sol (ex_model 4 10 false (Some [[1]])) = Some s /\
    num (ex_model 4 10 false (Some [[1]])) = Some n /\
    @fit ex_caching (@_fit ex_collaborators)
      {| name := "RMTS"; save_solution := true |}
      (ex_model 4 10 false None)
      (Some ("RMTS.sm"%string, {| data_sol := [[1]]; data_num := ex_sizes |})) []
    = (Ok (load_data (ex_model 4 10 false None)
             {| data_sol := s; data_num := n |}),
       @_caching_save ex_caching "RMTS.sm"
         (@_caching_checksum_sm ex_caching (ex_model 4 10 false None))
         {| data_sol := s; data_num := n |}
         (Some ("RMTS.sm"%string, {| data_sol := [[1]]; data_num := ex_sizes |})),
       []).
Proof.
  split; [exact ex_cache_ok|]. split; [reflexivity|].
  destruct (@fit_cache_round_trip ex_caching ex_subclass_fit
              (@_fit ex_collaborators)
              {| name := "RMTS"; save_solution := true |}
              (ex_model 4 10 false None) (ex_model 4 10 false (Some [[1]]))
              None
              (Some ("RMTS.sm"%string,
                     {| data_sol := [[1]]; data_num := ex_sizes |}))
              [] [] [] ex_cache_ok eq_refl eq_refl)
    as (s & n & Es & En & _ & Hfit).
  exists s, n. split; [exact Es|]. split; [exact En | exact Hfit].
Defined.

(** ** The driver at the exponent 2 with an exact solver *)

Section ExactBootstrap.
Context {C : Collaborators}.
Variable self : RMT.
Variables (full_hess : spmatrix) (full_jac_dict : jac_dict).
Variable sz : sizes.

Let n := num_dof sz.
Let ny := num_y sz.

Variables (mtx : linop) (rhs_of sol_of : nat -> vec).

Hypothesis Hshape : shape full_hess = (n, n).
Hypothesis keys_jac : dict_keys full_jac_dict = dict_keys (training_pts self).
Hypothesis Hmtx : _opt_hess_2 self full_hess full_jac_dict = Ok mtx.
Hypothesis Hdata :
  forall y, (y < ny)%nat ->
    exists ytd Jt,
      _get_yt_dict self y = Ok ytd /\
      fit_data self n full_jac_dict ytd Jt /\
      rhs_of y = vneg (grad_F full_hess Jt 2 (zeros n)).
Hypothesis Hsol :
  forall y, (y < ny)%nat ->
    solver_solve mtx (rhs_of y) (zeros n) y = Ok (sol_of y) /\
    linop_matvec mtx (sol_of y) = Ok (rhs_of y) /\
    List.length (sol_of y) = n.

Lemma exact_rhs :
  forall y, (y < ny)%nat ->
    exists ytd g,
      _get_yt_dict self y = Ok ytd /\
      _opt_grad self (zeros n) 2 full_hess full_jac_dict ytd = Ok g /\
      rhs_of y = vneg g.
Proof.
  intros y Hy. destruct (Hdata Hy) as (ytd & Jt & Ey & Hd & Er).
  exists ytd, (grad_F full_hess Jt 2 (zeros n)).
  split; [exact Ey|]. split; [|exact Er].
  apply opt_grad_grad_F.
  - unfold nrows. now rewrite Hshape, length_zeros.
  - now rewrite length_zeros.
Qed.

(** The solution of the initial problem has the gradient norm [0]. *)
Lemma exact_norm (y : nat) (ytd : dict vec) (Jt : list (spmatrix * vec)) :
  (y < ny)%nat ->
  fit_data self n full_jac_dict ytd Jt ->
  rhs_of y = vneg (grad_F full_hess Jt 2 (zeros n)) ->
  _opt_norm self (sol_of y) 2 full_hess full_jac_dict ytd = Ok 0.
Proof.
  intros Hy Hd Er. destruct (Hsol Hy) as (_ & Ex & Hl).
  assert (HH : shape full_hess = (List.length (sol_of y), List.length (sol_of y)))
    by now rewrite Hl.
  assert (Hd' : fit_data self (List.length (sol_of y)) full_jac_dict ytd Jt)
    by now rewrite Hl.
  destruct (@opt_hess_2_gauss_newton self full_hess full_jac_dict
              (List.length (sol_of y)) (map fst Jt) HH keys_jac
              (holds_order_jac Hd'))
    as (mtx' & Hm' & Hv).
  assert (E : Ok mtx' = Ok mtx) by exact (eq_trans (eq_sym Hm') Hmtx).
  inversion E; subst mtx'.
  rewrite Hv in Ex. inversion Ex as [Hgn].
  unfold _opt_norm.
  rewrite (@opt_grad_grad_F self (sol_of y) 2 full_hess full_jac_dict ytd Jt)
    by (try exact Hd'; unfold nrows; now rewrite HH).
  rewrite (@grad_F_stationary self full_hess full_jac_dict ytd Jt (sol_of y)
             HH Hd') by (now rewrite Hgn, Er, Hl).
  cbn [bind]. f_equal. apply np_linalg_norm_zeros.
Qed.

End ExactBootstrap.

(** X18: for the exponent 2, a positive budget of Newton iterations and
    solves of the initial linear problem that are exact, the fit driver
    returns and reports at the iteration 0 of every output the gradient
    norm [0]: the solution of the initial problem is a stationary point.
    The first Newton iteration of every output is executed all the same. *)
Theorem solve_exact_bootstrap {C : Collaborators} (self : RMT) (H : spmatrix)
    (full_jac_dict : jac_dict) (sz : sizes) (mtx : linop)
    (rhs_of sol_of : nat -> vec) (tr : list event) :
  num self = Some sz ->
  approx_norm (sm_options self) = 2%Z ->
  (0 < max_nln_iter (sm_options self))%Z ->
  shape H = (num_dof sz, num_dof sz) ->
  dict_keys full_jac_dict = dict_keys (training_pts self) ->
  solver_ok -> line_search_ok ->
  _opt_hess_2 self H full_jac_dict = Ok mtx ->
  (forall y, (y < num_y sz)%nat ->
     exists ytd Jt,
       _get_yt_dict self y = Ok ytd /\
       fit_data self (num_dof sz) full_jac_dict ytd Jt /\
       rhs_of y = vneg (grad_F H Jt 2 (zeros (num_dof sz)))) ->
  (forall y, (y < num_y sz)%nat ->
     solver_solve mtx (rhs_of y) (zeros (num_dof sz)) y = Ok (sol_of y) /\
     linop_matvec mtx (sol_of y) = Ok (rhs_of y) /\
     List.length (sol_of y) = num_dof sz) ->
  exists sols evs,
    _solve self H full_jac_dict tr
    = (Ok sols, tr ++ initial_trace mtx rhs_of (num_dof sz) (num_y sz) ++ evs) /\
    forall y, (y < num_y sz)%nat ->
      (exists fval, In (Report 0 y 0 fval) evs) /\
      (exists norm fval, In (Report 1 y norm fval) evs).
Proof.
  intros Hnum Hp Hmax HH Hk Hsolver Hls Hmtx Hdata Hsol.
  rewrite (@solve_run C self H full_jac_dict sz Hnum mtx rhs_of sol_of
             Hmtx (@exact_rhs self H full_jac_dict sz rhs_of HH Hdata)
             (fun y Hy => proj1 (Hsol y Hy)) tr).
  set (n := num_dof sz) in *. set (ny := num_y sz) in *.
  set (t1 := tr ++ initial_trace mtx rhs_of n ny).
  set (a1 := {| a_rhs := map rhs_of (seq 0 ny); a_sol := map sol_of (seq 0 ny);
                a_d_sol := repeat (zeros n) ny |}).
  destruct (@for_range_inv _ (fun j a t =>
               (List.length (a_rhs a) = ny /\ List.length (a_sol a) = ny /\
                List.length (a_d_sol a) = ny) /\
               (forall y, (j <= y < ny)%nat ->
                  column (a_sol a) y = Ok (sol_of y)) /\
               exists evs, t = t1 ++ evs /\
                 forall y, (y < j)%nat ->
                   (exists fval, In (Report 0 y 0 fval) evs) /\
                   (exists norm fval, In (Report 1 y norm fval) evs))
              (nonlinear_problem self H full_jac_dict) ny 0%nat a1 t1)
    as (a' & tr' & E & _ & _ & evs & -> & Hev).
  - split; [|split].
    + unfold a1. simpl. rewrite !length_map_seq, repeat_length. auto.
    + intros y Hy. unfold a1. cbn [a_sol]. apply column_map_seq. lia.
    + exists []. rewrite app_nil_r. split; [reflexivity|]. intros y Hy. lia.
  - intros j b t Hj ((Lr & Ls & Ld) & Hcols & evs & -> & Hev).
    destruct (@Hdata j ltac:(lia)) as (ytd & Jt & Ey & Hd & Er).
    assert (Hb : has_column j b) by (unfold has_column; lia).
    assert (Ex : column (a_sol b) j = Ok (sol_of j)) by (apply Hcols; lia).
    pose proof (get_yt_dict_keys _ _ Ey) as Kyt.
    destruct (@report_run self H full_jac_dict ytd
                (approx_norm (sm_options self)) j Hk Kyt 0%nat b
                (t1 ++ evs) (sol_of j) Ex) as (norm0 & fval0 & En & Erep).
    assert (norm0 = 0) as ->.
    { rewrite Hp in En.
      rewrite (@exact_norm C self H full_jac_dict sz mtx rhs_of sol_of HH Hk
                 Hmtx Hsol j ytd Jt ltac:(lia) Hd Er) in En.
      now inversion En. }
    destruct (@newton_loop_run C self H full_jac_dict ytd
                (approx_norm (sm_options self)) j Hk Kyt Hsolver
                Hls
                (Z.to_nat (max_nln_iter (sm_options self))) 0%nat b
                ((t1 ++ evs) ++ [Report 0 j 0 fval0]) Hb)
      as (a' & evs' & Erun & _ & (Lr' & Ls' & Ld') & Hoth & Hin & _).
    unfold nonlinear_problem. rewrite (mbind_lift_Ok _ _ Ey).
    destruct (Z.ltb_spec 0 (max_nln_iter (sm_options self))); [|lia].
    unfold mbind at 1. unfold mbind at 1. rewrite Erep. unfold ret at 1.
    rewrite Erun.
    eexists _, _. split; [reflexivity|]. split; [lia|]. split.
    { intros y Hy. rewrite (Hoth y ltac:(lia)). apply Hcols. lia. }
    exists (evs ++ [Report 0 j 0 fval0] ++ evs').
    split; [now rewrite <- !app_assoc|].
    intros y Hy. destruct (Nat.eq_dec y j) as [->|Hne].
    + split.
      * exists fval0. apply in_or_app. right. now left.
      * destruct Hin as (norm & fval & Hin); [lia|].
        exists norm, fval. apply in_or_app. right. apply in_or_app. now right.
    + destruct (Hev y ltac:(lia)) as ((fval & Hin0) & (norm & fval' & Hin1)).
      split.
      * exists fval. apply in_or_app. now left.
      * exists norm, fval'. apply in_or_app. now left.
  - rewrite (@mbind_Ok _ _ _ _ _ _ _ E). unfold ret.
    exists (a_sol a'), evs. unfold t1. rewrite <- app_assoc.
    split; [reflexivity|]. intros y Hy. apply Hev. lia.
Qed.

Lemma ex_exact_solver_ok : @solver_ok ex_exact_collaborators.
Proof. intros mtx rhs x ind_y. eexists. reflexivity. Qed.

Lemma ex_exact_line_search_ok : @line_search_ok ex_exact_collaborators.
Proof. intros x d func grad alpha _ _. eexists. reflexivity. Qed.

Lemma ex_exact_data :
  forall y, (y < num_y ex_sizes)%nat ->
    exists ytd Jt,
      _get_yt_dict (ex_model 2 1 false None) y = Ok ytd /\
      fit_data (ex_model 2 1 false None) (num_dof ex_sizes) ex_jac_dict ytd Jt /\
      vneg (grad_F ex_hess [(ex_J, [1])] 2 (zeros (num_dof ex_sizes)))
      = vneg (grad_F ex_hess Jt 2 (zeros (num_dof ex_sizes))).
Proof.
  intros y Hy. assert (y = 0%nat) as -> by (simpl in Hy; lia).
  exists ex_yt_dict, [(ex_J, [1])]. split; [reflexivity|].
  split; [apply ex_fit_data | reflexivity].
Qed.

Lemma ex_exact_solves :
  forall y, (y < num_y ex_sizes)%nat ->
    @solver_solve ex_exact_collaborators
      (Mtx (sp_add ex_hess
              (sp_mul (sp_scale (0.5 * IZR 2 * IZR (2 - 1)) (sp_T ex_J)) ex_J)))
      (vneg (grad_F ex_hess [(ex_J, [1])] 2 (zeros (num_dof ex_sizes))))
      (zeros (num_dof ex_sizes)) y
    = Ok (vscale 0.5
            (vneg (grad_F ex_hess [(ex_J, [1])] 2 (zeros (num_dof ex_sizes))))) /\
    linop_matvec
      (Mtx (sp_add ex_hess
              (sp_mul (sp_scale (0.5 * IZR 2 * IZR (2 - 1)) (sp_T ex_J)) ex_J)))
      (vscale 0.5
         (vneg (grad_F ex_hess [(ex_J, [1])] 2 (zeros (num_dof ex_sizes)))))
    = Ok (vneg (grad_F ex_hess [(ex_J, [1])] 2 (zeros (num_dof ex_sizes)))) /\
    List.length
      (vscale 0.5
         (vneg (grad_F ex_hess [(ex_J, [1])] 2 (zeros (num_dof ex_sizes)))))
    = num_dof ex_sizes.
Proof.
  intros y _. split; [reflexivity|]. split; [|reflexivity].
  cbn. do 2 f_equal. lra.
Qed.

Lemma solve_exact_bootstrap_witness :
  num (ex_model 2 1 false None) = Some ex_sizes /\
  approx_norm (sm_options (ex_model 2 1 false None)) = 2%Z /\
  (0 < max_nln_iter (sm_options (ex_model 2 1 false None)))%Z /\
  @solver_ok ex_exact_collaborators /\ @line_search_ok ex_exact_collaborators /\
  exists sols evs,
    snd (@_solve ex_exact_collaborators (ex_model 2 1 false None) ex_hess
           ex_jac_dict [])
    = [] ++ initial_trace
              (Mtx (sp_add ex_hess
                      (sp_mul (sp_scale (0.5 * IZR 2 * IZR (2 - 1)) (sp_T ex_J))
                         ex_J)))
              (fun _ => vneg (grad_F ex_hess [(ex_J, [1])] 2
                                (zeros (num_dof ex_sizes))))
              (num_dof ex_sizes) (num_y ex_sizes)
         ++ evs /\
    fst (@_solve ex_exact_collaborators (ex_model 2 1 false None) ex_hess
           ex_jac_dict []) = Ok sols /\
    exists fval, In (Report 0 0 0 fval) evs.
Proof.
  split; [reflexivity|]. split; [reflexivity|]. split; [simpl; lia|].
  split; [exact ex_exact_solver_ok|]. split; [exact ex_exact_line_search_ok|].
  destruct (@solve_exact_bootstrap ex_exact_collaborators
              (ex_model 2 1 false None) ex_hess ex_jac_dict ex_sizes _
              (fun _ => vneg (grad_F ex_hess [(ex_J, [1])] 2
                                (zeros (num_dof ex_sizes))))
              (fun _ => vscale 0.5
                          (vneg (grad_F ex_hess [(ex_J, [1])] 2
                                   (zeros (num_dof ex_sizes)))))
              [] eq_refl eq_refl eq_refl eq_refl eq_refl
              ex_exact_solver_ok ex_exact_line_search_ok
              ex_bootstrap_mtx ex_exact_data ex_exact_solves)
    as (sols & evs & Hrun & Hev).
  exists sols, evs. rewrite Hrun. split; [reflexivity|]. split; [reflexivity|].
  destruct (Hev 0%nat) as [H0 _]; [simpl; lia | exact H0].
Defined.

(** * Properties of RBF *)

(** ** The linear system of the fit *)

Lemma rbf_system_entry (jac : spmatrix) (nr dof : nat) (c : R) (i j : nat) :
  entry (RBF.system jac nr dof c) i j
  = (if Nat.ltb j nr then entry jac j i
     else if Nat.ltb i nr then entry jac i j else 0)
    + (if Nat.eqb i j && Nat.ltb i nr then c else 0).
Proof.
  unfold RBF.system, RBF.add_diag_upto, RBF.set_cols_upto, RBF.set_rows_upto,
    RBF.np_zeros, sp_T.
  cbn [entry shape].
  destruct (Nat.eqb i j && Nat.ltb i nr)%bool; ring.
Qed.

Lemma rbf_system_shape (jac : spmatrix) (nr dof : nat) (c : R) :
  shape (RBF.system jac nr dof c) = (dof, dof).
Proof. reflexivity. Qed.

(** X19: the system of the fit has a row and a column per degree of
    freedom and a zero block for the polynomial terms; it equals its
    transpose when the radial block of the array of basis functions
    does. *)
Theorem rbf_system_symmetric (jac : spmatrix) (nr dof : nat) (c : R) :
  radial_symmetric jac nr ->
  shape (RBF.system jac nr dof c) = (dof, dof) /\
  symmetric (RBF.system jac nr dof c) /\
  forall i j, (nr <= i)%nat -> (nr <= j)%nat ->
    entry (RBF.system jac nr dof c) i j = 0.
Proof.
  intros Hsym. split; [reflexivity|]. split; [split; [reflexivity|]|].
  - intros i j _ _. rewrite !rbf_system_entry.
    rewrite (Nat.eqb_sym j i).
    destruct (Nat.ltb_spec i nr) as [Hi|Hi], (Nat.ltb_spec j nr) as [Hj|Hj];
      destruct (Nat.eqb_spec i j) as [->|Hne]; cbn [andb];
      try rewrite (Hsym _ _ Hi Hj); try reflexivity; try lia.
  - intros i j Hi Hj. rewrite rbf_system_entry.
    destruct (Nat.ltb_spec j nr); [lia|]. destruct (Nat.ltb_spec i nr); [lia|].
    rewrite andb_false_r. ring.
Qed.

Lemma rbf_system_symmetric_witness :
  radial_symmetric (mk_spmatrix (1%nat, 1%nat) (fun _ _ => 1)) 1 /\
  symmetric (RBF.system (mk_spmatrix (1%nat, 1%nat) (fun _ _ => 1)) 1 1 0).
Proof.
  assert (Hs : radial_symmetric (mk_spmatrix (1%nat, 1%nat) (fun _ _ => 1)) 1)
    by (intros i k _ _; reflexivity).
  split; [exact Hs|].
  apply (@rbf_system_symmetric (mk_spmatrix (1%nat, 1%nat) (fun _ _ => 1)) 1 1 0
           Hs).
Defined.

(** ** The columns the fit solves *)

Lemma rsum_split (m p : nat) (f : nat -> R) :
  rsum (m + p) f = rsum m f + rsum p (fun k => f (m + k)%nat).
Proof.
  induction p as [|p IH].
  - rewrite Nat.add_0_r. simpl. ring.
  - rewrite Nat.add_succ_r. simpl. rewrite IH. ring.
Qed.

Lemma vnth_col (A : spmatrix) (j i : nat) :
  (i < nrows A)%nat -> vnth (RBF.col A j) i = entry A i j.
Proof. intros Hi. unfold RBF.col. now rewrite vnth_tabulate. Qed.

Section RBFColumns.
Context {E : RBF.Externals}.
Variables (mtx rhs : spmatrix) (z : vec).

(** The loop over the outputs solves every column once, from the
    content the column had before the loop. *)
Lemma rbf_solve_columns (k i : nat) (sol0 sol : list vec) :
  for_in (seq i k) (RBF.solve_column mtx rhs) sol0 = Ok sol ->
  (i + k <= List.length sol0)%nat ->
  (forall j, (i <= j < i + k)%nat -> column sol0 j = Ok z) ->
  List.length sol = List.length sol0 /\
  (forall j, (i <= j < i + k)%nat ->
     exists s, column sol j = Ok s /\
               RBF.solver_solve mtx (RBF.col rhs j) z j = Ok s) /\
  (forall j, (j < i)%nat -> column sol j = column sol0 j).
Proof.
  revert i sol0. induction k as [|k IH]; intros i sol0 Hrun Hlen Hz.
  - cbn [seq for_in] in Hrun. inversion Hrun; subst.
    split; [reflexivity|]. split; [intros j Hj; lia | reflexivity].
  - cbn [seq for_in] in Hrun. unfold RBF.solve_column at 1 in Hrun.
    rewrite (Hz i) in Hrun by lia. cbn [bind] in Hrun.
    destruct (RBF.solver_solve mtx (RBF.col rhs i) z i) as [s|e] eqn:Es;
      cbn [bind] in Hrun; [|discriminate].
    destruct (IH (S i) (set_column sol0 i s) Hrun) as (Hl & Hsolved & Hkept).
    + rewrite length_set_column. lia.
    + intros j Hj. rewrite column_set_other by lia. apply Hz. lia.
    + rewrite length_set_column in Hl. split; [exact Hl|]. split.
      * intros j Hj. destruct (Nat.eq_dec j i) as [->|Hne].
        -- exists s. split; [|exact Es].
           rewrite Hkept by lia. apply column_set_same. lia.
        -- apply Hsolved. lia.
      * intros j Hj. rewrite Hkept by lia. apply column_set_other. lia.
Qed.

End RBFColumns.

Section RBFFit.
Context {E : RBF.Externals}.
Variables (self self' : RBF.RBF) (xt yt : spmatrix).

Let options := RBF.rbf_options self.
Let nr := nrows xt.
Let dof := (nr + RBF.poly_terms (RBF.poly_degree options) (ncols xt))%nat.
Let jac :=
  RBF.compute_jac (Some 0%Z) (RBF.poly_degree options) (ncols xt) nr nr dof
    (RBF.normalize_d0 (RBF.d0 options) (ncols xt)) xt xt.
Let mtx := RBF.system jac nr dof (RBF.reg options).
Let rhs := RBF.right_hand_sides yt nr dof (ncols yt).

Hypothesis Hexact : rbf_solver_exact.
Hypothesis Hget : dict_get (RBF.training_pts self) 0 = Ok (xt, yt).
Hypothesis Hfit : RBF._fit self = Ok self'.

(** What a fit that returns has assigned. *)
Lemma rbf_fit_state :
  exists s,
    self' = {| RBF.rbf_options :=
                 {| RBF.d0 := RBF.normalize_d0 (RBF.d0 options) (ncols xt);
                    RBF.poly_degree := RBF.poly_degree options;
                    RBF.reg := RBF.reg options |};
               RBF.training_pts := RBF.training_pts self;
               RBF.num :=
                 Some {| RBF.num_x := ncols xt; RBF.num_y := ncols yt;
                         RBF.num_radial := nr;
                         RBF.num_poly :=
                           RBF.poly_terms (RBF.poly_degree options) (ncols xt);
                         RBF.num_dof := dof |};
               RBF.sol := Some s |} /\
    List.length s = ncols yt /\
    forall j, (j < ncols yt)%nat ->
      exists sj, column s j = Ok sj /\
                 sp_matvec mtx sj = RBF.col rhs j /\
                 List.length sj = dof.
Proof.
  unfold RBF._fit in Hfit. rewrite Hget in Hfit. cbn [bind] in Hfit.
  fold options nr in Hfit. fold dof in Hfit. fold jac in Hfit.
  fold mtx rhs in Hfit.
  destruct (for_in (seq 0 (ncols rhs)) (RBF.solve_column mtx rhs)
              (repeat (zeros dof) (ncols yt))) as [s|e] eqn:Hloop;
    cbn [bind] in Hfit; [|discriminate].
  inversion Hfit; subst self'. exists s. split; [reflexivity|].
  change (ncols rhs) with (ncols yt) in Hloop.
  destruct (@rbf_solve_columns E mtx rhs (zeros dof) (ncols yt) 0
              (repeat (zeros dof) (ncols yt)) s Hloop)
    as (Hl & Hsolved & _).
  - rewrite repeat_length. lia.
  - intros j Hj. apply column_repeat. lia.
  - rewrite repeat_length in Hl. split; [exact Hl|].
    intros j Hj. destruct (Hsolved j ltac:(lia)) as (sj & Hc & Hs).
    exists sj. split; [exact Hc|].
    destruct (Hexact mtx (RBF.col rhs j) (zeros dof) j Hs) as [Hm Hlen].
    split; [exact Hm|]. now rewrite Hlen, length_zeros.
Qed.

End RBFFit.

Lemma column_map (f : vec -> vec) (a : list vec) (j : nat) (c : vec) :
  column a j = Ok c -> column (map f a) j = Ok (f c).
Proof.
  unfold column. rewrite nth_error_map.
  destruct (nth_error a j); [|discriminate].
  intros H. inversion H; subst. reflexivity.
Qed.

(** X20: when the dense solver is exact and the radial block of the
    array of basis functions at the training points equals its transpose,
    a fit that returns interpolates the training data up to the
    regularization: evaluated at the training points, the model returns
    for every output and every training point the training value minus
    [reg] times the radial coefficient of the point. *)
Theorem rbf_fit_interpolates {E : RBF.Externals} (self self' : RBF.RBF)
    (xt yt : spmatrix) :
  rbf_solver_exact ->
  dict_get (RBF.training_pts self) 0 = Ok (xt, yt) ->
  let options := RBF.rbf_options self in
  let nr := nrows xt in
  let dof := (nr + RBF.poly_terms (RBF.poly_degree options) (ncols xt))%nat in
  let jac :=
    RBF.compute_jac (Some 0%Z) (RBF.poly_degree options) (ncols xt) nr nr dof
      (RBF.normalize_d0 (RBF.d0 options) (ncols xt)) xt xt in
  shape jac = (nr, dof) ->
  radial_symmetric jac nr ->
  RBF._fit self = Ok self' ->
  exists s y,
    RBF.sol self' = Some s /\
    RBF.evaluate self' xt (Some 0%Z) = Ok y /\
    forall j i, (j < ncols yt)%nat -> (i < nr)%nat ->
      exists sj yj,
        column s j = Ok sj /\ column y j = Ok yj /\
        vnth yj i = entry yt i j - RBF.reg options * vnth sj i.
Proof.
  intros Hexact Hget options nr dof jac Hshape Hsym Hfit.
  destruct (@rbf_fit_state E self self' xt yt Hexact Hget Hfit)
    as (s & -> & Hl & Hcols).
  fold options nr in Hcols. fold dof in Hcols. fold jac in Hcols.
  exists s, (map (sp_matvec jac) s). split; [reflexivity|]. split.
  { unfold RBF.evaluate, RBF.get_num, RBF.get_sol.
    cbn [RBF.num RBF.sol RBF.training_pts RBF.rbf_options bind RBF.num_x
         RBF.num_radial RBF.num_dof RBF.poly_degree RBF.d0].
    rewrite Hget. reflexivity. }
  intros j i Hj Hi. destruct (Hcols j Hj) as (sj & Hc & Hm & Hlen).
  exists sj, (sp_matvec jac sj). split; [exact Hc|].
  split; [now apply column_map|].
  assert (Hi' : (i < dof)%nat) by (unfold dof; lia).
  assert (Hrow : vnth (sp_matvec (RBF.system jac nr dof (RBF.reg options)) sj) i
                 = entry yt i j).
  { rewrite Hm, vnth_col by exact Hi'.
    unfold RBF.right_hand_sides, RBF.set_rows_upto. cbn [entry].
    destruct (Nat.ltb_spec i nr); [reflexivity | lia]. }
  rewrite vnth_sp_matvec in Hrow by exact Hi'.
  rewrite vnth_sp_matvec by (unfold nrows; now rewrite Hshape).
  unfold ncols in *. rewrite Hshape. rewrite rbf_system_shape in Hrow.
  cbn [snd] in *.
  rewrite <- Hrow.
  transitivity
    (rsum dof (fun k => entry jac i k * vnth sj k)
     + rsum dof (fun k => if Nat.eqb i k
                          then RBF.reg options * vnth sj k else 0)
     - RBF.reg options * vnth sj i).
  - rewrite (rsum_delta (fun k => RBF.reg options * vnth sj k)) by exact Hi'.
    ring.
  - f_equal. rewrite <- rsum_plus. apply rsum_ext. intros k Hk.
    rewrite rbf_system_entry.
    destruct (Nat.ltb_spec i nr); [|lia]. rewrite andb_true_r.
    destruct (Nat.ltb_spec k nr) as [Hk'|Hk'].
    + rewrite (Hsym k i Hk' Hi). destruct (Nat.eqb i k); ring.
    + destruct (Nat.eqb i k); ring.
Qed.

(** X21: when the dense solver is exact, the radial coefficients of a
    fit that returns satisfy the moment conditions: for every output and
    every polynomial term, the sum over the training points of the term at
    the point times the radial coefficient of the point is [0]. *)
Theorem rbf_fit_moment_conditions {E : RBF.Externals} (self self' : RBF.RBF)
    (xt yt : spmatrix) :
  rbf_solver_exact ->
  dict_get (RBF.training_pts self) 0 = Ok (xt, yt) ->
  let options := RBF.rbf_options self in
  let nr := nrows xt in
  let dof := (nr + RBF.poly_terms (RBF.poly_degree options) (ncols xt))%nat in
  let jac :=
    RBF.compute_jac (Some 0%Z) (RBF.poly_degree options) (ncols xt) nr nr dof
      (RBF.normalize_d0 (RBF.d0 options) (ncols xt)) xt xt in
  RBF._fit self = Ok self' ->
  exists s,
    RBF.sol self' = Some s /\
    forall j c, (j < ncols yt)%nat -> (nr <= c < dof)%nat ->
      exists sj,
        column s j = Ok sj /\
        rsum nr (fun k => entry jac k c * vnth sj k) = 0.
Proof.
  intros Hexact Hget options nr dof jac Hfit.
  destruct (@rbf_fit_state E self self' xt yt Hexact Hget Hfit)
    as (s & -> & Hl & Hcols).
  fold options nr in Hcols. fold dof in Hcols. fold jac in Hcols.
  exists s. split; [reflexivity|].
  intros j c Hj Hc. destruct (Hcols j Hj) as (sj & Hcol & Hm & Hlen).
  exists sj. split; [exact Hcol|].
  assert (Hrow : vnth (sp_matvec (RBF.system jac nr dof (RBF.reg options)) sj) c
                 = 0).
  { rewrite Hm, vnth_col by (cbn; lia).
    unfold RBF.right_hand_sides, RBF.set_rows_upto. cbn [entry].
    destruct (Nat.ltb_spec c nr); [lia | reflexivity]. }
  rewrite vnth_sp_matvec in Hrow by (cbn; lia).
  unfold ncols in Hrow. rewrite rbf_system_shape in Hrow. cbn [snd] in Hrow.
  rewrite <- Hrow. unfold dof. rewrite rsum_split.
  rewrite (rsum_zero (n := RBF.poly_terms (RBF.poly_degree options) (ncols xt))).
  - rewrite Rplus_0_r. apply rsum_ext. intros k Hk.
    rewrite rbf_system_entry.
    destruct (Nat.ltb_spec k nr); [|lia].
    destruct (Nat.ltb_spec c nr); [lia|]. rewrite andb_false_r. ring.
  - intros k Hk. rewrite rbf_system_entry.
    destruct (Nat.ltb_spec (nr + k) nr); [lia|].
    destruct (Nat.ltb_spec c nr); [lia|]. rewrite andb_false_r. ring.
Qed.

Lemma ex_rbf_solver_exact : @rbf_solver_exact ex_rbf_externals.
Proof.
  intros mtx rhs x ind_y s. cbn [RBF.solver_solve ex_rbf_externals].
  destruct (list_eq_dec Req_dec_T (sp_matvec mtx (rev rhs)) rhs) as [Em|];
    [|discriminate].
  destruct (Nat.eq_dec (List.length (rev rhs)) (List.length x)) as [El|];
    [|discriminate].
  intros H. inversion H; subst. auto.
Qed.

Lemma ex_rbf_solve :
  @RBF.solver_solve ex_rbf_externals
    (RBF.system (mk_spmatrix (1%nat, 2%nat) (fun _ _ => 1)) 1 2 0)
    [1; 0] (zeros 2) 0
  = Ok [0; 1].
Proof.
  cbn [RBF.solver_solve ex_rbf_externals rev app].
  destruct (list_eq_dec Req_dec_T _ _) as [_|Hn].
  - destruct (Nat.eq_dec _ _) as [_|Hn]; [reflexivity|].
    exfalso. apply Hn. reflexivity.
  - exfalso. apply Hn. cbn. f_equal; [lra | f_equal; lra].
Qed.

Lemma ex_rbf_fit : @RBF._fit ex_rbf_externals ex_rbf = Ok ex_rbf_fitted.
Proof.
  unfold RBF._fit.
  cbn -[RBF.solver_solve RBF.system].
  change [0; 0] with (zeros 2). rewrite ex_rbf_solve. reflexivity.
Qed.

Lemma ex_rbf_jac_symmetric :
  radial_symmetric
    (@RBF.compute_jac ex_rbf_externals (Some 0%Z) RBF.Constant_trend 1 1 1 2
       (RBF.Array [1]) ex_rbf_xt ex_rbf_xt) 1.
Proof. intros i k _ _. reflexivity. Qed.

Lemma rbf_fit_interpolates_witness :
  @rbf_solver_exact ex_rbf_externals /\
  @RBF._fit ex_rbf_externals ex_rbf = Ok ex_rbf_fitted /\
  exists s y,
    RBF.sol ex_rbf_fitted = Some s /\
    @RBF.evaluate ex_rbf_externals ex_rbf_fitted ex_rbf_xt (Some 0%Z) = Ok y /\
    forall j i, (j < ncols ex_rbf_yt)%nat -> (i < nrows ex_rbf_xt)%nat ->
      exists sj yj,
        column s j = Ok sj /\ column y j = Ok yj /\
        vnth yj i
        = entry ex_rbf_yt i j - RBF.reg (RBF.rbf_options ex_rbf) * vnth sj i.
Proof.
  split; [exact ex_rbf_solver_exact|]. split; [exact ex_rbf_fit|].
  apply (@rbf_fit_interpolates ex_rbf_externals ex_rbf ex_rbf_fitted ex_rbf_xt
           ex_rbf_yt ex_rbf_solver_exact eq_refl eq_refl ex_rbf_jac_symmetric
           ex_rbf_fit).
Defined.

Lemma rbf_fit_moment_conditions_witness :
  @rbf_solver_exact ex_rbf_externals /\
  @RBF._fit ex_rbf_externals ex_rbf = Ok ex_rbf_fitted /\
  exists s,
    RBF.sol ex_rbf_fitted = Some s /\
    forall j c, (j < ncols ex_rbf_yt)%nat -> (1 <= c < 2)%nat ->
      exists sj,
        column s j = Ok sj /\
        rsum 1
          (fun k =>
             entry
               (@RBF.compute_jac ex_rbf_externals (Some 0%Z) RBF.Constant_trend
                  1 1 1 2 (RBF.Array [1]) ex_rbf_xt ex_rbf_xt) k c
             * vnth sj k) = 0.
Proof.
  split; [exact ex_rbf_solver_exact|]. split; [exact ex_rbf_fit|].
  apply (@rbf_fit_moment_conditions ex_rbf_externals ex_rbf ex_rbf_fitted
           ex_rbf_xt ex_rbf_yt ex_rbf_solver_exact eq_refl ex_rbf_fit).
Defined.

(** * Properties of WeldedBeam *)

Lemma welded_beam_bounds (t h l : R) :
  in_domain WeldedBeam.xlimits [t; h; l] ->
  5 <= t <= 10 /\ 0.125 <= h <= 1 /\ 5 <= l <= 10.
Proof.
  intros H.
  pose proof (H 0%nat ltac:(simpl; lia)) as H0.
  pose proof (H 1%nat ltac:(simpl; lia)) as H1.
  pose proof (H 2%nat ltac:(simpl; lia)) as H2.
  unfold vnth in *. simpl in *. auto.
Qed.

(** X22: at every point within the bounds the problem declares, the
    bounds included, the quotients and the square roots of the function
    are taken of positive numbers, the function value [_evaluate]
    returns is at least the first stress term [6000 / (sqrt(2) h l)], and
    that term is positive. *)
Theorem welded_beam_positive (t h l : R) :
  in_domain WeldedBeam.xlimits [t; h; l] ->
  0 < sqrt 2 * h * l /\
  0 < 0.25 * (l ^ 2 + (h + t) ^ 2) /\
  0 < 2 * (0.707 * h * l * (l / 12 + 0.25 * (h + t) ^ 2)) /\
  WeldedBeam._evaluate [[t; h; l]] None = Ok [WeldedBeam.func t h l] /\
  0 < 6000 / (sqrt 2 * h * l) <= WeldedBeam.func t h l.
Proof.
  intros Hdom. destruct (welded_beam_bounds Hdom) as (Ht & Hh & Hl).
  assert (Hs2 : 0 < sqrt 2) by (apply sqrt_lt_R0; lra).
  assert (Hhl : 0 < h * l) by (apply Rmult_lt_0_compat; lra).
  assert (D1 : 0 < sqrt 2 * h * l).
  { rewrite Rmult_assoc. now apply Rmult_lt_0_compat. }
  assert (Hsq : 0 <= (h + t) ^ 2) by apply pow2_ge_0.
  assert (Hl2 : 0 < l ^ 2) by (apply pow_lt; lra).
  assert (D2 : 0 < 0.25 * (l ^ 2 + (h + t) ^ 2)) by lra.
  assert (D3 : 0 < 2 * (0.707 * h * l * (l / 12 + 0.25 * (h + t) ^ 2))).
  { apply Rmult_lt_0_compat; [lra|].
    apply Rmult_lt_0_compat; [|lra].
    rewrite Rmult_assoc. apply Rmult_lt_0_compat; [lra | exact Hhl]. }
  split; [exact D1|]. split; [exact D2|]. split; [exact D3|].
  split; [reflexivity|].
  unfold WeldedBeam.func.
  set (tau1 := 6000 / (sqrt 2 * h * l)).
  set (r := sqrt (0.25 * (l ^ 2 + (h + t) ^ 2))).
  set (tau2 := 6000 * (14 + 0.5 * l) * r
               / (2 * (0.707 * h * l * (l / 12 + 0.25 * (h + t) ^ 2)))).
  assert (T1 : 0 < tau1) by (apply Rdiv_lt_0_compat; lra).
  assert (Hr : 0 < r) by (apply sqrt_lt_R0; exact D2).
  assert (T2 : 0 < tau2).
  { apply Rdiv_lt_0_compat; [|exact D3].
    apply Rmult_lt_0_compat; [|exact Hr]. lra. }
  split; [exact T1|].
  rewrite <- (sqrt_pow2 tau1) at 1 by lra.
  apply sqrt_le_1_alt.
  assert (0 <= tau2 ^ 2) by apply pow2_ge_0.
  assert (0 < l * tau1 * tau2 / r).
  { apply Rdiv_lt_0_compat; [|exact Hr].
    apply Rmult_lt_0_compat; [|exact T2].
    apply Rmult_lt_0_compat; lra. }
  lra.
Qed.

Lemma welded_beam_positive_witness :
  in_domain WeldedBeam.xlimits [5; 0.125; 10] /\
  WeldedBeam._evaluate [[5; 0.125; 10]] None
  = Ok [WeldedBeam.func 5 0.125 10] /\
  0 < 6000 / (sqrt 2 * 0.125 * 10) <= WeldedBeam.func 5 0.125 10.
Proof.
  assert (H : in_domain WeldedBeam.xlimits [5; 0.125; 10]).
  { intros [|[|[|j]]] Hj; unfold vnth; simpl in *; try lra; lia. }
  split; [exact H|].
  destruct (@welded_beam_positive 5 0.125 10 H) as (_ & _ & _ & He & Hp).
  split; [exact He | exact Hp].
Defined.

Lemma item_Some (row : vec) (j : nat) :
  (j < List.length row)%nat -> exists v, WeldedBeam.item row j = Ok v.
Proof.
  intros Hj. unfold WeldedBeam.item.
  destruct (nth_error row j) eqn:E; [eauto|].
  apply nth_error_None in E. lia.
Qed.

Lemma item_None (row : vec) (j : nat) :
  (List.length row <= j)%nat -> WeldedBeam.item row j = Err IndexError.
Proof.
  intros Hj. unfold WeldedBeam.item.
  destruct (nth_error row j) eqn:E; [|reflexivity].
  assert (nth_error row j <> None) by congruence.
  apply nth_error_Some in H. lia.
Qed.

Lemma py_index_spec (n : nat) (k : Z) :
  ((- Z.of_nat n <= k < Z.of_nat n)%Z ->
   exists i, WeldedBeam.py_index n k = Ok i /\ (i < n)%nat) /\
  (~ (- Z.of_nat n <= k < Z.of_nat n)%Z ->
   WeldedBeam.py_index n k = Err IndexError).
Proof.
  unfold WeldedBeam.py_index.
  destruct (Z.leb_spec 0 k), (Z.ltb_spec k (Z.of_nat n)); cbn [andb];
    try destruct (Z.leb_spec (- Z.of_nat n) k); try destruct (Z.ltb_spec k 0);
    cbn [andb]; split; intros Hk; try lia; try reflexivity;
    eexists; (split; [reflexivity | lia]).
Qed.

(** An entry of [y] is computed exactly when the row has the three
    inputs and the derivative index, if there is one, is an index of the
    list of the three. *)
Lemma evaluate_row_spec (kx : option Z) (row : vec) :
  ((3 <= List.length row)%nat /\
   (forall k, kx = Some k -> (-3 <= k < 3)%Z) ->
   exists v, WeldedBeam.evaluate_row kx row = Ok v) /\
  (~ ((3 <= List.length row)%nat /\
      (forall k, kx = Some k -> (-3 <= k < 3)%Z)) ->
   WeldedBeam.evaluate_row kx row = Err IndexError).
Proof.
  unfold WeldedBeam.evaluate_row.
  destruct (Nat.le_gt_cases 3 (List.length row)) as [Hl|Hl].
  - destruct (@item_Some row 0 ltac:(lia)) as (x0 & ->).
    destruct (@item_Some row 1 ltac:(lia)) as (x1 & ->).
    destruct (@item_Some row 2 ltac:(lia)) as (x2 & ->).
    cbn [bind]. destruct kx as [k|].
    + unfold WeldedBeam.partial_derivative. cbn [List.length].
      destruct (py_index_spec 3 k) as [Hin Hout]. cbn [Z.of_nat] in *.
      split.
      * intros [_ Hk]. destruct (Hin (Hk k eq_refl)) as (i & -> & _).
        cbn [bind]. eauto.
      * intros Hn. rewrite Hout; [reflexivity|].
        intros Hk. apply Hn. split; [exact Hl|].
        intros k' E. inversion E; subst. exact Hk.
    + split; [eauto|]. intros Hn. exfalso. apply Hn.
      split; [exact Hl | discriminate].
  - split; [intros [Hl' _]; lia|]. intros _.
    destruct (Nat.le_gt_cases (List.length row) 0) as [H0|H0].
    { now rewrite item_None. }
    destruct (@item_Some row 0 H0) as (x0 & ->). cbn [bind].
    destruct (Nat.le_gt_cases (List.length row) 1) as [H1|H1].
    { now rewrite item_None. }
    destruct (@item_Some row 1 H1) as (x1 & ->). cbn [bind].
    rewrite item_None by lia. reflexivity.
Qed.

Lemma evaluate_row_cases (kx : option Z) (row : vec) :
  ((3 <= List.length row)%nat /\
   (forall k, kx = Some k -> (-3 <= k < 3)%Z) /\
   exists v, WeldedBeam.evaluate_row kx row = Ok v) \/
  (~ ((3 <= List.length row)%nat /\
      (forall k, kx = Some k -> (-3 <= k < 3)%Z)) /\
   WeldedBeam.evaluate_row kx row = Err IndexError).
Proof.
  destruct (evaluate_row_spec kx row) as [Hok Hbad].
  assert (Hdec : ((3 <= List.length row)%nat /\
                  (forall k, kx = Some k -> (-3 <= k < 3)%Z)) \/
                 ~ ((3 <= List.length row)%nat /\
                    (forall k, kx = Some k -> (-3 <= k < 3)%Z))).
  { destruct (Nat.le_gt_cases 3 (List.length row)) as [Hl|Hl];
      [|right; intros [Hl' _]; lia].
    destruct kx as [k|]; [|left; split; [exact Hl | discriminate]].
    destruct (Z_le_gt_dec (-3) k) as [H1|H1];
      [destruct (Z_lt_ge_dec k 3) as [H2|H2]|].
    - left. split; [exact Hl|]. intros k' E. inversion E; subst. lia.
    - right. intros [_ Hk]. specialize (Hk k eq_refl). lia.
    - right. intros [_ Hk]. specialize (Hk k eq_refl). lia. }
  destruct Hdec as [HP|HP].
  - left. destruct HP as [Hl Hk]. split; [exact Hl|]. split; [exact Hk|].
    apply Hok. split; assumption.
  - right. split; [exact HP | apply Hbad, HP].
Qed.

(** X23: [_evaluate] returns exactly when every row of [x] has the three
    inputs and, if there is a row, the derivative index is [None] or an
    index of a list of three, from [-3] to [2]; what it returns has an
    entry per row, and when it does not return the exception is an
    [IndexError]. *)
Theorem welded_beam_evaluate_returns (x : list vec) (kx : option Z) :
  ((exists y, WeldedBeam._evaluate x kx = Ok y) <->
   (Forall (fun row => (3 <= List.length row)%nat) x /\
    (x <> [] -> forall k, kx = Some k -> (-3 <= k < 3)%Z))) /\
  (forall y, WeldedBeam._evaluate x kx = Ok y -> List.length y = List.length x) /\
  (forall e, WeldedBeam._evaluate x kx = Err e -> e = IndexError).
Proof.
  induction x as [|row x IH].
  - cbn [WeldedBeam._evaluate]. split; [|split].
    + split; [intros _; split; [constructor | congruence] | eauto].
    + intros y H. now inversion H.
    + discriminate.
  - destruct IH as (IHiff & IHlen & IHerr). cbn [WeldedBeam._evaluate].
    destruct (evaluate_row_cases kx row) as [(Hl & Hk & v & ->)|(HP & ->)];
      cbn [bind].
    + destruct (WeldedBeam._evaluate x kx) as [y|e] eqn:Erest; cbn [bind].
      * split; [|split].
        -- split; [|eauto]. intros _. split.
           ++ constructor; [exact Hl|]. apply IHiff. eauto.
           ++ intros _. exact Hk.
        -- intros y' H. inversion H; subst. cbn [List.length].
           now rewrite (IHlen y eq_refl).
        -- discriminate.
      * split; [|split].
        -- split; [intros (y & H); discriminate|].
           intros [Hall _]. inversion Hall as [|? ? _ Hx]; subst.
           destruct (proj2 IHiff) as (y & Hy); [|discriminate].
           split; [exact Hx|]. intros _. exact Hk.
        -- discriminate.
        -- intros e' H. inversion H; subst. now apply IHerr.
    + split; [|split].
      * split; [intros (y & H); discriminate|].
        intros [Hall Hk]. exfalso. apply HP.
        inversion Hall as [|? ? Hl _]; subst.
        split; [exact Hl|]. apply Hk. discriminate.
      * discriminate.
      * intros e' H. now inversion H.
Qed.

(** ** The extrapolation of values *)

Lemma coo_entry_vadd (d1 d2 : vec) (rows cols : list nat) (i j : nat) :
  List.length d1 = List.length rows ->
  List.length d2 = List.length rows ->
  coo_entry (vadd d1 d2) rows cols i j
  = coo_entry d1 rows cols i j + coo_entry d2 rows cols i j.
Proof.
  unfold vadd. revert d1 d2 cols.
  induction rows as [|r rows IH]; intros [|a d1] [|b d2] cols H1 H2;
    try discriminate; cbn [vmap2 coo_entry]; [ring|].
  destruct cols as [|c cols]; [ring|].
  rewrite IH by (simpl in *; lia).
  destruct (Nat.eqb r i && Nat.eqb c j)%bool; ring.
Qed.

Section FirstOrder.
Context {C : Collaborators}.
Variables (x : list vec) (nx : nat) (rows cols : list nat).
Variables (shp : nat * nat) (dx : list vec).

Hypothesis pattern : jac_pattern x (Some 0%Z) nx rows cols shp.
Hypothesis dx_ok : dx_shape dx nx (List.length rows).

(** The data array of the call [_compute_jac(0, k, x)]. *)
Let D (k : nat) : vec := fst (fst (_compute_jac (Some 0%Z) k x)).

(** The matrix of the triplets [(data, rows, cols)]. *)
Let Mx (data : vec) : spmatrix := mk_spmatrix shp (coo_entry data rows cols).

Lemma length_D (k : nat) : (k <= nx)%nat -> List.length (D k) = List.length rows.
Proof.
  intros Hk. destruct pattern as (_ & _ & _ & Hpat).
  now destruct (Hpat k Hk) as (_ & _ & Hl).
Qed.

Lemma length_offsets (ix : nat) :
  (ix < nx)%nat -> List.length (nth ix dx []) = List.length rows.
Proof.
  intros Hix. destruct dx_ok as (Hdx & Hcol).
  rewrite Forall_forall in Hcol. apply Hcol. apply nth_In. lia.
Qed.

Lemma length_term (ix : nat) :
  (ix < nx)%nat ->
  List.length (vmul (D (ix + 1)) (nth ix dx [])) = List.length rows.
Proof.
  intros Hix. unfold vmul. apply length_vmap2_same.
  - apply length_D. lia.
  - now apply length_offsets.
Qed.

(** For values the loop adds, for every input, the derivative term times
    the offsets. *)
Lemma extrapolation_values_loop (ixs : list nat) (data : vec) :
  Forall (fun ix => (ix < nx)%nat) ixs ->
  for_in ixs (fun ix '(data, rows, cols) =>
    '(data_tmp, rows, cols) <-
      first_order_term x (Some 0%Z) dx (as_bool_float dx) ix ;;
    Ok (vadd data data_tmp, rows, cols)) (data, rows, cols)
  = Ok (fold_left (fun d ix => vadd d (vmul (D (ix + 1)) (nth ix dx []))) ixs data,
        rows, cols).
Proof.
  intros Hixs. revert data.
  induction Hixs as [|ix ixs Hix _ IH]; intros data; cbn [for_in fold_left].
  - reflexivity.
  - destruct pattern as (_ & _ & _ & Hpat).
    destruct (Hpat (ix + 1)%nat ltac:(lia)) as (Hr & Hc & _).
    assert (Ec : column dx ix = Ok (nth ix dx [])).
    { unfold column. destruct dx_ok as (Hdx & _).
      rewrite (nth_error_nth' dx []) by lia. reflexivity. }
    rewrite (first_order_term_0 x dx (as_bool_float dx) ix Ec), Hr, Hc.
    cbn [bind]. apply IH.
Qed.

(** The matrix of a sum of data arrays acts as the sum of the
    matrices. *)
Lemma sp_matvec_data_fold (ixs : list nat) (data : vec) (c : vec) :
  Forall (fun ix => (ix < nx)%nat) ixs ->
  List.length data = List.length rows ->
  sp_matvec
    (Mx (fold_left (fun d ix => vadd d (vmul (D (ix + 1)) (nth ix dx []))) ixs
           data)) c
  = fold_left
      (fun y ix => vadd y (sp_matvec (Mx (vmul (D (ix + 1)) (nth ix dx []))) c))
      ixs (sp_matvec (Mx data) c).
Proof.
  intros Hixs. revert data.
  induction Hixs as [|ix ixs Hix _ IH]; intros data Hl; cbn [fold_left].
  - reflexivity.
  - rewrite IH.
    + f_equal.
      rewrite <- (@sp_matvec_add (Mx data)
                    (Mx (vmul (D (ix + 1)) (nth ix dx []))) c eq_refl).
      apply sp_matvec_ext. split; [reflexivity|].
      intros i j _ _. cbn [Mx entry sp_add].
      apply coo_entry_vadd; [exact Hl | now apply length_term].
    + unfold vadd. apply length_vmap2_same; [exact Hl | now apply length_term].
Qed.

End FirstOrder.

(** X24: with extrapolation, values ([kx = 0]) are extrapolated to first
    order: when the assembler returns one sparsity pattern for all the
    terms at [x] and the offset array has an offset per Jacobian entry and
    input, the prediction of every output is the prediction of the
    Jacobian of the values plus, for every input [ix], the prediction of
    the Jacobian of the derivative along [ix] with every entry multiplied
    by its offset along [ix]. *)
Theorem evaluate_first_order {C : Collaborators} (self : RMT) (sz : sizes)
    (s : list vec) (x : list vec) (rows cols : list nat) :
  num self = Some sz ->
  sol self = Some s ->
  extrapolate (sm_options self) = true ->
  jac_pattern x (Some 0%Z) (num_x sz) rows cols (List.length x, num_coeff sz) ->
  let dx :=
    compute_ext_dist (num_x sz) (List.length x) (List.length x * num_support sz)
      (xlimits (sm_options self)) x in
  dx_shape dx (num_x sz) (List.length rows) ->
  let data := fun k => fst (fst (_compute_jac (Some 0%Z) k x)) in
  let matrix := fun d =>
    mk_spmatrix (List.length x, num_coeff sz) (coo_entry d rows cols) in
  evaluate self x (Some 0%Z)
  = Ok (map (fun c =>
               fold_left
                 (fun y ix =>
                    vadd y
                      (sp_matvec (matrix (vmul (data (ix + 1)%nat) (nth ix dx [])))
                         c))
                 (seq 0 (num_x sz)) (sp_matvec (matrix (data 0%nat)) c))
          s).
Proof.
  intros Hnum Hsol Hext Hpat dx Hdx data matrix.
  pose proof Hpat as (Hlc & Hrows & Hcols & Hcalls).
  destruct (Hcalls 0%nat ltac:(lia)) as (Hr0 & Hc0 & Hl0).
  assert (Hseq : Forall (fun ix => (ix < num_x sz)%nat) (seq 0 (num_x sz))).
  { apply Forall_forall. intros ix Hin. apply in_seq in Hin. lia. }
  unfold evaluate, get_num, get_sol. rewrite Hnum, Hsol, Hext. cbn [bind].
  unfold extrapolation. fold dx.
  destruct (_compute_jac (Some 0%Z) 0 x) as [[data0 r0] c0] eqn:E0.
  cbn [fst snd] in Hr0, Hc0, Hl0. subst r0 c0.
  rewrite (@extrapolation_values_loop C x (num_x sz) rows cols
             (List.length x, num_coeff sz) dx Hpat Hdx (seq 0 (num_x sz)) data0
             Hseq).
  cbn [bind].
  rewrite csc_matrix_ok.
  - cbn [bind]. f_equal. apply map_ext. intros c.
    rewrite (@sp_matvec_data_fold C x (num_x sz) rows cols
               (List.length x, num_coeff sz) dx Hpat Hdx (seq 0 (num_x sz))
               data0 c Hseq Hl0).
    unfold matrix, data. now rewrite E0.
  - clear E0. revert data0 Hl0. induction Hseq as [|ix ixs Hix _ IH];
      intros data0 Hl0; cbn [fold_left]; [exact Hl0|].
    apply IH. unfold vadd. apply length_vmap2_same; [exact Hl0|].
    apply (@length_term C x (num_x sz) rows cols (List.length x, num_coeff sz)
             dx Hpat Hdx ix Hix).
  - exact Hlc.
  - exact Hrows.
  - exact Hcols.
Qed.

Lemma evaluate_first_order_witness :
  num (ex_model 4 10 true (Some [[1]])) = Some ex_sizes /\
  sol (ex_model 4 10 true (Some [[1]])) = Some [[1]] /\
  extrapolate (sm_options (ex_model 4 10 true (Some [[1]]))) = true /\
  @evaluate ex_collaborators (ex_model 4 10 true (Some [[1]])) [[1]] (Some 0%Z)
  = Ok (map (fun c =>
               fold_left
                 (fun y ix =>
                    vadd y
                      (sp_matvec
                         (mk_spmatrix (1%nat, 1%nat)
                            (coo_entry
                               (vmul
                                  (fst (fst (ex_compute_jac (Some 0%Z) (ix + 1)
                                               [[1]])))
                                  (nth ix (ex_compute_ext_dist 1 1 1 [(0, 1)] [[1]])
                                     []))
                               [0%nat] [0%nat]))
                         c))
                 (seq 0 1)
                 (sp_matvec
                    (mk_spmatrix (1%nat, 1%nat)
                       (coo_entry (fst (fst (ex_compute_jac (Some 0%Z) 0 [[1]])))
                          [0%nat] [0%nat]))
                    c))
          [[1]]).
Proof.
  split; [reflexivity|]. split; [reflexivity|]. split; [reflexivity|].
  apply (@evaluate_first_order ex_collaborators
           (ex_model 4 10 true (Some [[1]])) ex_sizes [[1]] [[1]]
           [0%nat] [0%nat] eq_refl eq_refl eq_refl).
  - split; [reflexivity|]. split; [repeat constructor|].
    split; [repeat constructor|]. intros ix2 _. repeat split.
  - split; [reflexivity|]. repeat constructor.
Defined.
